(** * convert.js: Google Sheets HTML export to .wsheet documents

    A shallow embedding of [src/editor/convert/convert.js] and the
    verification of its specification.

    The converter works on JavaScript strings with regular expressions
    only.  A JavaScript string is a sequence of UTF-16 code units, and
    every regular expression of the file is written without the [u]
    flag, so it matches code unit by code unit.  Strings are therefore
    lists of code units ([N]), and each regular expression is embedded
    as the scanner a backtracking matcher performs for it: in each of
    them a greedy or lazy run is followed by a character or a literal
    that the run cannot contain, so that the matcher never has a
    choice.

    The modules follow the source: [JsString] and [JsNumber] hold the
    built-in operations the file calls (on the arguments it gives
    them), [Css] the CSS helpers, [Html] the patterns of the table
    walk, [StyleMap] the object that maps class names to style
    records, [Convert] the conversion and the serialisation.  [Spec]
    holds the predicates of the specification and [Samples] the
    documents the statements are evaluated on.  The function
    [convertHtml] takes the text it reads from the file; the script
    around it, which scans the folder, writes the outputs, deletes
    the sources and writes the index, is [Batch], over a model of the
    two folders.  [Table], [Rules] and [Decls] hold what the
    statements about the table walk, the style rules and the
    declarations need. *)

From Stdlib Require Import ZArith NArith Ascii String SpecFloat.
From Stdlib Require HexadecimalN.
From stdpp Require Import gmap list sorting.

Set Warnings "-register-all".
Local Open Scope N_scope.

(** ** JavaScript strings *)

Module JsString.

(** A code unit and a string of them. *)
Abbreviation char := N (only parsing).
Abbreviation jsstring := (list N) (only parsing).

(** An ASCII literal of the source as a string of code units. *)
Fixpoint str (s : string) : jsstring :=
  match s with
  | EmptyString => []
  | String a r => N_of_ascii a :: str r
  end.
Arguments str s%_string : simpl never.

(** The double quote, which the literals of this file cannot hold. *)
Definition dq : char := 34.

(** [quoted s] is [s] with every backquote turned into a double quote:
    expected JSON texts are written with backquotes. *)
Definition quoted (s : string) : jsstring :=
  (fun c => if c =? 96 then dq else c) <$> str s.
Arguments quoted s%_string : simpl never.

Definition eqs (a b : jsstring) : bool := bool_decide (a = b).

(** *** Character classes of the regular expressions *)

(** [\d] *)
Definition is_digit (c : char) : bool := (48 <=? c) && (c <=? 57).
Definition is_upper (c : char) : bool := (65 <=? c) && (c <=? 90).
Definition is_lower (c : char) : bool := (97 <=? c) && (c <=? 122).
(** [\w] *)
Definition is_word (c : char) : bool :=
  is_digit c || is_upper c || is_lower c || (c =? 95).
(** [[\d.]] *)
Definition is_digdot (c : char) : bool := is_digit c || (c =? 46).
(** [[0-9a-f]] under the [i] flag *)
Definition is_hex (c : char) : bool :=
  is_digit c || ((97 <=? c) && (c <=? 102)) || ((65 <=? c) && (c <=? 70)).
(** [\s], which is also what [String.prototype.trim] removes: ECMAScript
    WhiteSpace and LineTerminator. *)
Definition is_space (c : char) : bool :=
  ((9 <=? c) && (c <=? 13)) || (c =? 32) || (c =? 160) || (c =? 5760)
  || ((8192 <=? c) && (c <=? 8202)) || (c =? 8232) || (c =? 8233)
  || (c =? 8239) || (c =? 8287) || (c =? 12288) || (c =? 65279).

(** Canonicalisation of a code unit for a case-insensitive match
    against the ASCII characters of a pattern.  Without the [u] flag a
    code unit above 127 is never identified with an ASCII one, so only
    the ASCII letters fold. *)
Definition canon (c : char) : char := if is_lower c then c - 32 else c.
Definition eq_ci (a b : char) : bool := canon a =? canon b.
Definition eq_cs (a b : char) : bool := a =? b.

(** [String.prototype.toLowerCase].  Every use of its result in
    convert.js is a comparison with an ASCII literal (or the result is
    itself ASCII), so what matters is which code units become ASCII:
    the ASCII capitals, U+212A KELVIN SIGN (to k) and U+0130 (to i
    followed by U+0307).  Every other code unit above 127 lower-cases to
    code units above 127 and is kept as it is here. *)
Definition lower_char (c : char) : jsstring :=
  if is_upper c then [c + 32]
  else if c =? 8490 then [107]
  else if c =? 304 then [105; 775]
  else [c].
Definition toLowerCase (s : jsstring) : jsstring := s ≫= lower_char.

(** *** Scanning *)

(** The longest prefix of characters in a class, and what follows:
    a greedy [[...]*]. *)
Fixpoint span (p : char → bool) (s : jsstring) : jsstring * jsstring :=
  match s with
  | [] => ([], [])
  | c :: r => if p c then let '(a, b) := span p r in (c :: a, b) else ([], s)
  end.

Definition trimStart (s : jsstring) : jsstring := (span is_space s).2.
Definition trimEnd (s : jsstring) : jsstring := reverse (trimStart (reverse s)).
Definition trim (s : jsstring) : jsstring := trimEnd (trimStart s).

(** A literal at the start of the text: the rest after it. *)
Fixpoint strip_prefix (eqc : char → char → bool) (lit s : jsstring)
  : option jsstring :=
  match lit with
  | [] => Some s
  | a :: lit' =>
      match s with
      | c :: s' => if eqc a c then strip_prefix eqc lit' s' else None
      | [] => None
      end
  end.

Definition startsWith (s lit : jsstring) : bool :=
  bool_decide (is_Some (strip_prefix eq_cs lit s)).

(** [agrees eqc lit o]: the text [o] is the literal [lit] up to the
    comparison of characters [eqc] (exactly, or in either case). *)
Definition agrees (eqc : char → char → bool) (lit o : jsstring) : Prop :=
  Forall2 (λ x y, eqc x y = true) lit o.

(** The first occurrence of a literal: the text before it and the text
    after it.  This is both [indexOf] and a lazy [[\s\S]*?] followed by
    the literal. *)
Fixpoint find_lit (eqc : char → char → bool) (lit s : jsstring)
  : option (jsstring * jsstring) :=
  match strip_prefix eqc lit s with
  | Some r => Some ([], r)
  | None =>
      match s with
      | [] => None
      | c :: s' =>
          match find_lit eqc lit s' with
          | Some (a, b) => Some (c :: a, b)
          | None => None
          end
      end
  end.

Definition includes (s lit : jsstring) : bool :=
  bool_decide (is_Some (find_lit eq_cs lit s)).

(** [s.split(c)] for a one-character separator: at least one piece. *)
Fixpoint split (sep : char) (s : jsstring) : list jsstring :=
  match s with
  | [] => [[]]
  | c :: r =>
      if c =? sep then [] :: split sep r
      else match split sep r with
           | p :: ps => (c :: p) :: ps
           | [] => [[c]]
           end
  end.

(** [s.replace(/lit/g, rep)] for a literal pattern that is not empty:
    left to right, resuming after each replaced occurrence. *)
Fixpoint replace_fuel (n : nat) (lit rep s : jsstring) : jsstring :=
  match n with
  | O => s
  | S n' =>
      match strip_prefix eq_cs lit s with
      | Some r => rep ++ replace_fuel n' lit rep r
      | None =>
          match s with
          | [] => []
          | c :: r => c :: replace_fuel n' lit rep r
          end
      end
  end.
Definition replaceAll (lit rep s : jsstring) : jsstring :=
  replace_fuel (S (length s)) lit rep s.

(** [s.replace(/[class]/g, '')] *)
Definition remove_chars (p : char → bool) (s : jsstring) : jsstring :=
  filter (λ c, p c = false) s.

End JsString.

Import JsString.

(** ** JavaScript numbers *)

Module JsNumber.

(** A Number is an IEEE 754 binary64 value; the arithmetic is that of
    the specification of floating-point numbers of the standard
    library, at precision 53 and maximal exponent 1024. *)
Abbreviation double := spec_float (only parsing).
Definition prec : Z := 53.
Definition emax : Z := 1024.

(** What [Math.round] and [parseInt] return: an integral Number (held
    exactly), an infinity or NaN. *)
Inductive jsnum :=
  | Int (z : Z)
  | Infinity (negative : bool)
  | NaN.

#[global] Instance jsnum_eq_dec : EqDecision jsnum.
Proof. solve_decision. Defined.

#[global] Instance double_eq_dec : EqDecision spec_float.
Proof. solve_decision. Defined.

Definition digit_val (c : char) : Z := Z.of_N (c - 48).

(** The integer a run of decimal digits denotes. *)
Definition decimal_value (ds : jsstring) : Z :=
  fold_left (λ acc c, 10 * acc + digit_val c)%Z ds 0%Z.

(** The Number value of the decimal [n / 10^k]: the nearest double,
    ties to even.  (ECMAScript lets an implementation cut a literal
    after its 20th significant digit; the engines round correctly.) *)
Definition of_decimal (n : Z) (k : nat) : double :=
  match n with
  | Zpos p =>
      SFdiv prec emax (S754_finite false p 0)
            (S754_finite false (Z.to_pos (10 ^ Z.of_nat k)) 0)
  | _ => S754_zero false
  end.

(** [parseFloat] on the texts convert.js gives it, which are runs of
    digits and dots: the longest prefix that is a decimal literal
    (digits, then optionally a dot and digits; or a dot and digits) is
    read, the rest is ignored, and NaN is returned when there is no such
    prefix.  Signs, exponents and leading blanks cannot occur there. *)
Definition parseFloat (s : jsstring) : double :=
  let '(ip, r) := span is_digit s in
  let fp := match r with
            | 46 :: r' => (span is_digit r').1
            | _ => []
            end in
  match ip, fp with
  | [], [] => S754_nan
  | _, _ => of_decimal (decimal_value (ip ++ fp)) (length fp)
  end.

(** The literal [1.333] of the source. *)
Definition c1333 : double := of_decimal 1333 3.

Definition mul (x y : double) : double := SFmul prec emax x y.

(** [Math.round]: the integer nearest to the argument, the one towards
    plus infinity of two that are as near: the floor of [x + 1/2],
    taken on the exact value. *)
Definition Math_round (x : double) : jsnum :=
  match x with
  | S754_zero _ => Int 0
  | S754_infinity s => Infinity s
  | S754_nan => NaN
  | S754_finite s m e =>
      let sm := (if s then Z.neg m else Z.pos m) in
      match e with
      | Zneg d => let h := Z.pow 2 (Z.pos d - 1) in Int ((sm + h) / (2 * h))
      | _ => Int (sm * 2 ^ e)
      end
  end.

(** The value of a double that is integral, as [parseInt] returns
    them. *)
Definition integral (x : double) : jsnum :=
  match x with
  | S754_zero _ => Int 0
  | S754_infinity sg => Infinity sg
  | S754_nan => NaN
  | S754_finite sg m e =>
      let sm := (if sg then Z.neg m else Z.pos m) in
      match e with
      | Zneg d => Int (sm / 2 ^ Z.pos d)
      | _ => Int (sm * 2 ^ e)
      end
  end.

(** [parseInt] on a run of decimal digits (the only texts convert.js
    gives it, so that the radix is 10 and nothing is skipped): the
    double nearest to the integer read; NaN for the empty run. *)
Definition parseInt (s : jsstring) : jsnum :=
  let ds := (span is_digit s).1 in
  match ds with
  | [] => NaN
  | _ => integral (of_decimal (decimal_value ds) 0)
  end.

(** Truthiness of a Number: neither zero nor NaN. *)
Definition truthy (n : jsnum) : bool :=
  match n with
  | Int 0 => false
  | NaN => false
  | _ => true
  end.

Definition hex_digit (d : N) : char := if d <? 10 then 48 + d else 87 + d.

Fixpoint hex_of_uint (u : Hexadecimal.uint) : jsstring :=
  match u with
  | Hexadecimal.Nil => []
  | Hexadecimal.D0 r => hex_digit 0 :: hex_of_uint r
  | Hexadecimal.D1 r => hex_digit 1 :: hex_of_uint r
  | Hexadecimal.D2 r => hex_digit 2 :: hex_of_uint r
  | Hexadecimal.D3 r => hex_digit 3 :: hex_of_uint r
  | Hexadecimal.D4 r => hex_digit 4 :: hex_of_uint r
  | Hexadecimal.D5 r => hex_digit 5 :: hex_of_uint r
  | Hexadecimal.D6 r => hex_digit 6 :: hex_of_uint r
  | Hexadecimal.D7 r => hex_digit 7 :: hex_of_uint r
  | Hexadecimal.D8 r => hex_digit 8 :: hex_of_uint r
  | Hexadecimal.D9 r => hex_digit 9 :: hex_of_uint r
  | Hexadecimal.Da r => hex_digit 10 :: hex_of_uint r
  | Hexadecimal.Db r => hex_digit 11 :: hex_of_uint r
  | Hexadecimal.Dc r => hex_digit 12 :: hex_of_uint r
  | Hexadecimal.Dd r => hex_digit 13 :: hex_of_uint r
  | Hexadecimal.De r => hex_digit 14 :: hex_of_uint r
  | Hexadecimal.Df r => hex_digit 15 :: hex_of_uint r
  end.

Fixpoint dec_of_uint (u : Decimal.uint) : jsstring :=
  match u with
  | Decimal.Nil => []
  | Decimal.D0 r => 48 :: dec_of_uint r
  | Decimal.D1 r => 49 :: dec_of_uint r
  | Decimal.D2 r => 50 :: dec_of_uint r
  | Decimal.D3 r => 51 :: dec_of_uint r
  | Decimal.D4 r => 52 :: dec_of_uint r
  | Decimal.D5 r => 53 :: dec_of_uint r
  | Decimal.D6 r => 54 :: dec_of_uint r
  | Decimal.D7 r => 55 :: dec_of_uint r
  | Decimal.D8 r => 56 :: dec_of_uint r
  | Decimal.D9 r => 57 :: dec_of_uint r
  end.

Definition hex_of_N (n : N) : jsstring := hex_of_uint (N.to_hex_uint n).
Definition dec_of_N (n : N) : jsstring := dec_of_uint (N.to_uint n).

(** [n.toString(16)] for what [parseInt] returns. *)
Definition toString16 (n : jsnum) : jsstring :=
  match n with
  | Int z =>
      (if (z <? 0)%Z then str "-" else []) ++ hex_of_N (Z.abs_N z)
  | Infinity s => (if s then str "-" else []) ++ str "Infinity"
  | NaN => str "NaN"
  end.

(** [s.padStart(n, '0')] *)
Definition padStart0 (n : nat) (s : jsstring) : jsstring :=
  replicate (n - length s)%nat 48 ++ s.

End JsNumber.

Import JsNumber.

(** ** CSS helpers *)

Module Css.

(** [/^([\d.]+)unit$/i]: a run of digits and dots that is not empty,
    then the unit in either case, then the end of the text.  The run is
    the capture. *)
Definition match_number_unit (unit val : jsstring) : option jsstring :=
  let '(run, r) := span is_digdot val in
  match run with
  | [] => None
  | _ =>
      match strip_prefix eq_ci unit r with
      | Some [] => Some run
      | _ => None
      end
  end.

(** [parsePtPx]; [None] is [null]. *)
Definition parsePtPx (val : jsstring) : option jsnum :=
  match match_number_unit (str "pt") val with
  | Some run => Some (Math_round (mul (parseFloat run) c1333))
  | None =>
      match match_number_unit (str "px") val with
      | Some run => Some (Math_round (parseFloat run))
      | None => None
      end
  end.

(** [/^#[0-9a-f]{3,6}$/i] *)
Definition is_hex_color (val : jsstring) : bool :=
  match val with
  | c :: r =>
      let '(hs, rest) := span is_hex r in
      (c =? 35) && bool_decide (rest = [])
      && (3 <=? length hs)%nat && (length hs <=? 6)%nat
  | [] => false
  end.

(** [/^rgb\((\d+),\s*(\d+),\s*(\d+)\)$/i]: the three captures. *)
Definition match_rgb (val : jsstring)
  : option (jsstring * jsstring * jsstring) :=
  r0 ← strip_prefix eq_ci (str "rgb(") val;
  let '(c1, r1) := span is_digit r0 in
  if bool_decide (c1 = []) then None else
  r2 ← strip_prefix eq_ci (str ",") r1;
  let '(c2, r3) := span is_digit (trimStart r2) in
  if bool_decide (c2 = []) then None else
  r4 ← strip_prefix eq_ci (str ",") r3;
  let '(c3, r5) := span is_digit (trimStart r4) in
  if bool_decide (c3 = []) then None else
  match strip_prefix eq_ci (str ")") r5 with
  | Some [] => Some (c1, c2, c3)
  | _ => None
  end.

(** [n => parseInt(n).toString(16).padStart(2, '0')] *)
Definition hex_component (n : jsstring) : jsstring :=
  padStart0 2 (toString16 (parseInt n)).

(** [normColor]; [None] is [null]. *)
Definition normColor (val : jsstring) : option jsstring :=
  let val := trim val in
  if is_hex_color val then Some (toLowerCase val)
  else
    match match_rgb val with
    | Some (c1, c2, c3) =>
        Some (str "#" ++ hex_component c1 ++ hex_component c2 ++ hex_component c3)
    | None => None
    end.

(** The object [parseCssClass] builds.  [bold] and [italic] are only
    ever set to [true], so the boolean says whether the property is
    there; an optional field is [None] when the property is absent. *)
Record StyleRecord := {
  bold : bool;
  italic : bool;
  color : option jsstring;
  bgColor : option jsstring;
  align : option jsstring;
  fontSize : option jsnum;
  fontFamily : option jsstring;
  borderTop : option bool;
  borderBottom : option bool;
  borderLeft : option bool;
  borderRight : option bool
}.

#[global] Instance StyleRecord_eq_dec : EqDecision StyleRecord.
Proof. solve_decision. Defined.

(** [{}] *)
Definition no_style : StyleRecord :=
  {| bold := false; italic := false; color := None; bgColor := None;
     align := None; fontSize := None; fontFamily := None;
     borderTop := None; borderBottom := None; borderLeft := None;
     borderRight := None |}.

Definition set_bold (r : StyleRecord) : StyleRecord :=
  {| bold := true; italic := italic r; color := color r; bgColor := bgColor r;
     align := align r; fontSize := fontSize r; fontFamily := fontFamily r;
     borderTop := borderTop r; borderBottom := borderBottom r;
     borderLeft := borderLeft r; borderRight := borderRight r |}.
Definition set_italic (r : StyleRecord) : StyleRecord :=
  {| bold := bold r; italic := true; color := color r; bgColor := bgColor r;
     align := align r; fontSize := fontSize r; fontFamily := fontFamily r;
     borderTop := borderTop r; borderBottom := borderBottom r;
     borderLeft := borderLeft r; borderRight := borderRight r |}.
Definition set_color (c : jsstring) (r : StyleRecord) : StyleRecord :=
  {| bold := bold r; italic := italic r; color := Some c; bgColor := bgColor r;
     align := align r; fontSize := fontSize r; fontFamily := fontFamily r;
     borderTop := borderTop r; borderBottom := borderBottom r;
     borderLeft := borderLeft r; borderRight := borderRight r |}.
Definition set_bgColor (c : jsstring) (r : StyleRecord) : StyleRecord :=
  {| bold := bold r; italic := italic r; color := color r; bgColor := Some c;
     align := align r; fontSize := fontSize r; fontFamily := fontFamily r;
     borderTop := borderTop r; borderBottom := borderBottom r;
     borderLeft := borderLeft r; borderRight := borderRight r |}.
Definition set_align (a : jsstring) (r : StyleRecord) : StyleRecord :=
  {| bold := bold r; italic := italic r; color := color r; bgColor := bgColor r;
     align := Some a; fontSize := fontSize r; fontFamily := fontFamily r;
     borderTop := borderTop r; borderBottom := borderBottom r;
     borderLeft := borderLeft r; borderRight := borderRight r |}.
Definition set_fontSize (n : jsnum) (r : StyleRecord) : StyleRecord :=
  {| bold := bold r; italic := italic r; color := color r; bgColor := bgColor r;
     align := align r; fontSize := Some n; fontFamily := fontFamily r;
     borderTop := borderTop r; borderBottom := borderBottom r;
     borderLeft := borderLeft r; borderRight := borderRight r |}.
Definition set_fontFamily (f : option jsstring) (r : StyleRecord) : StyleRecord :=
  {| bold := bold r; italic := italic r; color := color r; bgColor := bgColor r;
     align := align r; fontSize := fontSize r; fontFamily := f;
     borderTop := borderTop r; borderBottom := borderBottom r;
     borderLeft := borderLeft r; borderRight := borderRight r |}.
Definition set_borderTop (b : bool) (r : StyleRecord) : StyleRecord :=
  {| bold := bold r; italic := italic r; color := color r; bgColor := bgColor r;
     align := align r; fontSize := fontSize r; fontFamily := fontFamily r;
     borderTop := Some b; borderBottom := borderBottom r;
     borderLeft := borderLeft r; borderRight := borderRight r |}.
Definition set_borderBottom (b : bool) (r : StyleRecord) : StyleRecord :=
  {| bold := bold r; italic := italic r; color := color r; bgColor := bgColor r;
     align := align r; fontSize := fontSize r; fontFamily := fontFamily r;
     borderTop := borderTop r; borderBottom := Some b;
     borderLeft := borderLeft r; borderRight := borderRight r |}.
Definition set_borderLeft (b : bool) (r : StyleRecord) : StyleRecord :=
  {| bold := bold r; italic := italic r; color := color r; bgColor := bgColor r;
     align := align r; fontSize := fontSize r; fontFamily := fontFamily r;
     borderTop := borderTop r; borderBottom := borderBottom r;
     borderLeft := Some b; borderRight := borderRight r |}.
Definition set_borderRight (b : bool) (r : StyleRecord) : StyleRecord :=
  {| bold := bold r; italic := italic r; color := color r; bgColor := bgColor r;
     align := align r; fontSize := fontSize r; fontFamily := fontFamily r;
     borderTop := borderTop r; borderBottom := borderBottom r;
     borderLeft := borderLeft r; borderRight := Some b |}.

(** [raw.indexOf(':')] and the two slices around it. *)
Definition cut_colon (raw : jsstring) : option (jsstring * jsstring) :=
  find_lit eq_cs (str ":") raw.

(** The family chosen from a [font-family] value. *)
Definition pick_family (val : jsstring) : option jsstring :=
  let families :=
    (λ f, trim (remove_chars (λ c, (c =? 34) || (c =? 39)) f)) <$> split 44 val in
  match List.find (λ f, negb (startsWith (toLowerCase f) (str "docs-"))) families with
  | Some (c :: f) => Some (c :: f)
  | _ => head families
  end.

(** What the loop of [parseCssClass] does with one declaration once it
    is cut: [key] is trimmed and lower-cased, [val] is trimmed. *)
Definition set_property (key val : jsstring) (result : StyleRecord) : StyleRecord :=
  let vl := toLowerCase val in
  if eqs key (str "font-weight") && eqs vl (str "bold") then set_bold result
  else if eqs key (str "font-style") && eqs vl (str "italic") then set_italic result
  else if eqs key (str "color") then
    match normColor val with
    | Some c => set_color c result
    | None => result
    end
  else if eqs key (str "background-color") then
    match normColor val with
    | Some c => set_bgColor c result
    | None => result
    end
  else if eqs key (str "text-align") then
    if eqs vl (str "left") || eqs vl (str "center") || eqs vl (str "right")
    then set_align vl result else result
  else if eqs key (str "font-size") then
    match parsePtPx val with
    | Some s => if truthy s then set_fontSize s result else result
    | None => result
    end
  else if eqs key (str "font-family") then
    set_fontFamily (pick_family val) result
  else if eqs key (str "border-top") then
    set_borderTop (negb (includes vl (str "none"))) result
  else if eqs key (str "border-bottom") then
    set_borderBottom (negb (includes vl (str "none"))) result
  else if eqs key (str "border-left") then
    set_borderLeft (negb (includes vl (str "none"))) result
  else if eqs key (str "border-right") then
    set_borderRight (negb (includes vl (str "none"))) result
  else result.

(** The body of the loop of [parseCssClass] for one declaration: a
    declaration without a colon is skipped. *)
Definition apply_decl (result : StyleRecord) (raw : jsstring) : StyleRecord :=
  match cut_colon raw with
  | None => result
  | Some (k, v) => set_property (toLowerCase (trim k)) (trim v) result
  end.

(** [parseCssClass] *)
Definition parseCssClass (decls : jsstring) : StyleRecord :=
  fold_left apply_decl (split 59 decls) no_style.

End Css.

Import Css.

(** ** HTML helpers: the regular expressions of the table walk *)

Module Html.

(** [html.replace(/<[^>]*>/g, '')]: at a [<] that some [>] follows, the
    text up to the first such [>] is dropped and the scan resumes
    after it; any other character is kept. *)
Fixpoint remove_tags_fuel (n : nat) (s : jsstring) : jsstring :=
  match n with
  | O => s
  | S n' =>
      match s with
      | [] => []
      | c :: r =>
          if c =? 60 then
            match (span (λ x, negb (x =? 62)) r).2 with
            | _ :: after => remove_tags_fuel n' after
            | [] => c :: remove_tags_fuel n' r
            end
          else c :: remove_tags_fuel n' r
      end
  end.
Definition remove_tags (s : jsstring) : jsstring :=
  remove_tags_fuel (length s) s.

(** [stripTags] *)
Definition stripTags (html : jsstring) : jsstring :=
  trim
    (replaceAll (str "&#39;") (str "'")
    (replaceAll (str "&quot;") [dq]
    (replaceAll (str "&gt;") (str ">")
    (replaceAll (str "&lt;") (str "<")
    (replaceAll (str "&amp;") (str "&")
    (replaceAll (str "&nbsp;") (str " ")
    (remove_tags html))))))).

(** The pattern of a row, a cell or a style block, tried at the start
    of the text: [<name], then a greedy run of characters other than
    [>] (first capture), then [>], then a lazy run of any characters
    (second capture), then [</name>]; letters in either case.  The
    result holds the two captures and the text after the match. *)
Definition match_element (name s : jsstring)
  : option (jsstring * jsstring * jsstring) :=
  r0 ← strip_prefix eq_ci (str "<" ++ name) s;
  match span (λ x, negb (x =? 62)) r0 with
  | (attrs, _ :: r1) =>
      '(content, rest) ← find_lit eq_ci (str "</" ++ name ++ str ">") r1;
      Some (attrs, content, rest)
  | (_, []) => None
  end.

(** One [exec]: the match at the first position that has one. *)
Fixpoint exec_element (name s : jsstring)
  : option (jsstring * jsstring * jsstring) :=
  match match_element name s with
  | Some m => Some m
  | None =>
      match s with
      | [] => None
      | _ :: r => exec_element name r
      end
  end.

(** The loop [while ((m = re.exec(s)) !== null)]: the captures of the
    successive matches, each search resuming where the last match
    ended. *)
Fixpoint elements_fuel (n : nat) (name s : jsstring)
  : list (jsstring * jsstring) :=
  match n with
  | O => []
  | S n' =>
      match exec_element name s with
      | None => []
      | Some (attrs, content, rest) => (attrs, content) :: elements_fuel n' name rest
      end
  end.
Definition elements (name s : jsstring) : list (jsstring * jsstring) :=
  elements_fuel (length s) name s.

(** The pattern of a style rule, tried at the start of the text:
    [.waffle], one or more [\s], a dot, one or more [\w] (the class
    name), any [\s], an opening brace, a greedy run of characters other
    than the closing brace (the declarations), the closing brace.  The
    result holds class name, declarations and the text after the
    match. *)
Definition match_rule (s : jsstring)
  : option (jsstring * jsstring * jsstring) :=
  r0 ← strip_prefix eq_cs (str ".waffle") s;
  let '(ws, r1) := span is_space r0 in
  if bool_decide (ws = []) then None else
  r2 ← strip_prefix eq_cs (str ".") r1;
  let '(name, r3) := span is_word r2 in
  if bool_decide (name = []) then None else
  r4 ← strip_prefix eq_cs (str "{") (trimStart r3);
  match span (λ x, negb (x =? 125)) r4 with
  | (decls, _ :: rest) => Some (name, decls, rest)
  | (_, []) => None
  end.

Fixpoint exec_rule (s : jsstring) : option (jsstring * jsstring * jsstring) :=
  match match_rule s with
  | Some m => Some m
  | None =>
      match s with
      | [] => None
      | _ :: r => exec_rule r
      end
  end.

Fixpoint rules_fuel (n : nat) (s : jsstring) : list (jsstring * jsstring) :=
  match n with
  | O => []
  | S n' =>
      match exec_rule s with
      | None => []
      | Some (name, decls, rest) => (name, decls) :: rules_fuel n' rest
      end
  end.
Definition rules (s : jsstring) : list (jsstring * jsstring) :=
  rules_fuel (length s) s.

(** The pattern of the table body, tried at the start of the text:
    [<tbody>], a lazy run of any characters (the capture), [</tbody>];
    letters in either case. *)
Definition match_tbody (s : jsstring) : option jsstring :=
  r0 ← strip_prefix eq_ci (str "<tbody>") s;
  '(content, _) ← find_lit eq_ci (str "</tbody>") r0;
  Some content.

(** [src.match] of that pattern: the capture of the match at the first
    position that has one, [None] when no position has. *)
Fixpoint tbodyMatch (s : jsstring) : option jsstring :=
  match match_tbody s with
  | Some m => Some m
  | None =>
      match s with
      | [] => None
      | _ :: r => tbodyMatch r
      end
  end.

Definition is_quote (c : char) : bool := (c =? 34) || (c =? 39).

(** The pattern of the class attribute, tried at the start of the
    text: [class=] in either case, a single or double quote, a greedy
    run of characters that are neither quote (the capture), a single or
    double quote. *)
Definition match_class (s : jsstring) : option jsstring :=
  r0 ← strip_prefix eq_ci (str "class=") s;
  match r0 with
  | q :: r1 =>
      if is_quote q then
        match span (λ x, negb (is_quote x)) r1 with
        | (v, _ :: _) => Some v
        | (_, []) => None
        end
      else None
  | [] => None
  end.

(** [attrs.match] of that pattern. *)
Fixpoint classMatch (s : jsstring) : option jsstring :=
  match match_class s with
  | Some m => Some m
  | None =>
      match s with
      | [] => None
      | _ :: r => classMatch r
      end
  end.

End Html.

Import Html.

(** ** The class map *)

Module StyleMap.

(** [styleMap] is an ordinary object, so besides the properties the
    loop gives it (its own properties, one per class name) it has a
    prototype: [Object.prototype] at first, and the style record last
    assigned to the class name [__proto__], whose assignment sets the
    prototype and creates no property. *)
Record t := {
  own : gmap (list N) StyleRecord;
  proto : option StyleRecord
}.

(** [{}] *)
Definition empty : t := {| own := ∅; proto := None |}.

(** [styleMap[name] = r] *)
Definition set (name : jsstring) (r : StyleRecord) (m : t) : t :=
  if eqs name (str "__proto__") then {| own := own m; proto := Some r |}
  else {| own := <[name := r]> (own m); proto := proto m |}.

(** What [styleMap[cls]] can evaluate to. *)
Inductive value :=
  | VUndefined
  | VStyle (r : StyleRecord)
  | VString (s : jsstring)
  | VNumber (n : jsnum)
  | VBoolean (b : bool)
  | VObject.   (* Object.prototype or one of its methods *)

Definition of_option {A} (f : A → value) (o : option A) : value :=
  match o with
  | Some a => f a
  | None => VUndefined
  end.

(** The properties of [Object.prototype] other than [__proto__]. *)
Definition object_prototype_names : list jsstring :=
  [ str "constructor"; str "hasOwnProperty"; str "isPrototypeOf";
    str "propertyIsEnumerable"; str "toLocaleString"; str "toString";
    str "valueOf"; str "__defineGetter__"; str "__defineSetter__";
    str "__lookupGetter__"; str "__lookupSetter__" ].

Definition object_prototype_get (name : jsstring) : value :=
  if bool_decide (name ∈ object_prototype_names) then VObject else VUndefined.

(** A property of a style record read by its name. *)
Definition record_get (r : StyleRecord) (name : jsstring) : value :=
  if eqs name (str "bold") then if bold r then VBoolean true else VUndefined
  else if eqs name (str "italic") then if italic r then VBoolean true else VUndefined
  else if eqs name (str "color") then of_option VString (color r)
  else if eqs name (str "bgColor") then of_option VString (bgColor r)
  else if eqs name (str "align") then of_option VString (align r)
  else if eqs name (str "fontSize") then of_option VNumber (fontSize r)
  else if eqs name (str "fontFamily") then of_option VString (fontFamily r)
  else if eqs name (str "borderTop") then of_option VBoolean (borderTop r)
  else if eqs name (str "borderBottom") then of_option VBoolean (borderBottom r)
  else if eqs name (str "borderLeft") then of_option VBoolean (borderLeft r)
  else if eqs name (str "borderRight") then of_option VBoolean (borderRight r)
  else VUndefined.

(** [styleMap[cls]]: the own property, else the prototype object for
    [__proto__], else the property found along the prototype chain. *)
Definition get (m : t) (cls : jsstring) : value :=
  match own m !! cls with
  | Some r => VStyle r
  | None =>
      if eqs cls (str "__proto__") then
        match proto m with
        | Some r => VStyle r
        | None => VObject
        end
      else
        match proto m with
        | Some r =>
            match record_get r cls with
            | VUndefined => object_prototype_get cls
            | v => v
            end
        | None => object_prototype_get cls
        end
  end.

(** [if (s)] *)
Definition truthy (v : value) : bool :=
  match v with
  | VUndefined => false
  | VStyle _ => true
  | VString s => negb (eqs s [])
  | VNumber n => JsNumber.truthy n
  | VBoolean b => b
  | VObject => true
  end.

(** The properties the cell loop reads from [s].  On a style record
    they are its fields.  A string has none of them but [bold], which
    is the method [String.prototype.bold]; numbers, booleans,
    [Object.prototype] and its methods have none. *)
Definition s_bold (v : value) : bool :=
  match v with
  | VStyle r => bold r
  | VString _ => true
  | _ => false
  end.
Definition s_italic (v : value) : bool :=
  match v with VStyle r => italic r | _ => false end.
Definition s_color (v : value) : option jsstring :=
  match v with VStyle r => color r | _ => None end.
Definition s_bgColor (v : value) : option jsstring :=
  match v with VStyle r => bgColor r | _ => None end.
Definition s_fontSize (v : value) : option jsnum :=
  match v with VStyle r => fontSize r | _ => None end.
Definition s_fontFamily (v : value) : option jsstring :=
  match v with VStyle r => fontFamily r | _ => None end.
Definition s_align (v : value) : option jsstring :=
  match v with VStyle r => align r | _ => None end.
Definition s_borderTop (v : value) : option bool :=
  match v with VStyle r => borderTop r | _ => None end.
Definition s_borderBottom (v : value) : option bool :=
  match v with VStyle r => borderBottom r | _ => None end.
Definition s_borderLeft (v : value) : option bool :=
  match v with VStyle r => borderLeft r | _ => None end.
Definition s_borderRight (v : value) : option bool :=
  match v with VStyle r => borderRight r | _ => None end.

End StyleMap.

(** ** The conversion *)

Module Convert.

(** The object [fmt]; its properties are created in the order of the
    fields. *)
Record CellFormat := {
  f_bold : bool;
  f_italic : bool;
  f_color : option jsstring;
  f_bgColor : option jsstring;
  f_fontSize : option jsnum;
  f_fontFamily : option jsstring;
  f_align : option jsstring
}.

(** The border object of a cell: its properties [top], [bottom],
    [left] and [right]. *)
Record CellBorders := {
  b_top : bool;
  b_bottom : bool;
  b_left : bool;
  b_right : bool
}.

#[global] Instance CellFormat_eq_dec : EqDecision CellFormat.
Proof. solve_decision. Defined.
#[global] Instance CellBorders_eq_dec : EqDecision CellBorders.
Proof. solve_decision. Defined.

(** The object given to [JSON.stringify]. *)
Record Document := {
  data : list (list (list N));
  formats : gmap nat (gmap nat CellFormat);
  borders : gmap nat (gmap nat CellBorders)
}.

(** A string that is there and not empty: [x &&] on an optional
    string. *)
Definition nonempty (o : option jsstring) : option jsstring :=
  match o with
  | Some (c :: s) => Some (c :: s)
  | _ => None
  end.

(** A string that is there, not empty and not the given default. *)
Definition notable (dflt : jsstring) (o : option jsstring) : option jsstring :=
  match nonempty o with
  | Some s => if eqs s dflt then None else Some s
  | None => None
  end.

Definition truthy_num (o : option jsnum) : option jsnum :=
  match o with
  | Some n => if JsNumber.truthy n then Some n else None
  | None => None
  end.

(** The object [fmt] built from [s]. *)
Definition make_format (s : StyleMap.value) : CellFormat :=
  {| f_bold := StyleMap.s_bold s;
     f_italic := StyleMap.s_italic s;
     f_color := notable (str "#000000") (StyleMap.s_color s);
     f_bgColor := notable (str "#ffffff") (StyleMap.s_bgColor s);
     f_fontSize := truthy_num (StyleMap.s_fontSize s);
     f_fontFamily := nonempty (StyleMap.s_fontFamily s);
     f_align := nonempty (StyleMap.s_align s) |}.

(** [Object.keys(fmt).length] *)
Definition format_size (f : CellFormat) : nat :=
  (if f_bold f then 1 else 0) + (if f_italic f then 1 else 0)
  + length (option_list (f_color f)) + length (option_list (f_bgColor f))
  + length (option_list (f_fontSize f)) + length (option_list (f_fontFamily f))
  + length (option_list (f_align f)).

(** Truthiness and [!!] of a border flag. *)
Definition flag (o : option bool) : bool := default false o.

Definition make_borders (s : StyleMap.value) : CellBorders :=
  {| b_top := flag (StyleMap.s_borderTop s);
     b_bottom := flag (StyleMap.s_borderBottom s);
     b_left := flag (StyleMap.s_borderLeft s);
     b_right := flag (StyleMap.s_borderRight s) |}.

Definition any_border (b : CellBorders) : bool :=
  b_top b || b_bottom b || b_left b || b_right b.

(** [if (!m[row]) m[row] = {}; m[row][col] = v] *)
Definition put {A} (row col : nat) (v : A) (m : gmap nat (gmap nat A))
  : gmap nat (gmap nat A) :=
  <[row := <[col := v]> (default ∅ (m !! row))]> m.

(** The class name of a cell. *)
Definition cell_class (attrs : jsstring) : jsstring :=
  match classMatch attrs with
  | Some v => trim v
  | None => []
  end.

(** The state of the loops: the rows collected so far and the two
    sparse maps. *)
Record Acc := {
  aoa : list (list (list N));
  fmts : gmap nat (gmap nat CellFormat);
  brds : gmap nat (gmap nat CellBorders)
}.

(** The state of the loop over the cells of a row. *)
Record RowAcc := {
  colIdx : nat;
  rowData : list (list N);
  rfmts : gmap nat (gmap nat CellFormat);
  rbrds : gmap nat (gmap nat CellBorders)
}.

(** The body of the loop over the cells. *)
Definition cell_step (styleMap : StyleMap.t) (rowIdx : nat)
    (st : RowAcc) (cell : list N * list N) : RowAcc :=
  let '(attrs, inner) := cell in
  let content := stripTags inner in
  let s := StyleMap.get styleMap (cell_class attrs) in
  let fmt := make_format s in
  let brd := make_borders s in
  {| colIdx := S (colIdx st);
     rowData := rowData st ++ [content];
     rfmts := if StyleMap.truthy s && negb (format_size fmt =? 0)%nat
              then put rowIdx (colIdx st) fmt (rfmts st) else rfmts st;
     rbrds := if StyleMap.truthy s && any_border brd
              then put rowIdx (colIdx st) brd (rbrds st) else rbrds st |}.

(** The body of the loop over the rows. *)
Definition row_step (styleMap : StyleMap.t) (acc : Acc)
    (row : list N * list N) : Acc :=
  let rowIdx := length (aoa acc) in
  let st := fold_left (cell_step styleMap rowIdx) (elements (str "td") row.2)
              {| colIdx := 0; rowData := [];
                 rfmts := fmts acc; rbrds := brds acc |} in
  {| aoa := aoa acc ++ [rowData st]; fmts := rfmts st; brds := rbrds st |}.

(** Step 1: the class map, from every rule of every style block. *)
Definition buildStyleMap (src : jsstring) : StyleMap.t :=
  fold_left
    (λ m block,
       fold_left (λ m rule, StyleMap.set rule.1 (parseCssClass rule.2) m)
                 (rules block.2) m)
    (elements (str "style") src) StyleMap.empty.

(** Step 3: the rows. *)
Definition parseRows (styleMap : StyleMap.t) (tbodyHtml : jsstring) : Acc :=
  fold_left (row_step styleMap) (elements (str "tr") tbodyHtml)
    {| aoa := []; fmts := ∅; brds := ∅ |}.

(** [v => v === ''] on every cell of a row. *)
Definition all_empty (row : list (list N)) : bool :=
  forallb (λ v, eqs v []) row.

(** Step 4: the loop that moves [lastRow] down; the argument and the
    result are [lastRow + 1].  The index stays inside the array. *)
Fixpoint trim_count (rows : list (list (list N))) (n : nat) : nat :=
  match n with
  | O => O
  | S k =>
      match rows !! k with
      | Some row => if all_empty row then trim_count rows k else n
      | None => n
      end
  end.

Definition trimRows (rows : list (list (list N))) : list (list (list N)) :=
  take (trim_count rows (length rows)) rows.

(** The only exception of the conversion. *)
Inductive Error := NoTbody.   (* Error('No <tbody> found') *)

(** The object [convertHtml] serialises, or the exception it throws. *)
Definition convertDocument (src : jsstring) : Error + Document :=
  let styleMap := buildStyleMap src in
  match tbodyMatch src with
  | None => inl NoTbody
  | Some tbodyHtml =>
      let acc := parseRows styleMap tbodyHtml in
      inr {| data := trimRows (aoa acc); formats := fmts acc; borders := brds acc |}
  end.

(** *** Serialisation *)

(** A JSON value as [JSON.stringify] walks it: the properties of an
    object in the order of enumeration. *)
Inductive json :=
  | JNull
  | JBool (b : bool)
  | JNum (n : jsnum)
  | JStr (s : list N)
  | JArr (l : list json)
  | JObj (l : list (list N * json)).

Definition hex4 (c : char) : jsstring :=
  [hex_digit (c / 4096); hex_digit ((c / 256) mod 16);
   hex_digit ((c / 16) mod 16); hex_digit (c mod 16)].

Definition is_high_surrogate (c : char) : bool := (55296 <=? c) && (c <=? 56319).
Definition is_low_surrogate (c : char) : bool := (56320 <=? c) && (c <=? 57343).

Definition escape_unit (c : char) : jsstring :=
  if c =? 8 then str "\b"
  else if c =? 9 then str "\t"
  else if c =? 10 then str "\n"
  else if c =? 12 then str "\f"
  else if c =? 13 then str "\r"
  else if c =? 34 then [92; 34]
  else if c =? 92 then [92; 92]
  else if (c <? 32) || is_high_surrogate c || is_low_surrogate c
       then str "\u" ++ hex4 c
  else [c].

(** The characters of a quoted JSON string: control characters, the
    quote, the backslash and surrogates that are not paired are
    escaped. *)
Fixpoint escape (s : jsstring) : jsstring :=
  match s with
  | [] => []
  | c :: r =>
      match r with
      | d :: r' =>
          if is_high_surrogate c && is_low_surrogate d
          then c :: d :: escape r'
          else escape_unit c ++ escape r
      | [] => escape_unit c
      end
  end.

Definition quote (s : jsstring) : jsstring := [dq] ++ escape s ++ [dq].

(** The decimal digits of an integral double of magnitude [10^21] or
    more, in the exponent notation of [Number::toString]: the least
    number [k] of digits [s] such that [s * 10^(nd - k)] reads back as
    the same double, the nearest such [s] when there are two.  (The
    power of ten above the value, which has one digit and one more
    place, is tried apart, in [exponent_text].) *)
Fixpoint shortest_digits (fuel k : nat) (z : Z) (nd : nat) : Z * nat :=
  match fuel with
  | O => (z, nd)
  | S fuel' =>
      let scale := (10 ^ Z.of_nat (nd - k))%Z in
      let lo := (z / scale)%Z in
      let hi := (lo + 1)%Z in
      let x := of_decimal z 0 in
      let ok s := bool_decide (of_decimal (s * scale) 0 = x)
                  && (s <? 10 ^ Z.of_nat k)%Z in
      let dlo := (z - lo * scale)%Z in
      let dhi := (hi * scale - z)%Z in
      match ok lo, ok hi with
      | true, true =>
          if (dlo <? dhi)%Z then (lo, k)
          else if (dhi <? dlo)%Z then (hi, k)
          else if Z.even lo then (lo, k) else (hi, k)
      | true, false => (lo, k)
      | false, true => (hi, k)
      | false, false => shortest_digits fuel' (S k) z nd
      end
  end.

Definition exponent_text (z : Z) : jsstring :=
  let nd := length (dec_of_N (Z.to_N z)) in
  if bool_decide (of_decimal (10 ^ Z.of_nat nd) 0 = of_decimal z 0)
  then str "1e+" ++ dec_of_N (N.of_nat nd)
  else
    let '(s, k) := shortest_digits 21 1 z nd in
    match dec_of_N (Z.to_N s) with
    | d :: ds =>
        [d] ++ (if bool_decide (ds = []) then [] else str "." ++ ds)
        ++ str "e+" ++ dec_of_N (N.of_nat (nd - 1))
    | [] => []
    end.

(** [Number::toString] on an integral Number. *)
Definition integer_text (z : Z) : jsstring :=
  (if (z <? 0)%Z then str "-" else [])
  ++ (if (Z.abs z <? 10 ^ 21)%Z then dec_of_N (Z.abs_N z)
      else exponent_text (Z.abs z)).

(** A Number in JSON: [null] unless it is finite. *)
Definition number_text (n : jsnum) : jsstring :=
  match n with
  | Int z => integer_text z
  | _ => str "null"
  end.

Fixpoint join (sep : jsstring) (l : list jsstring) : jsstring :=
  match l with
  | [] => []
  | [x] => x
  | x :: r => x ++ sep ++ join sep r
  end.

(** [JSON.stringify] without indentation. *)
Fixpoint stringify (j : json) : jsstring :=
  match j with
  | JNull => str "null"
  | JBool b => if b then str "true" else str "false"
  | JNum n => number_text n
  | JStr s => quote s
  | JArr l => str "[" ++ join (str ",") (map stringify l) ++ str "]"
  | JObj l =>
      str "{"
      ++ join (str ",") (map (λ kv, quote kv.1 ++ str ":" ++ stringify kv.2) l)
      ++ str "}"
  end.

Definition opt_entry {A} (key : string) (f : A → json) (o : option A)
  : list (list N * json) :=
  match o with
  | Some a => [(str key, f a)]
  | None => []
  end.

Definition json_of_format (f : CellFormat) : json :=
  JObj ((if f_bold f then [(str "bold", JBool true)] else [])
        ++ (if f_italic f then [(str "italic", JBool true)] else [])
        ++ opt_entry "color" JStr (f_color f)
        ++ opt_entry "bgColor" JStr (f_bgColor f)
        ++ opt_entry "fontSize" JNum (f_fontSize f)
        ++ opt_entry "fontFamily" JStr (f_fontFamily f)
        ++ opt_entry "align" JStr (f_align f)).

Definition json_of_borders (b : CellBorders) : json :=
  JObj [(str "top", JBool (b_top b)); (str "bottom", JBool (b_bottom b));
        (str "left", JBool (b_left b)); (str "right", JBool (b_right b))].

Definition key_le {A} (a b : nat * A) : Prop := (a.1 ≤ b.1)%nat.

#[global] Instance key_le_dec {A} : RelDecision (@key_le A).
Proof. intros a b. unfold key_le. apply _. Defined.

(** The properties of an object whose keys are indices are enumerated
    in ascending order of the index. *)
Definition sorted_entries {A} (m : gmap nat A) : list (nat * A) :=
  merge_sort key_le (map_to_list m).

Definition index_entries {A} (f : A → json) (m : gmap nat A)
  : list (list N * json) :=
  (λ kv, (dec_of_N (N.of_nat kv.1), f kv.2)) <$> sorted_entries m.

Definition json_of_sparse {A} (f : A → json) (m : gmap nat (gmap nat A)) : json :=
  JObj (index_entries (λ cols, JObj (index_entries f cols)) m).

Definition json_of_document (d : Document) : json :=
  JObj [(str "version", JNum (Int 1));
        (str "data", JArr ((λ row, JArr (JStr <$> row)) <$> data d));
        (str "formats", json_of_sparse json_of_format (formats d));
        (str "borders", json_of_sparse json_of_borders (borders d))].

(** [convertHtml], on the text read from the file: the serialised
    document, or the exception. *)
Definition convertHtml (src : jsstring) : Error + list N :=
  match convertDocument src with
  | inl e => inl e
  | inr d => inr (stringify (json_of_document d))
  end.

(** The number of bordered cells and the line [convertHtml] logs. *)
Definition borderCount (b : gmap nat (gmap nat CellBorders)) : nat :=
  fold_left (λ n kv, (n + size kv.2)%nat) (sorted_entries b) 0%nat.

Definition log_line (d : Document) : jsstring :=
  str "  rows: " ++ dec_of_N (N.of_nat (length (data d)))
  ++ str ", bordered cells: " ++ dec_of_N (N.of_nat (borderCount (borders d))).

End Convert.

Import Convert.

(** ** Properties the specification states *)

Module Spec.

(** Every row index of a sparse map is below [n]. *)
Definition rows_below {A} (m : gmap nat (gmap nat A)) (n : nat) : Prop :=
  ∀ r, is_Some (m !! r) → (r < n)%nat.

(** The maps of a document have no entry at or beyond the number of
    rows of its data. *)
Definition keys_within_data (d : Document) : Prop :=
  rows_below (formats d) (length (data d))
  ∧ rows_below (borders d) (length (data d)).



(** The literal occurs nowhere in the text. *)
Definition absent (eqc : N → N → bool) (lit s : list N) : Prop :=
  ∀ a o b, s = a ++ o ++ b → ¬ agrees eqc lit o.

(** A class name as the pattern of a style rule captures it. *)
Definition class_name (k : list N) : Prop :=
  k ≠ [] ∧ Forall (λ c, is_word c = true) k.

(** A style record that [parseCssClass] returned. *)
Definition parsed (r : StyleRecord) : Prop := ∃ decls, r = parseCssClass decls.

(** What holds of every style record [parseCssClass] returns: a colour
    is not the empty string, an alignment is one of the three words, a
    font size is a truthy number. *)
Definition well_formed (r : StyleRecord) : Prop :=
  (∀ c, color r = Some c → c ≠ [])
  ∧ (∀ c, bgColor r = Some c → c ≠ [])
  ∧ (∀ a, align r = Some a → a ∈ [str "left"; str "center"; str "right"])
  ∧ (∀ n, fontSize r = Some n → truthy n = true).

(** A decimal numeral: digits, or digits and a dot and digits, with a
    digit on one side of the dot at least. *)
Definition is_decimal_numeral (s : list N) : bool :=
  let '(ip, r) := span is_digit s in
  match r with
  | [] => negb (eqs ip [])
  | 46 :: fp => forallb is_digit fp && negb (eqs ip [] && eqs fp [])
  | _ => false
  end.

(** The two hexadecimal digits of a byte. *)
Definition hex_byte (v : N) : list N := [hex_digit (v / 16); hex_digit (v mod 16)].

(** The number a text of hexadecimal digits in lower case denotes. *)
Definition hex_digit_value (c : N) : N := if is_digit c then c - 48 else c - 87.
Definition hex_value (s : list N) : N :=
  fold_left (λ acc c, 16 * acc + hex_digit_value c) s 0.

(** A lower-case hexadecimal digit. *)
Definition is_lower_hex_digit (c : N) : bool :=
  is_digit c || ((97 <=? c) && (c <=? 102)).

(** The format object without any property. *)
Definition no_format : CellFormat :=
  {| f_bold := false; f_italic := false; f_color := None; f_bgColor := None;
     f_fontSize := None; f_fontFamily := None; f_align := None |}.

(** The inclusion rule as the specification words it: the colours
    unless they are the defaults, the other properties whenever they
    are there. *)
Definition stated_format (r : StyleRecord) : CellFormat :=
  {| f_bold := bold r;
     f_italic := italic r;
     f_color := if decide (color r = Some (str "#000000")) then None else color r;
     f_bgColor := if decide (bgColor r = Some (str "#ffffff")) then None else bgColor r;
     f_fontSize := fontSize r;
     f_fontFamily := fontFamily r;
     f_align := align r |}.

(** The same rule, except that a font family that is the empty string
    is left out. *)
Definition notable_format (r : StyleRecord) : CellFormat :=
  {| f_bold := bold r;
     f_italic := italic r;
     f_color := if decide (color r = Some (str "#000000")) then None else color r;
     f_bgColor := if decide (bgColor r = Some (str "#ffffff")) then None else bgColor r;
     f_fontSize := fontSize r;
     f_fontFamily := if decide (fontFamily r = Some []) then None else fontFamily r;
     f_align := align r |}.


(** A class map the loop over the style rules can build. *)
Definition built (m : StyleMap.t) : Prop :=
  (∀ k r, StyleMap.own m !! k = Some r → class_name k ∧ parsed r)
  ∧ (∀ r, StyleMap.proto m = Some r → parsed r).

End Spec.

Import Spec.

(** ** Sample documents *)

Module Samples.

(** One styled class; the second row has a single, empty, styled
    cell. *)
Definition trailing_styled : list N :=
  str "<style>.waffle .s1{font-weight:bold;border-top:1px solid #000}</style><table><tbody><tr><td class='s1'>x</td></tr><tr><td class='s1'></td></tr></tbody></table>".

(** The document of the end-to-end example of the specification, with
    a header cell in front of the row. *)
Definition hi_there : list N :=
  str "<style>.waffle .s1{font-weight:bold;color:#ff0000}</style><table><tbody><tr><th>1</th><td class='s1'>Hi</td><td>There</td></tr></tbody></table>".

Definition bold_format : CellFormat :=
  {| f_bold := true; f_italic := false; f_color := None; f_bgColor := None;
     f_fontSize := None; f_fontFamily := None; f_align := None |}.

Definition top_border : CellBorders :=
  {| b_top := true; b_bottom := false; b_left := false; b_right := false |}.

(** What the conversion makes of them. *)
Definition trailing_styled_doc : Document :=
  {| data := [[str "x"]];
     formats := {[ 0%nat := {[ 0%nat := bold_format ]};
                   1%nat := {[ 0%nat := bold_format ]} ]};
     borders := {[ 0%nat := {[ 0%nat := top_border ]};
                   1%nat := {[ 0%nat := top_border ]} ]} |}.

Definition hi_there_doc : Document :=
  {| data := [[str "Hi"; str "There"]];
     formats :=
       {[ 0%nat := {[ 0%nat :=
            {| f_bold := true; f_italic := false;
               f_color := Some (str "#ff0000"); f_bgColor := None;
               f_fontSize := None; f_fontFamily := None; f_align := None |} ]} ]};
     borders := ∅ |}.

(** A class whose font family is the empty string. *)
Definition empty_family : list N :=
  str "<style>.waffle .s1{font-weight:bold;font-family:}</style><table><tbody><tr><td class='s1'>x</td></tr></tbody></table>".

Definition empty_family_style : StyleRecord :=
  set_fontFamily (Some []) (set_bold no_style).

Definition empty_family_doc : Document :=
  {| data := [[str "x"]];
     formats := {[ 0%nat := {[ 0%nat := bold_format ]} ]};
     borders := ∅ |}.

(** Two classes, and a cell that names both. *)
Definition two_classes : list N :=
  str "<style>.waffle .s1{font-weight:bold}.waffle .s2{font-style:italic}</style><table><tbody><tr><td class='s1 s2'>x</td></tr></tbody></table>".

Definition two_classes_doc : Document :=
  {| data := [[str "x"]]; formats := ∅; borders := ∅ |}.

(** A rule for the class name [__proto__], and cells whose classes are
    names of properties along the prototype chain of the class map. *)
Definition prototype_names : list N :=
  str "<style>.waffle .__proto__{color:#ff0000;font-style:italic}</style><table><tbody><tr><td class='constructor'>a</td><td class='__proto__'>b</td><td class='color'>c</td><td class='italic'>d</td></tr></tbody></table>".

(** A table body whose start tag has an attribute. *)
Definition attributed_tbody : list N :=
  str "<table>" ++ str "<tbody" ++ str " class='x'" ++ str ">"
  ++ str "<tr><td>a</td></tr></tbody></table>".

End Samples.

(** * The table walk, cell by cell *)

Module Table.

(** The entry of a sparse map at a row and a column: [m[row][col]]
    where [m[row]] is there. *)
Definition entry {A} (m : gmap nat (gmap nat A)) (row col : nat) : option A :=
  m !! row ≫= (.!! col).

(** The cell the two scans reach at a row and a column: the captures
    of the [col]-th cell match inside the [row]-th row match. *)
Definition cell_at (tbodyHtml : jsstring) (row col : nat)
  : option (jsstring * jsstring) :=
  r ← elements (str "tr") tbodyHtml !! row;
  elements (str "td") r.2 !! col.

(** The texts of the cells of every row match. *)
Definition cell_texts (tbodyHtml : jsstring) : list (list jsstring) :=
  map (λ r, map (λ cell, stripTags cell.2) (elements (str "td") r.2))
      (elements (str "tr") tbodyHtml).

(** What the body of the cell loop stores for a cell in [formats]:
    the object [fmt] when the class of the cell has a truthy value in
    the class map and [fmt] has a property. *)
Definition cell_format (styleMap : StyleMap.t) (cell : jsstring * jsstring)
  : option CellFormat :=
  let s := StyleMap.get styleMap (cell_class cell.1) in
  if StyleMap.truthy s && negb (format_size (make_format s) =? 0)%nat
  then Some (make_format s) else None.

(** What it stores for a cell in [borders]. *)
Definition cell_borders (styleMap : StyleMap.t) (cell : jsstring * jsstring)
  : option CellBorders :=
  let s := StyleMap.get styleMap (cell_class cell.1) in
  if StyleMap.truthy s && any_border (make_borders s)
  then Some (make_borders s) else None.

(** No row object of a sparse map is empty. *)
Definition rows_inhabited {A} (m : gmap nat (gmap nat A)) : Prop :=
  ∀ r cols, m !! r = Some cols → cols ≠ ∅.

End Table.

Import Table.

(** * The rules of a page *)

Module Rules.

(** Every rule the two nested scans of step 1 reach, in the order in
    which the loop assigns them: block after block, and inside a
    block rule after rule. *)
Definition all_rules (src : jsstring) : list (jsstring * jsstring) :=
  elements (str "style") src ≫= λ block, rules block.2.

(** The declarations of the last rule that names a class. *)
Definition class_decls (name : jsstring) (rs : list (jsstring * jsstring))
  : option jsstring :=
  snd <$> last (filter (λ rule, rule.1 = name) rs).

End Rules.

Import Rules.

(** * Declarations *)

Module Decls.

(** Every property of the first style record is a property of the
    second: a flag that is set stays set, a property that is there
    is there (its value may differ). *)
Definition keeps (r r' : StyleRecord) : Prop :=
  (bold r = true → bold r' = true)
  ∧ (italic r = true → italic r' = true)
  ∧ (is_Some (color r) → is_Some (color r'))
  ∧ (is_Some (bgColor r) → is_Some (bgColor r'))
  ∧ (is_Some (align r) → is_Some (align r'))
  ∧ (is_Some (fontSize r) → is_Some (fontSize r'))
  ∧ (is_Some (fontFamily r) → is_Some (fontFamily r'))
  ∧ (is_Some (borderTop r) → is_Some (borderTop r'))
  ∧ (is_Some (borderBottom r) → is_Some (borderBottom r'))
  ∧ (is_Some (borderLeft r) → is_Some (borderLeft r'))
  ∧ (is_Some (borderRight r) → is_Some (borderRight r')).

(** The array [families] of the [font-family] branch: the pieces of
    the value between commas, without quotes, trimmed. *)
Definition families (val : jsstring) : list jsstring :=
  (λ f, trim (remove_chars (λ c, (c =? 34) || (c =? 39)) f)) <$> split 44 val.

(** The test of [families.find], negated: the name starts with
    [docs-], letters in either case. *)
Definition generated (f : jsstring) : bool :=
  startsWith (toLowerCase f) (str "docs-").

(** A lower-case hexadecimal digit. *)
Definition is_lower_hex (c : char) : bool :=
  is_digit c || ((97 <=? c) && (c <=? 102)).

(** A Number whose sign bit is clear, or NaN. *)
Definition unsigned (x : spec_float) : Prop :=
  match x with
  | S754_zero s | S754_infinity s | S754_finite s _ _ => s = false
  | S754_nan => True
  end.

(** What [Math.round] and [parseInt] give for such a Number. *)
Definition unsigned_num (n : jsnum) : Prop :=
  n = NaN ∨ n = Infinity false ∨ ∃ z, n = Int z ∧ (0 ≤ z)%Z.

(** A Number a style record can hold as a font size: a positive
    integer or the positive infinity. *)
Definition positive_num (n : jsnum) : Prop :=
  n = Infinity false ∨ ∃ z, n = Int z ∧ (0 < z)%Z.

End Decls.

Import Decls.

(** * The batch *)

(** The script below [convertHtml]: every HTML file of the folder of
    the script is converted into a [.wsheet] file of the data folder
    and deleted, and the index of the data folder is written anew.

    The two folders are finite maps from names to what is there.  A
    file is held as the text [readFileSync] decodes from it and
    [writeFileSync] encodes into it.  Reading a name that is no file
    throws, and so does writing to a name that is a folder; these
    are the failures of the file system that are embedded, and the
    data folder is taken to exist.  The order in which [readdirSync]
    lists a folder and the order [sort] gives with [localeCompare]
    are those of the platform: they are arguments of [main].  The
    lines written to the console are not part of the state. *)

Module Batch.

Inductive node :=
  | File (text : jsstring)
  | Folder.

Record FileSystem := {
  dir : gmap jsstring node;        (* DIR *)
  data_dir : gmap jsstring node    (* DATA_DIR *)
}.

(** The pattern of the HTML files, tried at the start of the text: a
    dot, [html] or else [htm], the end of the text; letters in either
    case. *)
Definition match_html (s : jsstring) : bool :=
  match strip_prefix eq_ci (str ".html") s with
  | Some [] => true
  | _ =>
      match strip_prefix eq_ci (str ".htm") s with
      | Some [] => true
      | _ => false
      end
  end.

(** The text before the first position at which that pattern
    matches. *)
Fixpoint html_stem (f : jsstring) : option jsstring :=
  if match_html f then Some []
  else match f with
       | [] => None
       | c :: r => (c ::.) <$> html_stem r
       end.

(** [/\.(html|htm)$/i.test(f)] *)
Definition is_html (f : jsstring) : bool :=
  match html_stem f with Some _ => true | None => false end.

(** [file.replace(/\.(html|htm)$/i, '.wsheet')] *)
Definition outName (file : jsstring) : jsstring :=
  match html_stem file with
  | Some stem => stem ++ str ".wsheet"
  | None => file
  end.

(** [/\.wsheet$/i.test(f)] *)
Fixpoint is_wsheet (f : jsstring) : bool :=
  match strip_prefix eq_ci (str ".wsheet") f with
  | Some [] => true
  | _ =>
      match f with
      | [] => false
      | _ :: r => is_wsheet r
      end
  end.

(** The file system and the two counters. *)
Record State := {
  fs : FileSystem;
  ok : nat;
  fail : nat
}.

(** The body of the loop over the files: the [try] block, and the
    [catch] block when one of its three calls throws. *)
Definition convert_file (st : State) (file : jsstring) : State :=
  let caught := {| fs := fs st; ok := ok st; fail := S (fail st) |} in
  match dir (fs st) !! file with
  | Some (File text) =>
      match convertHtml text with
      | inr json =>
          match data_dir (fs st) !! outName file with
          | Some Folder => caught
          | _ =>
              {| fs := {| dir := delete file (dir (fs st));
                          data_dir := <[outName file := File json]>
                                        (data_dir (fs st)) |};
                 ok := S (ok st);
                 fail := fail st |}
          end
      | inl _ => caught
      end
  | _ => caught
  end.

(** [JSON.stringify(names, null, 2) + '\n'] for an array of strings. *)
Definition index_text (names : list jsstring) : jsstring :=
  match names with
  | [] => str "[]"
  | _ => str "[" ++ [10] ++ str "  "
         ++ join (str "," ++ [10] ++ str "  ") (quote <$> names)
         ++ [10] ++ str "]"
  end ++ [10].

(** How the script ends: at [process.exit(0)], at its last line, or
    with the exception of the last [writeFileSync]. *)
Inductive Ending := Exited | Finished | Thrown.

Definition index_name : jsstring := str "index.json".

(** [files]: the names of the listing the pattern accepts, in the
    order of the listing. *)
Definition html_files (readdir : gmap jsstring node → list jsstring)
    (fs0 : FileSystem) : list jsstring :=
  List.filter is_html (readdir (dir fs0)).

(** The state before the loop, and after it. *)
Definition start (fs0 : FileSystem) : State :=
  {| fs := fs0; ok := 0; fail := 0 |}.

Definition loop (readdir : gmap jsstring node → list jsstring)
    (fs0 : FileSystem) : State :=
  fold_left convert_file (html_files readdir fs0) (start fs0).

(** The script from [const files] on. *)
Definition main (readdir : gmap jsstring node → list jsstring)
    (sort : list jsstring → list jsstring) (fs0 : FileSystem)
  : Ending * State :=
  match html_files readdir fs0 with
  | [] => (Exited, start fs0)
  | _ =>
      let st := loop readdir fs0 in
      let allWsheets :=
        sort (List.filter is_wsheet (readdir (data_dir (fs st)))) in
      match data_dir (fs st) !! index_name with
      | Some Folder => (Thrown, st)
      | _ =>
          (Finished,
           {| fs := {| dir := dir (fs st);
                       data_dir := <[index_name := File (index_text allWsheets)]>
                                     (data_dir (fs st)) |};
              ok := ok st;
              fail := fail st |})
      end
  end.

End Batch.

Import Batch.

(** ** A folder to run the batch on *)

Module BatchSamples.

(** A listing of a folder: its names, in the order of the map. *)
Definition listing (m : gmap jsstring node) : list jsstring :=
  (map_to_list m).*1.

(** Two HTML files, the second without a table body, and the script
    itself; a data folder with one document. *)
Definition folder : FileSystem :=
  {| dir := {[ str "a.html" := File Samples.hi_there;
               str "b.HTM" := File (str "<table></table>");
               str "convert.js" := File (str "'use strict';") ]};
     data_dir := {[ str "old.wsheet" := File (str "{}") ]} |}.

End BatchSamples.

(** * Verification *)



(** ** Facts about the string primitives *)

(** Comparisons of code units as propositions. *)
Ltac char_props H :=
  repeat first
    [ rewrite orb_true_iff in H | rewrite andb_true_iff in H
    | rewrite orb_false_iff in H | rewrite andb_false_iff in H
    | rewrite negb_true_iff in H | rewrite negb_false_iff in H
    | rewrite N.leb_le in H | rewrite N.eqb_eq in H | rewrite N.ltb_lt in H
    | rewrite N.leb_gt in H | rewrite N.eqb_neq in H | rewrite N.ltb_ge in H ].

(** Case analysis on the comparisons of code units in the goal. *)
Ltac char_cases :=
  repeat match goal with
    | |- context [N.leb ?a ?b] => destruct (N.leb_spec a b)
    | |- context [N.ltb ?a ?b] => destruct (N.ltb_spec a b)
    end;
  cbn [andb orb negb];
  repeat match goal with
    | |- context [N.eqb ?a ?b] => destruct (N.eqb_spec a b)
    end;
  cbn [andb orb negb]; try done; try lia.

Section StringFacts.

Implicit Types (s lit a b r : list N) (p : N → bool) (eqc : N → N → bool).

Lemma span_split p s : s = (span p s).1 ++ (span p s).2.
Proof.
  induction s as [|c s IH]; simpl; [done|].
  destruct (p c); [|done].
  destruct (span p s) as [x y]; simpl in *. by rewrite IH at 1.
Qed.

Lemma span_all p s : Forall (λ c, p c = true) (span p s).1.
Proof.
  induction s as [|c s IH]; simpl; [constructor|].
  destruct (p c) eqn:E; [|constructor].
  destruct (span p s) as [x y]; simpl in *. by constructor.
Qed.

Lemma span_stop p s c r : (span p s).2 = c :: r → p c = false.
Proof.
  induction s as [|d s IH]; simpl; [done|].
  destruct (p d) eqn:E.
  - destruct (span p s) as [x y]; simpl in *. done.
  - simpl. by intros [= -> ->].
Qed.

Lemma span_app p a b :
  Forall (λ c, p c = true) a →
  match b with [] => True | c :: _ => p c = false end →
  span p (a ++ b) = (a, b).
Proof.
  intros Ha Hb. induction Ha as [|c a Hc Ha IH]; simpl.
  - destruct b as [|c b]; simpl; [done|]. by rewrite Hb.
  - by rewrite Hc, IH.
Qed.

Lemma span_whole p s : Forall (λ c, p c = true) s → span p s = (s, []).
Proof.
  intros H. rewrite <- (app_nil_r s) at 1. by rewrite (span_app p s []).
Qed.

Lemma span_length p s : (length (span p s).2 ≤ length s)%nat.
Proof.
  rewrite (span_split p s) at 2. rewrite length_app. lia.
Qed.

Lemma strip_prefix_Some eqc lit s r :
  strip_prefix eqc lit s = Some r ↔ ∃ o, s = o ++ r ∧ agrees eqc lit o.
Proof.
  revert s. induction lit as [|x lit IH]; intros s; simpl.
  - split.
    + intros [= ->]. exists []. split; [done|constructor].
    + intros (o & -> & Ho). by inversion Ho.
  - destruct s as [|c s].
    + split; [done|]. intros (o & Hs & Ho). inversion Ho; subst. done.
    + destruct (eqc x c) eqn:E.
      * rewrite IH. split.
        -- intros (o & -> & Ho). exists (c :: o). split; [done|by constructor].
        -- intros (o & Hs & Ho). inversion Ho; subst. simpl in Hs.
           injection Hs as -> ->. eauto.
      * split; [done|]. intros (o & Hs & Ho). inversion Ho; subst.
        simpl in Hs. injection Hs as -> ->. congruence.
Qed.

Lemma agrees_length eqc lit o : agrees eqc lit o → length o = length lit.
Proof. intros H. symmetry. exact (Forall2_length _ _ _ H). Qed.

Lemma strip_prefix_length eqc lit s r :
  strip_prefix eqc lit s = Some r → length s = (length lit + length r)%nat.
Proof.
  rewrite strip_prefix_Some. intros (o & -> & Ho).
  rewrite length_app, (agrees_length _ _ _ Ho). done.
Qed.

Lemma strip_prefix_app eqc lit o r :
  agrees eqc lit o → strip_prefix eqc lit (o ++ r) = Some r.
Proof. intros Ho. apply strip_prefix_Some. eauto. Qed.

(** A text that fails to start with the literal although it is long
    enough keeps failing when it is extended. *)
Lemma strip_prefix_None_app eqc lit s x :
  strip_prefix eqc lit s = None → (length lit ≤ length s)%nat →
  strip_prefix eqc lit (s ++ x) = None.
Proof.
  revert s. induction lit as [|c lit IH]; intros s; simpl; [done|].
  destruct s as [|d s]; simpl; [lia|].
  destruct (eqc c d); [|done]. intros H Hl. apply IH; [done|lia].
Qed.

Lemma find_lit_Some eqc lit s a b :
  find_lit eqc lit s = Some (a, b) →
  ∃ o, s = a ++ o ++ b ∧ agrees eqc lit o.
Proof.
  revert a b. induction s as [|c s IH]; intros a b; simpl.
  - destruct (strip_prefix eqc lit []) eqn:E; [|done].
    intros [= <- <-]. apply strip_prefix_Some in E as (o & Hs & Ho).
    exists o. done.
  - destruct (strip_prefix eqc lit (c :: s)) eqn:E.
    + intros [= <- <-]. apply strip_prefix_Some in E as (o & Hs & Ho).
      exists o. done.
    + destruct (find_lit eqc lit s) as [[a' b']|] eqn:F; [|done].
      intros [= <- <-]. destruct (IH _ _ eq_refl) as (o & -> & Ho).
      exists o. done.
Qed.

Lemma find_lit_None eqc lit s :
  find_lit eqc lit s = None ↔
  ∀ a o b, s = a ++ o ++ b → ¬ agrees eqc lit o.
Proof.
  induction s as [|c s IH]; simpl.
  - destruct (strip_prefix eqc lit []) eqn:E.
    + split; [done|]. intros H. apply strip_prefix_Some in E as (o & Hs & Ho).
      exfalso. apply (H [] o l); done.
    + split; [|done]. intros _ a o b Hs Ho.
      symmetry in Hs. apply app_eq_nil in Hs as [-> Hs].
      apply app_eq_nil in Hs as [-> ->].
      pose proof (strip_prefix_app eqc lit [] [] Ho) as E'. simpl in E'.
      congruence.
  - destruct (strip_prefix eqc lit (c :: s)) eqn:E.
    + split; [done|]. intros H. apply strip_prefix_Some in E as (o & Hs & Ho).
      exfalso. apply (H [] o l); done.
    + destruct (find_lit eqc lit s) as [[a' b']|] eqn:F.
      * split; [done|]. intros H. exfalso.
        apply find_lit_Some in F as (o & -> & Ho).
        apply (H (c :: a') o b'); done.
      * split; [|done]. intros _ a o b Hs Ho.
        destruct a as [|d a]; simpl in Hs.
        -- rewrite Hs in E.
           pose proof (strip_prefix_app eqc lit o b Ho) as E'. congruence.
        -- injection Hs as -> ->. destruct IH as [IH _].
           by apply (IH eq_refl a o b).
Qed.

Lemma find_lit_length eqc lit s a b :
  find_lit eqc lit s = Some (a, b) →
  length s = (length a + length lit + length b)%nat.
Proof.
  intros H. apply find_lit_Some in H as (o & -> & Ho).
  rewrite !length_app, (agrees_length _ _ _ Ho). lia.
Qed.

End StringFacts.


(** ** The loops always have fuel enough

    The loops that resume a search after each match are written with a
    counter that starts at the length of the text.  Every match
    consumes at least one character, so the counter never runs out:
    each loop satisfies the equation of the [while] loop it embeds. *)

Section Fuel.

Implicit Types (s name lit rep : list N).

Lemma match_element_shorter name s attrs content rest :
  match_element name s = Some (attrs, content, rest) →
  (length rest < length s)%nat.
Proof.
  unfold match_element. intros H.
  destruct (strip_prefix eq_ci (str "<" ++ name) s) as [r0|] eqn:E; [|done].
  cbn in H. apply strip_prefix_length in E.
  pose proof (span_length (λ x, negb (x =? 62)) r0) as Hs.
  destruct (span (λ x, negb (x =? 62)) r0) as [a [|c r1]]; [done|].
  destruct (find_lit eq_ci (str "</" ++ name ++ str ">") r1)
    as [[c' rest']|] eqn:F; [|done].
  cbn in H. injection H as <- <- <-.
  apply find_lit_length in F. rewrite length_app in E. cbn in *. lia.
Qed.

Lemma exec_element_shorter name s attrs content rest :
  exec_element name s = Some (attrs, content, rest) →
  (length rest < length s)%nat.
Proof.
  induction s as [|c s IH]; cbn [exec_element].
  - destruct (match_element name []) as [[[a b] r]|] eqn:E; [|done].
    intros [= <- <- <-]. by apply match_element_shorter in E.
  - destruct (match_element name (c :: s)) as [[[a b] r]|] eqn:E.
    + intros [= <- <- <-]. by apply match_element_shorter in E.
    + intros H. apply IH in H. cbn [length]. lia.
Qed.

Lemma elements_fuel_enough name n m s :
  (length s ≤ n)%nat → (length s ≤ m)%nat →
  elements_fuel n name s = elements_fuel m name s.
Proof.
  revert m s. induction n as [|n IH]; intros m s Hn Hm.
  - destruct s; [|simpl in Hn; lia]. destruct m; [done|]. done.
  - destruct m as [|m].
    + destruct s; [|simpl in Hm; lia]. done.
    + cbn [elements_fuel].
      destruct (exec_element name s) as [[[a c] r]|] eqn:E; [|done].
      apply exec_element_shorter in E. f_equal. apply IH; lia.
Qed.

(** The equation of the loop over the matches of an element. *)
Lemma elements_unfold name s :
  elements name s =
  match exec_element name s with
  | None => []
  | Some (attrs, content, rest) => (attrs, content) :: elements name rest
  end.
Proof.
  unfold elements. destruct s as [|c s]; [done|].
  simpl length. cbn [elements_fuel].
  destruct (exec_element name (c :: s)) as [[[a b] r]|] eqn:E; [|done].
  apply exec_element_shorter in E. f_equal.
  apply elements_fuel_enough; simpl in *; lia.
Qed.

Lemma match_rule_shorter s name decls rest :
  match_rule s = Some (name, decls, rest) → (length rest < length s)%nat.
Proof.
  unfold match_rule. intros H.
  destruct (strip_prefix eq_cs (str ".waffle") s) as [r0|] eqn:E0; [|done].
  cbn in H. apply strip_prefix_length in E0.
  pose proof (span_length is_space r0) as L1.
  destruct (span is_space r0) as [ws r1]. simpl in L1.
  case_bool_decide; [done|].
  destruct (strip_prefix eq_cs (str ".") r1) as [r2|] eqn:E2; [|done].
  cbn in H. apply strip_prefix_length in E2.
  pose proof (span_length is_word r2) as L3.
  destruct (span is_word r2) as [nm r3]. simpl in L3.
  case_bool_decide; [done|].
  pose proof (span_length is_space r3) as L4.
  unfold trimStart in H.
  destruct (strip_prefix eq_cs (str "{") (span is_space r3).2) as [r4|] eqn:E4; [|done].
  cbn in H. apply strip_prefix_length in E4.
  pose proof (span_length (λ x, negb (x =? 125)) r4) as L5.
  destruct (span (λ x, negb (x =? 125)) r4) as [d [|c r5]]; [done|].
  injection H as <- <- <-. cbn in *. lia.
Qed.

Lemma exec_rule_shorter s name decls rest :
  exec_rule s = Some (name, decls, rest) → (length rest < length s)%nat.
Proof.
  induction s as [|c s IH]; cbn [exec_rule].
  - destruct (match_rule []) as [[[a b] r]|] eqn:E; [|done].
    intros [= <- <- <-]. by apply match_rule_shorter in E.
  - destruct (match_rule (c :: s)) as [[[a b] r]|] eqn:E.
    + intros [= <- <- <-]. by apply match_rule_shorter in E.
    + intros H. apply IH in H. cbn [length]. lia.
Qed.

Lemma rules_fuel_enough n m s :
  (length s ≤ n)%nat → (length s ≤ m)%nat → rules_fuel n s = rules_fuel m s.
Proof.
  revert m s. induction n as [|n IH]; intros m s Hn Hm.
  - destruct s; [|simpl in Hn; lia]. destruct m; done.
  - destruct m as [|m].
    + destruct s; [|simpl in Hm; lia]. done.
    + cbn [rules_fuel].
      destruct (exec_rule s) as [[[a c] r]|] eqn:E; [|done].
      apply exec_rule_shorter in E. f_equal. apply IH; lia.
Qed.

(** The equation of the loop over the rules of a style block. *)
Lemma rules_unfold s :
  rules s =
  match exec_rule s with
  | None => []
  | Some (name, decls, rest) => (name, decls) :: rules rest
  end.
Proof.
  unfold rules. destruct s as [|c s]; [done|].
  simpl length. cbn [rules_fuel].
  destruct (exec_rule (c :: s)) as [[[a b] r]|] eqn:E; [|done].
  apply exec_rule_shorter in E. f_equal.
  apply rules_fuel_enough; simpl in *; lia.
Qed.

Lemma replace_fuel_enough lit rep n m s :
  lit ≠ [] → (length s < n)%nat → (length s < m)%nat →
  replace_fuel n lit rep s = replace_fuel m lit rep s.
Proof.
  intros Hlit. revert m s. induction n as [|n IH]; intros m s Hn Hm; [lia|].
  destruct m as [|m]; [lia|]. simpl.
  destruct (strip_prefix eq_cs lit s) as [r|] eqn:E.
  - apply strip_prefix_length in E. f_equal.
    destruct lit; [done|]. simpl in E. apply IH; lia.
  - destruct s as [|c s]; [done|]. f_equal. simpl in *. apply IH; lia.
Qed.

(** The equation of a global replacement of a literal. *)
Lemma replaceAll_unfold lit rep s :
  lit ≠ [] →
  replaceAll lit rep s =
  match strip_prefix eq_cs lit s with
  | Some r => rep ++ replaceAll lit rep r
  | None =>
      match s with
      | [] => []
      | c :: r => c :: replaceAll lit rep r
      end
  end.
Proof.
  intros Hlit. unfold replaceAll at 1. cbn [replace_fuel].
  destruct (strip_prefix eq_cs lit s) as [r|] eqn:E.
  - apply strip_prefix_length in E. f_equal. unfold replaceAll.
    destruct lit; [done|]. cbn [length] in E.
    apply replace_fuel_enough; [done|lia..].
  - destruct s as [|c s]; done.
Qed.

Lemma remove_tags_fuel_enough n m s :
  (length s ≤ n)%nat → (length s ≤ m)%nat →
  remove_tags_fuel n s = remove_tags_fuel m s.
Proof.
  revert m s. induction n as [|n IH]; intros m s Hn Hm.
  - destruct s; [|simpl in Hn; lia]. destruct m; done.
  - destruct m as [|m].
    + destruct s; [|simpl in Hm; lia]. done.
    + simpl. destruct s as [|c s]; [done|]. simpl in Hn, Hm.
      destruct (c =? 60).
      * pose proof (span_length (λ x, negb (x =? 62)) s) as L.
        destruct (span (λ x, negb (x =? 62)) s).2 as [|d after] eqn:E.
        -- f_equal. apply IH; lia.
        -- simpl in L. apply IH; lia.
      * f_equal. apply IH; lia.
Qed.

(** The equation of the removal of the tags. *)
Lemma remove_tags_unfold s :
  remove_tags s =
  match s with
  | [] => []
  | c :: r =>
      if c =? 60 then
        match (span (λ x, negb (x =? 62)) r).2 with
        | _ :: after => remove_tags after
        | [] => c :: remove_tags r
        end
      else c :: remove_tags r
  end.
Proof.
  unfold remove_tags. destruct s as [|c s]; [done|].
  simpl length. cbn [remove_tags_fuel].
  destruct (c =? 60).
  - pose proof (span_length (λ x, negb (x =? 62)) s) as L.
    destruct (span (λ x, negb (x =? 62)) s).2 as [|d after] eqn:E.
    + done.
    + simpl in L. apply remove_tags_fuel_enough; lia.
  - done.
Qed.

End Fuel.


(** ** Trailing empty rows *)

Section Trim.

Implicit Types (rows kept dropped : list (list (list N))) (row : list (list N)).

Lemma trim_count_le rows n : (trim_count rows n ≤ n)%nat.
Proof.
  induction n as [|k IH]; simpl; [done|].
  destruct (rows !! k) as [row|]; [|done].
  destruct (all_empty row); lia.
Qed.

(** The rows the loop steps over are all empty. *)
Lemma trim_count_skipped rows n i :
  (trim_count rows n ≤ i < n)%nat →
  ∃ row, rows !! i = Some row ∧ all_empty row = true.
Proof.
  induction n as [|k IH]; simpl; [lia|].
  destruct (rows !! k) as [row|] eqn:E; [|lia].
  destruct (all_empty row) eqn:A; [|lia].
  intros H. destruct (decide (i = k)) as [->|]; [eauto|].
  apply IH. lia.
Qed.

(** The row the loop stops at is not empty. *)
Lemma trim_count_stop rows n k :
  (n ≤ length rows)%nat → trim_count rows n = S k →
  ∃ row, rows !! k = Some row ∧ all_empty row = false.
Proof.
  induction n as [|m IH]; simpl; [done|]. intros Hn.
  destruct (rows !! m) as [row|] eqn:E.
  - destruct (all_empty row) eqn:A.
    + intros H. apply IH; [lia|done].
    + intros [= <-]. eauto.
  - apply lookup_ge_None in E. lia.
Qed.

Lemma trimRows_prefix rows :
  rows = trimRows rows ++ drop (trim_count rows (length rows)) rows.
Proof. unfold trimRows. by rewrite take_drop. Qed.

Lemma trimRows_dropped_empty rows :
  Forall (λ row, all_empty row = true) (drop (trim_count rows (length rows)) rows).
Proof.
  apply Forall_lookup. intros i row. rewrite lookup_drop. intros H.
  assert (trim_count rows (length rows) + i < length rows)%nat as Hi
    by (apply lookup_lt_is_Some; eauto).
  destruct (trim_count_skipped rows (length rows)
              (trim_count rows (length rows) + i)) as (row' & E & A); [lia|].
  congruence.
Qed.

Lemma trimRows_last rows row :
  last (trimRows rows) = Some row → all_empty row = false.
Proof.
  unfold trimRows. rewrite last_lookup.
  pose proof (trim_count_le rows (length rows)) as Hle.
  rewrite length_take, Nat.min_l by done.
  destruct (trim_count rows (length rows)) as [|k] eqn:E; simpl.
  - done.
  - rewrite lookup_take_lt by lia. intros H.
    destruct (trim_count_stop rows (length rows) k) as (row' & E' & A); [done..|].
    congruence.
Qed.

(** No longer suffix consists of empty rows only. *)
Lemma trimRows_maximal rows kept dropped :
  rows = kept ++ dropped →
  Forall (λ row, all_empty row = true) dropped →
  (length (trimRows rows) ≤ length kept)%nat.
Proof.
  intros Hrows Hd. unfold trimRows.
  pose proof (trim_count_le rows (length rows)) as Hle.
  rewrite length_take, Nat.min_l by done.
  destruct (trim_count rows (length rows)) as [|k] eqn:E; [lia|].
  destruct (trim_count_stop rows (length rows) k) as (row & E' & A); [done..|].
  destruct (decide (length kept ≤ k)%nat) as [Hk|]; [|lia].
  exfalso. rewrite Hrows, lookup_app_r in E' by done.
  rewrite Forall_lookup in Hd. specialize (Hd _ _ E'). congruence.
Qed.

(** A row at or before a row that is not empty is kept, empty or not. *)
Lemma trimRows_keeps rows i j row :
  (i ≤ j)%nat → rows !! j = Some row → all_empty row = false →
  trimRows rows !! i = rows !! i.
Proof.
  intros Hij Hj A. unfold trimRows. apply lookup_take_lt.
  destruct (decide (j < trim_count rows (length rows))%nat); [lia|].
  assert (j < length rows)%nat by (apply lookup_lt_is_Some; eauto).
  destruct (trim_count_skipped rows (length rows) j) as (row' & E & A'); [lia|].
  congruence.
Qed.

End Trim.


(** ** Row indices of the sparse maps *)

Section SparseRows.

Context (styleMap : StyleMap.t).

Lemma rows_below_put {A} (m : gmap nat (gmap nat A)) n row col (v : A) :
  rows_below m n → (row < n)%nat → rows_below (put row col v m) n.
Proof.
  intros Hm Hrow r. unfold put.
  destruct (decide (row = r)) as [->|Hne]; [done|].
  rewrite lookup_insert_ne by done. apply Hm.
Qed.

Lemma rows_below_mono {A} (m : gmap nat (gmap nat A)) n n' :
  rows_below m n → (n ≤ n')%nat → rows_below m n'.
Proof. intros Hm Hn r Hr. specialize (Hm r Hr). lia. Qed.

Lemma cell_step_rows rowIdx st cell n :
  (rowIdx < n)%nat →
  rows_below (rfmts st) n ∧ rows_below (rbrds st) n →
  rows_below (rfmts (cell_step styleMap rowIdx st cell)) n
  ∧ rows_below (rbrds (cell_step styleMap rowIdx st cell)) n.
Proof.
  intros Hn [Hf Hb]. destruct cell as [attrs inner]. unfold cell_step. cbn.
  split.
  - destruct (_ && _); [by apply rows_below_put|done].
  - destruct (_ && _); [by apply rows_below_put|done].
Qed.

Lemma cells_rows rowIdx cells st n :
  (rowIdx < n)%nat →
  rows_below (rfmts st) n ∧ rows_below (rbrds st) n →
  rows_below (rfmts (fold_left (cell_step styleMap rowIdx) cells st)) n
  ∧ rows_below (rbrds (fold_left (cell_step styleMap rowIdx) cells st)) n.
Proof.
  intros Hn. revert st. induction cells as [|cell cells IH]; intros st H; [done|].
  cbn [fold_left]. apply IH. by apply cell_step_rows.
Qed.

Lemma row_step_length acc row :
  length (aoa (row_step styleMap acc row)) = S (length (aoa acc)).
Proof. unfold row_step. cbn. rewrite length_app. cbn. lia. Qed.

Lemma row_step_rows acc row :
  rows_below (fmts acc) (length (aoa acc))
  ∧ rows_below (brds acc) (length (aoa acc)) →
  rows_below (fmts (row_step styleMap acc row))
             (length (aoa (row_step styleMap acc row)))
  ∧ rows_below (brds (row_step styleMap acc row))
               (length (aoa (row_step styleMap acc row))).
Proof.
  intros [Hf Hb]. rewrite row_step_length. unfold row_step. cbn.
  apply cells_rows; [lia|]. cbn.
  split; eapply rows_below_mono; eauto.
Qed.

Lemma rows_fold_rows rows acc :
  rows_below (fmts acc) (length (aoa acc))
  ∧ rows_below (brds acc) (length (aoa acc)) →
  let acc' := fold_left (row_step styleMap) rows acc in
  rows_below (fmts acc') (length (aoa acc'))
  ∧ rows_below (brds acc') (length (aoa acc')).
Proof.
  revert acc. induction rows as [|row rows IH]; intros acc H; [done|].
  cbn [fold_left]. apply IH. by apply row_step_rows.
Qed.

(** Every entry of the maps belongs to a collected row. *)
Lemma parseRows_rows tbodyHtml :
  let acc := parseRows styleMap tbodyHtml in
  rows_below (fmts acc) (length (aoa acc))
  ∧ rows_below (brds acc) (length (aoa acc)).
Proof.
  unfold parseRows. apply rows_fold_rows. cbn.
  split; intros r; rewrite lookup_empty; by intros [? ?].
Qed.

End SparseRows.

(** The emitted document, in terms of the steps of the conversion. *)
Lemma convertDocument_inr src doc :
  convertDocument src = inr doc →
  ∃ tbodyHtml, tbodyMatch src = Some tbodyHtml ∧
    let acc := parseRows (buildStyleMap src) tbodyHtml in
    doc = {| data := trimRows (aoa acc); formats := fmts acc; borders := brds acc |}.
Proof.
  unfold convertDocument. destruct (tbodyMatch src) as [t|]; [|done].
  intros [= <-]. eauto.
Qed.


(** ** Rows of the document *)

(** C5.  The emitted data is the list of the collected rows without its
    maximal trailing run of rows whose cells are all the empty string:
    the collected rows are the data followed by rows that are all
    empty, the last row of the data is not all empty, no longer
    suffix of all-empty rows exists, and every row at or before a row
    that is not all empty is kept as it is, all empty or not. *)
Theorem data_is_rows_without_trailing_empty (src : list N) (doc : Document) :
  convertDocument src = inr doc →
  ∃ tbodyHtml suffix,
    tbodyMatch src = Some tbodyHtml ∧
    let rows := aoa (parseRows (buildStyleMap src) tbodyHtml) in
    rows = data doc ++ suffix
    ∧ Forall (λ row, all_empty row = true) suffix
    ∧ (∀ row, last (data doc) = Some row → all_empty row = false)
    ∧ (∀ kept dropped, rows = kept ++ dropped →
         Forall (λ row, all_empty row = true) dropped →
         (length dropped ≤ length suffix)%nat)
    ∧ (∀ i j row, (i ≤ j)%nat → rows !! j = Some row → all_empty row = false →
         data doc !! i = rows !! i).
Proof.
  intros H. apply convertDocument_inr in H as (tbodyHtml & Ht & ->).
  set (rows := aoa (parseRows (buildStyleMap src) tbodyHtml)).
  exists tbodyHtml, (drop (trim_count rows (length rows)) rows).
  split; [done|]. cbn zeta. cbn [data]. fold rows.
  split; [apply trimRows_prefix|].
  split; [apply trimRows_dropped_empty|].
  split; [apply trimRows_last|].
  split; [|apply trimRows_keeps].
  intros kept dropped Hrows Hd.
  pose proof (trimRows_maximal rows kept dropped Hrows Hd) as Hmax.
  pose proof (f_equal length Hrows) as L1.
  pose proof (f_equal length (trimRows_prefix rows)) as L2.
  rewrite length_app in L1, L2. lia.
Qed.

Lemma data_is_rows_without_trailing_empty_witness :
  ∃ tbodyHtml suffix,
    tbodyMatch Samples.trailing_styled = Some tbodyHtml ∧
    let rows := aoa (parseRows (buildStyleMap Samples.trailing_styled) tbodyHtml) in
    rows = data Samples.trailing_styled_doc ++ suffix
    ∧ Forall (λ row, all_empty row = true) suffix
    ∧ (∀ row, last (data Samples.trailing_styled_doc) = Some row →
         all_empty row = false)
    ∧ (∀ kept dropped, rows = kept ++ dropped →
         Forall (λ row, all_empty row = true) dropped →
         (length dropped ≤ length suffix)%nat)
    ∧ (∀ i j row, (i ≤ j)%nat → rows !! j = Some row → all_empty row = false →
         data Samples.trailing_styled_doc !! i = rows !! i).
Proof.
  apply (data_is_rows_without_trailing_empty
           Samples.trailing_styled Samples.trailing_styled_doc).
  vm_compute. reflexivity.
Defined.

(** C1, as stated, fails: a trailing row whose cells are empty but
    styled is trimmed from the data while its entries stay in the
    maps. *)
Lemma trailing_styled_row_keeps_entries :
  convertDocument Samples.trailing_styled = inr Samples.trailing_styled_doc
  ∧ length (data Samples.trailing_styled_doc) = 1%nat
  ∧ formats Samples.trailing_styled_doc !! 1%nat
    = Some {[ 0%nat := Samples.bold_format ]}
  ∧ borders Samples.trailing_styled_doc !! 1%nat
    = Some {[ 0%nat := Samples.top_border ]}
  ∧ ¬ keys_within_data Samples.trailing_styled_doc.
Proof.
  split; [vm_compute; reflexivity|].
  split; [reflexivity|].
  split; [vm_compute; reflexivity|].
  split; [vm_compute; reflexivity|].
  intros [Hf _]. specialize (Hf 1%nat).
  assert (1 < 1)%nat; [|lia]. apply Hf. vm_compute. eexists. reflexivity.
Qed.

(** C1, amended.  Every row index of the formats and borders maps of
    the emitted document is below the number of rows collected before
    the trim; an index at or beyond the number of rows of the data is
    that of a collected row whose cells are all the empty string. *)
Theorem sparse_rows_are_collected_rows (src : list N) (doc : Document) :
  convertDocument src = inr doc →
  ∃ tbodyHtml,
    tbodyMatch src = Some tbodyHtml ∧
    let rows := aoa (parseRows (buildStyleMap src) tbodyHtml) in
    data doc = trimRows rows ∧
    ∀ r, is_Some (formats doc !! r) ∨ is_Some (borders doc !! r) →
      (r < length rows)%nat
      ∧ ((length (data doc) ≤ r)%nat →
         ∃ row, rows !! r = Some row ∧ all_empty row = true).
Proof.
  intros H. apply convertDocument_inr in H as (tbodyHtml & Ht & ->).
  exists tbodyHtml. split; [done|]. cbn zeta. cbn [data formats borders].
  split; [done|]. intros r Hr.
  destruct (parseRows_rows (buildStyleMap src) tbodyHtml) as [Hf Hb].
  assert (r < length (aoa (parseRows (buildStyleMap src) tbodyHtml)))%nat as Hlt.
  { destruct Hr as [Hr|Hr]; [by apply Hf|by apply Hb]. }
  split; [done|]. intros Hge.
  apply (trim_count_skipped _ (length (aoa (parseRows (buildStyleMap src) tbodyHtml)))).
  unfold trimRows in Hge.
  pose proof (trim_count_le (aoa (parseRows (buildStyleMap src) tbodyHtml))
                (length (aoa (parseRows (buildStyleMap src) tbodyHtml)))) as Hle.
  rewrite length_take, Nat.min_l in Hge by done. lia.
Qed.

Lemma sparse_rows_are_collected_rows_witness :
  ∃ tbodyHtml,
    tbodyMatch Samples.trailing_styled = Some tbodyHtml ∧
    let rows := aoa (parseRows (buildStyleMap Samples.trailing_styled) tbodyHtml) in
    data Samples.trailing_styled_doc = trimRows rows ∧
    ∀ r, is_Some (formats Samples.trailing_styled_doc !! r)
         ∨ is_Some (borders Samples.trailing_styled_doc !! r) →
      (r < length rows)%nat
      ∧ ((length (data Samples.trailing_styled_doc) ≤ r)%nat →
         ∃ row, rows !! r = Some row ∧ all_empty row = true).
Proof.
  apply (sparse_rows_are_collected_rows
           Samples.trailing_styled Samples.trailing_styled_doc).
  vm_compute. reflexivity.
Defined.


(** ** The table body *)

Section TableBody.

Implicit Types (s src pre post body content : list N).







Lemma find_lit_None_cons eqc lit x s :
  find_lit eqc lit (x :: s) = None ↔
  strip_prefix eqc lit (x :: s) = None ∧ find_lit eqc lit s = None.
Proof.
  cbn [find_lit]. destruct (strip_prefix eqc lit (x :: s)).
  - split; [done|]. by intros [? _].
  - destruct (find_lit eqc lit s) as [[a b]|]; split; try done. by intros [_ ?].
Qed.

Lemma find_lit_absent eqc lit s : find_lit eqc lit s = None ↔ absent eqc lit s.
Proof. apply find_lit_None. Qed.

(** Where the start marker does not occur there is no table body. *)
Lemma tbodyMatch_absent src :
  find_lit eq_ci (str "<tbody>") src = None → tbodyMatch src = None.
Proof.
  induction src as [|x src IH].
  - cbn [find_lit tbodyMatch]. unfold match_tbody.
    destruct (strip_prefix eq_ci (str "<tbody>") []); done.
  - rewrite find_lit_None_cons. intros [E F].
    cbn [tbodyMatch]. unfold match_tbody at 1. rewrite E. cbn. by apply IH.
Qed.

(** A failed comparison stays failed when the text that was too short
    is continued by a character that no character of the literal is. *)
Lemma strip_prefix_None_cont eqc lit s x r :
  Forall (λ a, eqc a x = false) lit →
  strip_prefix eqc lit s = None →
  strip_prefix eqc lit (s ++ x :: r) = None.
Proof.
  intros Hlit. revert s. induction Hlit as [|a lit Ha Hlit IH]; intros s; [done|].
  cbn [strip_prefix]. destruct s as [|d s]; cbn [app].
  - by rewrite Ha.
  - destruct (eqc a d); [apply IH|done].
Qed.

Lemma strip_prefix_None_cont1 eqc l0 lit s x r :
  Forall (λ a, eqc a x = false) lit → s ≠ [] →
  strip_prefix eqc (l0 :: lit) s = None →
  strip_prefix eqc (l0 :: lit) (s ++ x :: r) = None.
Proof.
  intros Hlit Hs. destruct s as [|d s]; [done|].
  cbn [strip_prefix app]. destruct (eqc l0 d); [|done].
  by apply strip_prefix_None_cont.
Qed.

Lemma find_lit_None_cont eqc l0 lit s x r :
  Forall (λ a, eqc a x = false) lit →
  find_lit eqc (l0 :: lit) s = None →
  find_lit eqc (l0 :: lit) (x :: r) = None →
  find_lit eqc (l0 :: lit) (s ++ x :: r) = None.
Proof.
  intros Hlit. induction s as [|d s IH]; [done|].
  rewrite find_lit_None_cons. intros [E F] Hr.
  cbn [app]. apply find_lit_None_cons. split.
  - by apply (strip_prefix_None_cont1 eqc l0 lit (d :: s) x r).
  - by apply IH.
Qed.

(** Characters that the literal cannot start with are stepped over. *)
Lemma find_lit_None_skip eqc l0 lit a s :
  Forall (λ c, eqc l0 c = false) a →
  find_lit eqc (l0 :: lit) s = None →
  find_lit eqc (l0 :: lit) (a ++ s) = None.
Proof.
  intros Ha Hs. induction Ha as [|c a Hc Ha IH]; [done|].
  cbn [app]. apply find_lit_None_cons. split; [|done].
  cbn [strip_prefix]. by rewrite Hc.
Qed.

Lemma eq_ci_lt c : eq_ci 60 c = true → c = 60.
Proof. unfold eq_ci, canon, is_lower. char_cases. Qed.

Lemma eq_ci_lt_false c : c ≠ 60 → eq_ci 60 c = false.
Proof.
  intros H. destruct (eq_ci 60 c) eqn:E; [|done]. by apply eq_ci_lt in E.
Qed.

Lemma eq_ci_letter_not_lt a c :
  eq_ci a c = true → a ≠ 60 → eq_ci 60 c = false.
Proof.
  intros H Ha. apply eq_ci_lt_false. intros ->.
  revert H. unfold eq_ci, canon, is_lower. char_cases.
Qed.

End TableBody.


Lemma eq_ci_gt_false c : c ≠ 62 → eq_ci 62 c = false.
Proof. unfold eq_ci, canon, is_lower. char_cases. Qed.

(** A start tag of the table body that carries attributes is not the
    start marker, and hides no start marker. *)
Lemma attributed_tbody_absent (pre o attrs rest : list N) :
  agrees eq_ci (str "<tbody") o →
  attrs ≠ [] →
  Forall (λ c, c ≠ 60 ∧ c ≠ 62) attrs →
  absent eq_ci (str "<tbody>") pre →
  absent eq_ci (str "<tbody>") rest →
  find_lit eq_ci (str "<tbody>") (pre ++ o ++ attrs ++ str ">" ++ rest) = None.
Proof.
  intros Ho Hne Hattrs Hpre Hrest.
  apply find_lit_absent in Hpre, Hrest.
  change (str "<tbody") with [60; 116; 98; 111; 100; 121] in Ho.
  apply Forall2_cons_inv_l in Ho as (x0 & o0 & H0 & Ho & ->).
  apply Forall2_cons_inv_l in Ho as (x1 & o1 & H1 & Ho & ->).
  apply Forall2_cons_inv_l in Ho as (x2 & o2 & H2 & Ho & ->).
  apply Forall2_cons_inv_l in Ho as (x3 & o3 & H3 & Ho & ->).
  apply Forall2_cons_inv_l in Ho as (x4 & o4 & H4 & Ho & ->).
  apply Forall2_cons_inv_l in Ho as (x5 & o5 & H5 & Ho & ->).
  apply Forall2_nil_inv_l in Ho as ->.
  apply eq_ci_lt in H0 as ->.
  destruct attrs as [|a attrs]; [done|].
  apply Forall_cons in Hattrs as [[Ha1 Ha2] Hattrs].
  change (str "<tbody>") with (60 :: str "tbody>") in *.
  cbn [app]. apply find_lit_None_cont; [|done|].
  { change (str "tbody>") with [116; 98; 111; 100; 121; 62].
    repeat constructor. }
  apply find_lit_None_cons. split.
  - change (str "tbody>") with [116; 98; 111; 100; 121; 62].
    cbn [strip_prefix]. rewrite H1, H2, H3, H4, H5.
    change (eq_ci 60 60) with true. cbn iota.
    by rewrite (eq_ci_gt_false a).
  - change (x1 :: x2 :: x3 :: x4 :: x5 :: a :: attrs ++ str ">" ++ rest)
      with ([x1; x2; x3; x4; x5] ++ (a :: attrs) ++ str ">" ++ rest).
    apply find_lit_None_skip.
    { repeat constructor; eapply eq_ci_letter_not_lt; eauto; done. }
    apply find_lit_None_skip.
    { constructor; [by apply eq_ci_lt_false|].
      eapply Forall_impl; [exact Hattrs|]. intros c [Hc _]. by apply eq_ci_lt_false. }
    change (str ">") with [62]. cbn [app].
    apply find_lit_None_cons. split; [done|done].
Qed.

(** C10.  The table body is recognised by the start marker without
    attributes only: a text whose table-body start tag carries
    attributes, and which holds the bare marker nowhere else, has no
    table body for the converter, which raises its fatal error. *)
Theorem tbody_with_attributes_is_fatal (pre o attrs rest : list N) :
  agrees eq_ci (str "<tbody") o →
  attrs ≠ [] →
  Forall (λ c, c ≠ 60 ∧ c ≠ 62) attrs →
  absent eq_ci (str "<tbody>") pre →
  absent eq_ci (str "<tbody>") rest →
  convertHtml (pre ++ o ++ attrs ++ str ">" ++ rest) = inl NoTbody.
Proof.
  intros Ho Hne Hattrs Hpre Hrest.
  unfold convertHtml, convertDocument.
  rewrite tbodyMatch_absent; [done|].
  by apply attributed_tbody_absent.
Qed.

Lemma tbody_with_attributes_is_fatal_witness :
  convertHtml Samples.attributed_tbody = inl NoTbody.
Proof.
  apply (tbody_with_attributes_is_fatal
           (str "<table>") (str "<tbody") (str " class='x'")
           (str "<tr><td>a</td></tr></tbody></table>")).
  - vm_compute. repeat constructor.
  - vm_compute. discriminate.
  - vm_compute. repeat constructor; discriminate.
  - apply find_lit_absent. vm_compute. reflexivity.
  - apply find_lit_absent. vm_compute. reflexivity.
Defined.


(** ** The class map *)

Section ClassMap.

Implicit Types (m : StyleMap.t) (r : StyleRecord) (s name decls cls : list N).

Lemma match_rule_name s name decls rest :
  match_rule s = Some (name, decls, rest) → class_name name.
Proof.
  unfold match_rule. intros H.
  destruct (strip_prefix eq_cs (str ".waffle") s) as [r0|]; [|done]. cbn in H.
  destruct (span is_space r0) as [ws r1].
  case_bool_decide; [done|].
  destruct (strip_prefix eq_cs (str ".") r1) as [r2|]; [|done]. cbn in H.
  pose proof (span_all is_word r2) as Hw.
  destruct (span is_word r2) as [nm r3]. cbn in Hw.
  case_bool_decide; [done|].
  destruct (strip_prefix eq_cs (str "{") (trimStart r3)) as [r4|]; [|done].
  cbn in H.
  destruct (span (λ x, negb (x =? 125)) r4) as [d [|c r5]]; [done|].
  injection H as <- <- <-. done.
Qed.

Lemma exec_rule_name s name decls rest :
  exec_rule s = Some (name, decls, rest) → class_name name.
Proof.
  induction s as [|c s IH]; cbn [exec_rule].
  - destruct (match_rule []) as [[[a b] r]|] eqn:E; [|done].
    intros [= <- <- <-]. by apply match_rule_name in E.
  - destruct (match_rule (c :: s)) as [[[a b] r]|] eqn:E; [|done].
    intros [= <- <- <-]. by apply match_rule_name in E.
Qed.

Lemma rules_fuel_names n s :
  Forall (λ rule, class_name rule.1) (rules_fuel n s).
Proof.
  revert s. induction n as [|n IH]; intros s; cbn [rules_fuel]; [constructor|].
  destruct (exec_rule s) as [[[a b] r]|] eqn:E; [|constructor].
  constructor; [|apply IH]. by apply exec_rule_name in E.
Qed.

Lemma rules_names s : Forall (λ rule, class_name rule.1) (rules s).
Proof. apply rules_fuel_names. Qed.

Lemma built_empty : built StyleMap.empty.
Proof.
  split; cbn; [|done]. intros k r. by rewrite lookup_empty.
Qed.

Lemma built_set m name r :
  built m → class_name name → parsed r → built (StyleMap.set name r m).
Proof.
  intros [Ho Hp] Hn Hr. unfold StyleMap.set.
  destruct (eqs name (str "__proto__")); split; cbn.
  - done.
  - by intros ? [= <-].
  - intros k r'. destruct (decide (name = k)) as [->|Hne].
    + rewrite lookup_insert_eq. by intros [= <-].
    + rewrite lookup_insert_ne by done. apply Ho.
  - done.
Qed.

Lemma built_rules m (l : list (list N * list N)) :
  built m → Forall (λ rule, class_name rule.1) l →
  built (fold_left (λ m rule, StyleMap.set rule.1 (parseCssClass rule.2) m) l m).
Proof.
  intros Hm Hl. revert m Hm. induction Hl as [|rule l Hrule Hl IH]; intros m Hm.
  - done.
  - cbn [fold_left]. apply IH. apply built_set; [done..|]. by eexists.
Qed.

(** The class map of a document holds class names and parsed style
    records only. *)
Lemma buildStyleMap_built src : built (buildStyleMap src).
Proof.
  unfold buildStyleMap. generalize (elements (str "style") src).
  intros blocks. generalize built_empty. generalize StyleMap.empty.
  induction blocks as [|block blocks IH]; intros m Hm; [done|].
  cbn [fold_left]. apply IH. apply built_rules; [done|apply rules_names].
Qed.

(** A name with a character that no name of the program has. *)
Lemma eqs_false_char (P : N → bool) (a lit : list N) c :
  c ∈ a → P c = true → forallb (λ x, negb (P x)) lit = true →
  eqs a lit = false.
Proof.
  intros Hc HP Hlit. unfold eqs. apply bool_decide_eq_false. intros ->.
  rewrite forallb_forall in Hlit. apply list_elem_of_In in Hc.
  specialize (Hlit c Hc). by rewrite HP in Hlit.
Qed.

Lemma is_word_not_space c : is_space c = true → is_word c = false.
Proof.
  intros Hs. destruct (is_word c) eqn:Hw; [|done]. exfalso.
  unfold is_space in Hs. unfold is_word, is_digit, is_upper, is_lower in Hw.
  char_props Hs. char_props Hw. lia.
Qed.

Lemma record_get_spaced r cls c :
  c ∈ cls → is_space c = true → StyleMap.record_get r cls = StyleMap.VUndefined.
Proof.
  intros Hc Hs. unfold StyleMap.record_get.
  repeat (rewrite (eqs_false_char is_space cls _ c Hc Hs) by (vm_compute; reflexivity)).
  done.
Qed.

Lemma object_prototype_get_spaced cls c :
  c ∈ cls → is_space c = true →
  StyleMap.object_prototype_get cls = StyleMap.VUndefined.
Proof.
  intros Hc Hs. unfold StyleMap.object_prototype_get.
  case_bool_decide as H; [|done]. exfalso.
  unfold StyleMap.object_prototype_names in H.
  rewrite !elem_of_cons, elem_of_nil in H.
  assert (∀ lit, forallb (λ x, negb (is_space x)) lit = true → cls ≠ lit) as Hno.
  { intros lit Hlit ->. rewrite forallb_forall in Hlit.
    apply list_elem_of_In in Hc. specialize (Hlit c Hc). by rewrite Hs in Hlit. }
  repeat match type of H with
         | cls = ?lit ∨ _ => destruct H as [H|H]; [exact (Hno lit eq_refl H)|]
         end.
  done.
Qed.

(** A class attribute of several tokens is looked up as one key, and
    only an own property of the class map can answer it. *)
Lemma get_spaced m cls c :
  c ∈ cls → is_space c = true →
  StyleMap.get m cls = match StyleMap.own m !! cls with
                       | Some r => StyleMap.VStyle r
                       | None => StyleMap.VUndefined
                       end.
Proof.
  intros Hc Hs. unfold StyleMap.get.
  destruct (StyleMap.own m !! cls); [done|].
  rewrite (eqs_false_char is_space cls _ c Hc Hs) by (vm_compute; reflexivity).
  rewrite (object_prototype_get_spaced cls c Hc Hs).
  destruct (StyleMap.proto m); [|done].
  by rewrite (record_get_spaced _ cls c Hc Hs).
Qed.

(** No class map of a document has such a key. *)
Lemma built_spaced m cls c :
  built m → c ∈ cls → is_space c = true → StyleMap.own m !! cls = None.
Proof.
  intros [Ho _] Hc Hs. destruct (StyleMap.own m !! cls) as [r|] eqn:E; [|done].
  destruct (Ho _ _ E) as [[_ Hw] _]. rewrite Forall_forall in Hw.
  specialize (Hw c Hc). by rewrite is_word_not_space in Hw.
Qed.

(** The empty class name resolves to nothing. *)
Lemma built_get_nil m : built m → StyleMap.get m [] = StyleMap.VUndefined.
Proof.
  intros [Ho _]. unfold StyleMap.get.
  destruct (StyleMap.own m !! []) as [r|] eqn:E.
  { by destruct (Ho _ _ E) as [[? _] _]. }
  change (eqs [] (str "__proto__")) with false. cbn iota.
  destruct (StyleMap.proto m); reflexivity.
Qed.

(** What a class resolves to, when it is a style record, was parsed
    from a declaration list. *)
Lemma built_get_parsed m cls r :
  built m → StyleMap.get m cls = StyleMap.VStyle r → parsed r.
Proof.
  intros [Ho Hp]. unfold StyleMap.get.
  destruct (StyleMap.own m !! cls) as [r'|] eqn:E.
  { intros [= <-]. by destruct (Ho _ _ E). }
  destruct (eqs cls (str "__proto__")).
  - destruct (StyleMap.proto m) as [r'|] eqn:P; [|done].
    intros [= <-]. by apply Hp.
  - unfold StyleMap.object_prototype_get.
    destruct (StyleMap.proto m) as [r'|].
    + unfold StyleMap.record_get, StyleMap.of_option.
      repeat match goal with
             | |- context [if ?b then _ else _] => destruct b
             | |- context [match ?o with Some _ => _ | None => _ end] => destruct o
             end; done.
    + case_bool_decide; done.
Qed.

End ClassMap.


(** ** Parsed style records *)

Section Parsed.

Implicit Types (r result : StyleRecord) (key val raw decls : list N).

Lemma eqs_true (a b : list N) : eqs a b = true → a = b.
Proof. unfold eqs. apply bool_decide_eq_true_1. Qed.

Lemma lower_char_nonempty c : lower_char c ≠ [].
Proof. unfold lower_char. repeat case_match; done. Qed.

Lemma toLowerCase_cons c s : toLowerCase (c :: s) = lower_char c ++ toLowerCase s.
Proof. reflexivity. Qed.

Lemma toLowerCase_nonempty s : s ≠ [] → toLowerCase s ≠ [].
Proof.
  destruct s as [|c s]; [done|]. intros _. rewrite toLowerCase_cons.
  pose proof (lower_char_nonempty c). by destruct (lower_char c).
Qed.

(** A normalised colour starts with the hash sign. *)
Lemma normColor_nonempty val c : normColor val = Some c → c ≠ [].
Proof.
  unfold normColor. destruct (is_hex_color (trim val)) eqn:E.
  - intros [= <-]. apply toLowerCase_nonempty. by destruct (trim val).
  - destruct (match_rgb (trim val)) as [[[c1 c2] c3]|]; [|done].
    by intros [= <-].
Qed.

Lemma well_formed_no_style : well_formed no_style.
Proof. repeat split; done. Qed.

Lemma set_property_well_formed key val r :
  well_formed r → well_formed (set_property key val r).
Proof.
  intros (Hc & Hb & Ha & Hs). unfold set_property.
  destruct (_ && _); [done|].
  destruct (_ && _); [done|].
  destruct (eqs key (str "color")).
  { destruct (normColor val) as [c|] eqn:E; [|done].
    split; [|done]. cbn. intros ? [= <-]. by apply normColor_nonempty in E. }
  destruct (eqs key (str "background-color")).
  { destruct (normColor val) as [c|] eqn:E; [|done].
    split; [done|]. split; [|done]. cbn. intros ? [= <-].
    by apply normColor_nonempty in E. }
  destruct (eqs key (str "text-align")).
  { destruct (eqs (toLowerCase val) (str "left")) eqn:E1.
    { apply eqs_true in E1. cbn [orb]. repeat split; try done.
      cbn. intros ? [= <-]. rewrite E1. set_solver. }
    destruct (eqs (toLowerCase val) (str "center")) eqn:E2.
    { apply eqs_true in E2. cbn [orb]. repeat split; try done.
      cbn. intros ? [= <-]. rewrite E2. set_solver. }
    destruct (eqs (toLowerCase val) (str "right")) eqn:E3; [|done].
    apply eqs_true in E3. cbn [orb]. repeat split; try done.
    cbn. intros ? [= <-]. rewrite E3. set_solver. }
  destruct (eqs key (str "font-size")).
  { destruct (parsePtPx val) as [n|]; [|done].
    destruct (truthy n) eqn:T; [|done].
    repeat split; try done. cbn. by intros ? [= <-]. }
  repeat (destruct (eqs key _); [done|]). done.
Qed.

Lemma apply_decl_well_formed result raw :
  well_formed result → well_formed (apply_decl result raw).
Proof.
  intros H. unfold apply_decl. destruct (cut_colon raw) as [[k v]|]; [|done].
  by apply set_property_well_formed.
Qed.

Lemma parseCssClass_well_formed decls : well_formed (parseCssClass decls).
Proof.
  unfold parseCssClass. generalize well_formed_no_style. generalize no_style.
  induction (split 59 decls) as [|raw l IH]; intros r Hr; [done|].
  cbn [fold_left]. apply IH. by apply apply_decl_well_formed.
Qed.

Lemma parsed_well_formed r : parsed r → well_formed r.
Proof. intros [decls ->]. apply parseCssClass_well_formed. Qed.



End Parsed.


(** ** Cells *)

Section Cells.

Implicit Types (r : StyleRecord) (styleMap : StyleMap.t) (st : RowAcc).

Lemma format_size_0 (f : CellFormat) : format_size f = 0%nat ↔ f = no_format.
Proof.
  destruct f as [b i c g s fam a]. unfold format_size, no_format. cbn.
  split.
  - destruct b, i, c, g, s, fam, a; cbn; intros; try lia; done.
  - intros [= -> -> -> -> -> -> ->]. done.
Qed.

Lemma nonempty_well (o : option (list N)) :
  (∀ c, o = Some c → c ≠ []) → nonempty o = o.
Proof. intros H. destruct o as [[|x c]|]; [|done..]. by destruct (H [] eq_refl). Qed.

Lemma notable_well dflt (o : option (list N)) :
  (∀ c, o = Some c → c ≠ []) →
  notable dflt o = if decide (o = Some dflt) then None else o.
Proof.
  intros H. unfold notable. rewrite (nonempty_well o H).
  destruct o as [c|]; [|by case_decide].
  unfold eqs. case_bool_decide as E; case_decide as E'; try done.
  - subst. done.
  - by injection E' as ->.
Qed.

Lemma nonempty_family (o : option (list N)) :
  nonempty o = if decide (o = Some []) then None else o.
Proof. destruct o as [[|x c]|]; by case_decide. Qed.

(** The format object of a well-formed style record. *)
Lemma make_format_well_formed r :
  well_formed r → make_format (StyleMap.VStyle r) = notable_format r.
Proof.
  intros (Hc & Hb & Ha & Hs). unfold make_format, notable_format. cbn.
  rewrite (notable_well _ _ Hc), (notable_well _ _ Hb), nonempty_family.
  f_equal.
  - unfold truthy_num. destruct (fontSize r) as [n|] eqn:E; [|done].
    by rewrite (Hs n eq_refl).
  - apply nonempty_well. intros a E ->. specialize (Ha _ E).
    rewrite !elem_of_cons, elem_of_nil in Ha.
    destruct Ha as [?|[?|[?|?]]]; done.
Qed.

Lemma cell_step_formats styleMap rowIdx st attrs inner :
  rfmts (cell_step styleMap rowIdx st (attrs, inner)) =
  let s := StyleMap.get styleMap (cell_class attrs) in
  if StyleMap.truthy s && negb (format_size (make_format s) =? 0)%nat
  then put rowIdx (colIdx st) (make_format s) (rfmts st) else rfmts st.
Proof. reflexivity. Qed.

Lemma cell_step_borders styleMap rowIdx st attrs inner :
  rbrds (cell_step styleMap rowIdx st (attrs, inner)) =
  let s := StyleMap.get styleMap (cell_class attrs) in
  if StyleMap.truthy s && any_border (make_borders s)
  then put rowIdx (colIdx st) (make_borders s) (rbrds st) else rbrds st.
Proof. reflexivity. Qed.

(** A cell whose class resolves to nothing gets no entry. *)
Lemma cell_step_unresolved styleMap rowIdx st attrs inner :
  StyleMap.get styleMap (cell_class attrs) = StyleMap.VUndefined →
  rfmts (cell_step styleMap rowIdx st (attrs, inner)) = rfmts st
  ∧ rbrds (cell_step styleMap rowIdx st (attrs, inner)) = rbrds st.
Proof.
  intros H. rewrite cell_step_formats, cell_step_borders. cbn zeta.
  rewrite H. done.
Qed.

End Cells.

(** C4, as stated, fails: a class with an empty font family resolves
    to a style record in which the font family is there, and the format
    of the cell leaves it out. *)
Lemma empty_font_family_is_left_out :
  StyleMap.get (buildStyleMap Samples.empty_family) (str "s1")
  = StyleMap.VStyle Samples.empty_family_style
  ∧ fontFamily Samples.empty_family_style = Some []
  ∧ f_fontFamily (make_format (StyleMap.VStyle Samples.empty_family_style)) = None
  ∧ make_format (StyleMap.VStyle Samples.empty_family_style)
    ≠ stated_format Samples.empty_family_style
  ∧ convertDocument Samples.empty_family = inr Samples.empty_family_doc.
Proof.
  split; [vm_compute; reflexivity|].
  split; [reflexivity|].
  split; [reflexivity|].
  split; [vm_compute; discriminate|].
  vm_compute. reflexivity.
Qed.

(** C4, amended.  For a cell whose class resolves to a style record,
    the format has the text colour unless it is absent or black, the
    background colour unless it is absent or white, bold, italic, the
    font size and the alignment whenever they are there, and the font
    family whenever it is there and not the empty string; the cell gets
    an entry in the formats map unless that format has no property. *)
Theorem cell_format_is_notable_part
    (src : list N) (r : StyleRecord) (rowIdx : nat) (st : RowAcc)
    (attrs inner : list N) :
  StyleMap.get (buildStyleMap src) (cell_class attrs) = StyleMap.VStyle r →
  make_format (StyleMap.VStyle r) = notable_format r
  ∧ rfmts (cell_step (buildStyleMap src) rowIdx st (attrs, inner))
    = if decide (notable_format r = no_format) then rfmts st
      else put rowIdx (colIdx st) (notable_format r) (rfmts st).
Proof.
  intros H.
  assert (make_format (StyleMap.VStyle r) = notable_format r) as Hf.
  { apply make_format_well_formed, parsed_well_formed.
    eapply built_get_parsed; [apply buildStyleMap_built|exact H]. }
  split; [done|].
  rewrite cell_step_formats. cbn zeta. rewrite H, Hf. cbn [StyleMap.truthy andb].
  case_decide as E.
  - apply format_size_0 in E. by rewrite E.
  - destruct (format_size (notable_format r)) eqn:F; [|done].
    by apply format_size_0 in F.
Qed.

Lemma cell_format_is_notable_part_witness :
  make_format (StyleMap.VStyle Samples.empty_family_style)
  = notable_format Samples.empty_family_style
  ∧ rfmts (cell_step (buildStyleMap Samples.empty_family) 0
             {| colIdx := 0; rowData := []; rfmts := ∅; rbrds := ∅ |}
             (str " class='s1'", str "x"))
    = if decide (notable_format Samples.empty_family_style = no_format) then ∅
      else put 0 0 (notable_format Samples.empty_family_style) ∅.
Proof.
  apply (cell_format_is_notable_part Samples.empty_family
           Samples.empty_family_style 0
           {| colIdx := 0; rowData := []; rfmts := ∅; rbrds := ∅ |}
           (str " class='s1'") (str "x")).
  vm_compute. reflexivity.
Defined.

(** The class of a cell is the whole trimmed value of its attribute,
    and with white space inside it only an own property of the class
    map answers it. *)
Lemma composite_class_lookup
    (styleMap : StyleMap.t) (attrs v : list N) (c : N) :
  classMatch attrs = Some v →
  c ∈ trim v → is_space c = true →
  cell_class attrs = trim v
  ∧ StyleMap.get styleMap (cell_class attrs)
    = match StyleMap.own styleMap !! trim v with
      | Some r => StyleMap.VStyle r
      | None => StyleMap.VUndefined
      end.
Proof.
  intros Hm Hc Hs.
  assert (cell_class attrs = trim v) as E by (unfold cell_class; by rewrite Hm).
  split; [done|]. rewrite E. by apply (get_spaced _ _ c).
Qed.

(** C8.  A class attribute of several tokens separated by white space
    is trimmed and looked up as one key: what the cell resolves to is
    the own property of the class map under the whole trimmed value,
    whatever the map holds under the tokens, and without such a
    property the cell gets no format and no border entry. *)
Theorem composite_class_is_one_key
    (styleMap : StyleMap.t) (rowIdx : nat) (st : RowAcc)
    (attrs inner v : list N) (c : N) :
  classMatch attrs = Some v →
  c ∈ trim v → is_space c = true →
  cell_class attrs = trim v
  ∧ StyleMap.get styleMap (cell_class attrs)
    = match StyleMap.own styleMap !! trim v with
      | Some r => StyleMap.VStyle r
      | None => StyleMap.VUndefined
      end
  ∧ (StyleMap.own styleMap !! trim v = None →
     rfmts (cell_step styleMap rowIdx st (attrs, inner)) = rfmts st
     ∧ rbrds (cell_step styleMap rowIdx st (attrs, inner)) = rbrds st).
Proof.
  intros Hm Hc Hs.
  destruct (composite_class_lookup styleMap attrs v c Hm Hc Hs) as [E G].
  split; [done|]. split; [done|].
  intros Hnone. apply cell_step_unresolved. by rewrite G, Hnone.
Qed.

Lemma composite_class_is_one_key_witness :
  cell_class (str " class='s1 s2'") = trim (str "s1 s2")
  ∧ StyleMap.get (buildStyleMap Samples.two_classes) (cell_class (str " class='s1 s2'"))
    = match StyleMap.own (buildStyleMap Samples.two_classes) !! trim (str "s1 s2") with
      | Some r => StyleMap.VStyle r
      | None => StyleMap.VUndefined
      end
  ∧ (StyleMap.own (buildStyleMap Samples.two_classes) !! trim (str "s1 s2") = None →
     rfmts (cell_step (buildStyleMap Samples.two_classes) 0
              {| colIdx := 0; rowData := []; rfmts := ∅; rbrds := ∅ |}
              (str " class='s1 s2'", str "x")) = ∅
     ∧ rbrds (cell_step (buildStyleMap Samples.two_classes) 0
                {| colIdx := 0; rowData := []; rfmts := ∅; rbrds := ∅ |}
                (str " class='s1 s2'", str "x")) = ∅).
Proof.
  apply (composite_class_is_one_key (buildStyleMap Samples.two_classes) 0
           {| colIdx := 0; rowData := []; rfmts := ∅; rbrds := ∅ |}
           (str " class='s1 s2'") (str "x") (str "s1 s2") 32).
  - vm_compute. reflexivity.
  - vm_compute. set_solver.
  - reflexivity.
Defined.

(** In the class map of a document no key has white space, so a cell
    whose class attribute has several tokens is never styled, although
    each token may be a class of the map. *)
Lemma composite_class_never_styled
    (src : list N) (rowIdx : nat) (st : RowAcc) (attrs inner v : list N) (c : N) :
  classMatch attrs = Some v →
  c ∈ trim v → is_space c = true →
  rfmts (cell_step (buildStyleMap src) rowIdx st (attrs, inner)) = rfmts st
  ∧ rbrds (cell_step (buildStyleMap src) rowIdx st (attrs, inner)) = rbrds st.
Proof.
  intros Hm Hc Hs.
  destruct (composite_class_lookup (buildStyleMap src) attrs v c Hm Hc Hs)
    as [_ G].
  apply cell_step_unresolved. rewrite G.
  by rewrite (built_spaced _ _ c (buildStyleMap_built src) Hc Hs).
Qed.

Example two_classes_unstyled :
  convertDocument Samples.two_classes = inr Samples.two_classes_doc.
Proof. vm_compute. reflexivity. Qed.


(** ** Sizes *)

Section Sizes.

Implicit Types (val run u unit : list N).

Lemma match_number_unit_Some unit val run :
  match_number_unit unit val = Some run →
  run ≠ [] ∧ Forall (λ c, is_digdot c = true) run
  ∧ ∃ u, val = run ++ u ∧ agrees eq_ci unit u.
Proof.
  unfold match_number_unit.
  pose proof (span_split is_digdot val) as Hs.
  pose proof (span_all is_digdot val) as Ha.
  destruct (span is_digdot val) as [run' r]. cbn in Hs, Ha.
  destruct run' as [|c run']; [done|].
  destruct (strip_prefix eq_ci unit r) as [[|? ?]|] eqn:E; [|done..].
  intros [= <-]. split; [done|]. split; [done|].
  apply strip_prefix_Some in E as (u & -> & Hu). exists u.
  by rewrite app_nil_r in Hs.
Qed.

Lemma match_number_unit_app unit run u :
  run ≠ [] → Forall (λ c, is_digdot c = true) run →
  agrees eq_ci unit u →
  match u with [] => True | c :: _ => is_digdot c = false end →
  match_number_unit unit (run ++ u) = Some run.
Proof.
  intros Hne Hrun Hu Hhd. unfold match_number_unit.
  rewrite (span_app is_digdot run u Hrun Hhd).
  destruct run as [|c run]; [done|].
  rewrite <- (app_nil_r u). by rewrite (strip_prefix_app _ _ _ _ Hu).
Qed.

Lemma match_number_unit_other unit run u :
  Forall (λ c, is_digdot c = true) run →
  match u with [] => True | c :: _ => is_digdot c = false end →
  strip_prefix eq_ci unit u = None →
  match_number_unit unit (run ++ u) = None.
Proof.
  intros Hrun Hhd Hu. unfold match_number_unit.
  rewrite (span_app is_digdot run u Hrun Hhd), Hu. by destruct run.
Qed.

Lemma letter_p x : eq_ci 112 x = true → x = 112 ∨ x = 80.
Proof. unfold eq_ci, canon, is_lower. char_cases. Qed.

Lemma letter_t x : eq_ci 116 x = true → x = 116 ∨ x = 84.
Proof. unfold eq_ci, canon, is_lower. char_cases. Qed.

Lemma letter_x x : eq_ci 120 x = true → x = 120 ∨ x = 88.
Proof. unfold eq_ci, canon, is_lower. char_cases. Qed.

(** The texts that are [pt], and those that are [px], in either case. *)
Lemma agrees_pt u :
  agrees eq_ci (str "pt") u →
  u ∈ [str "pt"; str "pT"; str "Pt"; str "PT"].
Proof.
  change (str "pt") with [112; 116]. intros H.
  apply Forall2_cons_inv_l in H as (x & u1 & Hx & H & ->).
  apply Forall2_cons_inv_l in H as (y & u2 & Hy & H & ->).
  apply Forall2_nil_inv_l in H as ->.
  apply letter_p in Hx as [-> | ->]; apply letter_t in Hy as [-> | ->];
    rewrite !elem_of_cons; auto.
Qed.

Lemma agrees_px u :
  agrees eq_ci (str "px") u →
  u ∈ [str "px"; str "pX"; str "Px"; str "PX"].
Proof.
  change (str "px") with [112; 120]. intros H.
  apply Forall2_cons_inv_l in H as (x & u1 & Hx & H & ->).
  apply Forall2_cons_inv_l in H as (y & u2 & Hy & H & ->).
  apply Forall2_nil_inv_l in H as ->.
  apply letter_p in Hx as [-> | ->]; apply letter_x in Hy as [-> | ->];
    rewrite !elem_of_cons; auto.
Qed.

(** A run of digits and dots followed by [pt]. *)
Lemma parsePtPx_pt run u :
  run ≠ [] → Forall (λ c, is_digdot c = true) run →
  agrees eq_ci (str "pt") u →
  parsePtPx (run ++ u) = Some (Math_round (mul (parseFloat run) c1333)).
Proof.
  intros Hne Hrun Hu. unfold parsePtPx.
  rewrite match_number_unit_app; [done..|].
  apply agrees_pt in Hu. rewrite !elem_of_cons, elem_of_nil in Hu.
  destruct Hu as [->|[->|[->|[->|[]]]]]; reflexivity.
Qed.

(** A run of digits and dots followed by [px]. *)
Lemma parsePtPx_px run u :
  run ≠ [] → Forall (λ c, is_digdot c = true) run →
  agrees eq_ci (str "px") u →
  parsePtPx (run ++ u) = Some (Math_round (parseFloat run)).
Proof.
  intros Hne Hrun Hu. unfold parsePtPx.
  pose proof (agrees_px u Hu) as Hu'. rewrite !elem_of_cons, elem_of_nil in Hu'.
  rewrite match_number_unit_other; [|done|..].
  - rewrite match_number_unit_app; [done..|].
    destruct Hu' as [->|[->|[->|[->|[]]]]]; reflexivity.
  - destruct Hu' as [->|[->|[->|[->|[]]]]]; reflexivity.
  - destruct Hu' as [->|[->|[->|[->|[]]]]]; reflexivity.
Qed.

(** Nothing else is a size. *)
Lemma parsePtPx_Some val n :
  parsePtPx val = Some n →
  ∃ run u, val = run ++ u ∧ run ≠ [] ∧ Forall (λ c, is_digdot c = true) run
    ∧ (agrees eq_ci (str "pt") u ∨ agrees eq_ci (str "px") u).
Proof.
  unfold parsePtPx.
  destruct (match_number_unit (str "pt") val) as [run|] eqn:E.
  - intros _. apply match_number_unit_Some in E as (Hne & Hrun & u & -> & Hu).
    exists run, u. auto.
  - destruct (match_number_unit (str "px") val) as [run|] eqn:E'; [|done].
    intros _. apply match_number_unit_Some in E' as (Hne & Hrun & u & -> & Hu).
    exists run, u. auto.
Qed.

(** What [parseFloat] reads from a decimal numeral. *)
Lemma parseFloat_integer ip :
  ip ≠ [] → Forall (λ c, is_digit c = true) ip →
  parseFloat ip = of_decimal (decimal_value ip) 0.
Proof.
  intros Hne Hip. unfold parseFloat.
  rewrite (span_whole is_digit ip Hip). rewrite app_nil_r. by destruct ip.
Qed.

Lemma parseFloat_fraction ip fp rest :
  Forall (λ c, is_digit c = true) ip → Forall (λ c, is_digit c = true) fp →
  ip ≠ [] ∨ fp ≠ [] →
  match rest with [] => True | c :: _ => is_digit c = false end →
  parseFloat (ip ++ str "." ++ fp ++ rest)
  = of_decimal (decimal_value (ip ++ fp)) (length fp).
Proof.
  intros Hip Hfp Hne Hrest. unfold parseFloat.
  change (str ".") with [46]. cbn [app].
  rewrite (span_app is_digit ip (46 :: fp ++ rest) Hip eq_refl).
  rewrite (span_app is_digit fp rest Hfp Hrest). cbn [fst].
  destruct ip, fp; try done. by destruct Hne.
Qed.

(** The declaration [font-size]. *)
Lemma set_property_font_size val result :
  set_property (str "font-size") val result =
  match parsePtPx val with
  | Some n => if truthy n then set_fontSize n result else result
  | None => result
  end.
Proof. reflexivity. Qed.

End Sizes.


(** ** Colours *)

Section Colours.

Implicit Types (val hs o r g b : list N).

Lemma is_digit_not_space c : is_digit c = true → is_space c = false.
Proof.
  intros Hd. destruct (is_space c) eqn:Hs; [|done]. exfalso.
  unfold is_digit in Hd. unfold is_space in Hs.
  char_props Hd. char_props Hs. lia.
Qed.

Lemma trimStart_app (ws s : list N) :
  Forall (λ c, is_space c = true) ws →
  match s with [] => True | c :: _ => is_space c = false end →
  trimStart (ws ++ s) = s.
Proof. intros Hws Hs. unfold trimStart. by rewrite (span_app is_space ws s). Qed.

Lemma trimStart_spec (s : list N) :
  ∃ ws, s = ws ++ trimStart s ∧ Forall (λ c, is_space c = true) ws.
Proof.
  exists (span is_space s).1. split; [apply span_split|apply span_all].
Qed.

(** The hash sign and three to six hexadecimal digits. *)
Lemma is_hex_color_true val :
  is_hex_color val = true ↔
  ∃ hs, val = 35 :: hs ∧ Forall (λ c, is_hex c = true) hs
    ∧ (3 ≤ length hs ≤ 6)%nat.
Proof.
  unfold is_hex_color. split.
  - destruct val as [|x val]; [done|].
    pose proof (span_split is_hex val) as Hs.
    pose proof (span_all is_hex val) as Ha.
    destruct (span is_hex val) as [hs rest]. cbn in Hs, Ha.
    rewrite !andb_true_iff, bool_decide_eq_true, !Nat.leb_le, N.eqb_eq.
    intros [[[-> ->] H3] H6]. rewrite app_nil_r in Hs. subst. eauto.
  - intros (hs & -> & Hhs & H3 & H6).
    rewrite <- (app_nil_r hs) at 1. rewrite (span_app is_hex hs [] Hhs I).
    rewrite !andb_true_iff, bool_decide_eq_true, !Nat.leb_le. done.
Qed.

(** The pattern of [rgb(r, g, b)]. *)
Lemma match_rgb_Some val (c1 c2 c3 : list N) :
  match_rgb val = Some (c1, c2, c3) ↔
  ∃ o ws1 ws2,
    val = o ++ c1 ++ str "," ++ ws1 ++ c2 ++ str "," ++ ws2 ++ c3 ++ str ")"
    ∧ agrees eq_ci (str "rgb(") o
    ∧ c1 ≠ [] ∧ c2 ≠ [] ∧ c3 ≠ []
    ∧ Forall (λ c, is_digit c = true) c1
    ∧ Forall (λ c, is_digit c = true) c2
    ∧ Forall (λ c, is_digit c = true) c3
    ∧ Forall (λ c, is_space c = true) ws1
    ∧ Forall (λ c, is_space c = true) ws2.
Proof.
  unfold match_rgb. change (str ",") with [44]. change (str ")") with [41].
  split.
  - destruct (strip_prefix eq_ci (str "rgb(") val) as [r0|] eqn:E0; [|done].
    cbn [mbind option_bind].
    apply strip_prefix_Some in E0 as (o & -> & Ho).
    pose proof (span_split is_digit r0) as S1.
    pose proof (span_all is_digit r0) as A1.
    destruct (span is_digit r0) as [d1 r1]. cbn in S1, A1.
    case_bool_decide as N1; [done|].
    destruct (strip_prefix eq_ci [44] r1) as [r2|] eqn:E2; [|done].
    cbn [mbind option_bind].
    apply strip_prefix_Some in E2 as (k1 & -> & Hk1).
    apply Forall2_cons_inv_l in Hk1 as (x1 & k1' & Hx1 & Hk1 & ->).
    apply Forall2_nil_inv_l in Hk1 as ->.
    destruct (trimStart_spec r2) as (ws1 & S2 & W1).
    pose proof (span_split is_digit (trimStart r2)) as S3.
    pose proof (span_all is_digit (trimStart r2)) as A3.
    destruct (span is_digit (trimStart r2)) as [d2 r3]. cbn in S3, A3.
    case_bool_decide as N2; [done|].
    destruct (strip_prefix eq_ci [44] r3) as [r4|] eqn:E4; [|done].
    cbn [mbind option_bind].
    apply strip_prefix_Some in E4 as (k2 & -> & Hk2).
    apply Forall2_cons_inv_l in Hk2 as (x2 & k2' & Hx2 & Hk2 & ->).
    apply Forall2_nil_inv_l in Hk2 as ->.
    destruct (trimStart_spec r4) as (ws2 & S4 & W2).
    pose proof (span_split is_digit (trimStart r4)) as S5.
    pose proof (span_all is_digit (trimStart r4)) as A5.
    destruct (span is_digit (trimStart r4)) as [d3 r5]. cbn in S5, A5.
    case_bool_decide as N3; [done|].
    destruct (strip_prefix eq_ci [41] r5) as [[|? ?]|] eqn:E6; [|done..].
    apply strip_prefix_Some in E6 as (k3 & -> & Hk3).
    apply Forall2_cons_inv_l in Hk3 as (x3 & k3' & Hx3 & Hk3 & ->).
    apply Forall2_nil_inv_l in Hk3 as ->.
    intros [= <- <- <-].
    assert (∀ a x, eq_ci a x = true → a = 44 ∨ a = 41 → x = a) as Hpunct.
    { intros a x. unfold eq_ci, canon, is_lower. intros H [-> | ->]; revert H; char_cases. }
    apply Hpunct in Hx1 as ->; [|auto]. apply Hpunct in Hx2 as ->; [|auto].
    apply Hpunct in Hx3 as ->; [|auto].
    exists o, ws1, ws2. rewrite app_nil_r in S5.
    split; [|done]. rewrite S1. f_equal. f_equal. cbn [app]. f_equal.
    rewrite S2. f_equal. rewrite S3. f_equal. cbn [app]. f_equal.
    rewrite S4. f_equal. rewrite S5. done.
  - intros (o & ws1 & ws2 & -> & Ho & N1 & N2 & N3 & D1 & D2 & D3 & W1 & W2).
    rewrite (strip_prefix_app _ _ _ _ Ho). cbn [mbind option_bind].
    cbn [app].
    rewrite (span_app is_digit c1 (44 :: _) D1 eq_refl).
    rewrite bool_decide_eq_false_2 by done.
    change (strip_prefix eq_ci [44] (44 :: ?x)) with (Some x).
    cbn [mbind option_bind].
    assert (∀ d t, d ≠ [] → Forall (λ c, is_digit c = true) d →
              match d ++ t with [] => True | c :: _ => is_space c = false end)
      as Hhd.
    { intros d t Hd Hall. destruct d as [|x d]; [done|]. cbn.
      apply Forall_cons in Hall as [Hx _]. by apply is_digit_not_space. }
    rewrite (trimStart_app ws1 _ W1 (Hhd _ _ N2 D2)).
    rewrite (span_app is_digit c2 (44 :: _) D2 eq_refl).
    rewrite bool_decide_eq_false_2 by done.
    change (strip_prefix eq_ci [44] (44 :: ?x)) with (Some x).
    cbn [mbind option_bind].
    rewrite (trimStart_app ws2 _ W2 (Hhd _ _ N3 D3)).
    rewrite (span_app is_digit c3 [41] D3 eq_refl).
    rewrite bool_decide_eq_false_2 by done.
    reflexivity.
Qed.

Lemma decimal_value_acc (ds : list N) (acc : Z) :
  (0 ≤ acc)%Z → (0 ≤ fold_left (λ a c, 10 * a + digit_val c) ds acc)%Z.
Proof.
  revert acc. induction ds as [|d ds IH]; intros acc Hacc; cbn [fold_left]; [done|].
  apply IH. unfold digit_val. lia.
Qed.

Lemma decimal_value_nonneg (ds : list N) : (0 ≤ decimal_value ds)%Z.
Proof. by apply decimal_value_acc. Qed.

Lemma parseInt_digits ds :
  ds ≠ [] → Forall (λ c, is_digit c = true) ds →
  parseInt ds = integral (of_decimal (decimal_value ds) 0).
Proof.
  intros Hne Hds. unfold parseInt.
  rewrite (span_whole is_digit ds Hds). cbn [fst]. by destruct ds.
Qed.

Lemma hex_byte_table :
  forallb (λ k, bool_decide
                  (padStart0 2 (toString16 (integral (of_decimal (Z.of_nat k) 0)))
                   = hex_byte (N.of_nat k)))
          (seq 0 256) = true.
Proof. vm_compute. reflexivity. Qed.

(** A component that is at most 255 becomes the two digits of a byte. *)
Lemma hex_component_byte ds :
  ds ≠ [] → Forall (λ c, is_digit c = true) ds →
  (decimal_value ds ≤ 255)%Z →
  hex_component ds = hex_byte (Z.to_N (decimal_value ds)).
Proof.
  intros Hne Hds Hle. unfold hex_component. rewrite (parseInt_digits ds Hne Hds).
  pose proof (decimal_value_nonneg ds) as Hge.
  pose proof hex_byte_table as T. rewrite forallb_forall in T.
  assert (In (Z.to_nat (decimal_value ds)) (seq 0 256)) as Hin
    by (apply in_seq; lia).
  specialize (T _ Hin). cbv beta in T.
  rewrite Z2Nat.id, Z_nat_N in T by done.
  by apply bool_decide_eq_true in T.
Qed.

(** Every component gives two digits at least. *)
Lemma hex_component_length ds : (2 ≤ length (hex_component ds))%nat.
Proof.
  unfold hex_component, padStart0. rewrite length_app, length_replicate. lia.
Qed.

Lemma normColor_hex val hs :
  trim val = 35 :: hs → Forall (λ c, is_hex c = true) hs →
  (3 ≤ length hs ≤ 6)%nat →
  normColor val = Some (35 :: toLowerCase hs).
Proof.
  intros E Hhs Hlen. unfold normColor.
  assert (is_hex_color (trim val) = true) as ->.
  { apply is_hex_color_true. eauto. }
  by rewrite E.
Qed.

Lemma agrees_rgb_not_hash o (t : list N) :
  agrees eq_ci (str "rgb(") o → is_hex_color (o ++ t) = false.
Proof.
  change (str "rgb(") with [114; 103; 98; 40]. intros H.
  apply Forall2_cons_inv_l in H as (x & o' & Hx & _ & ->).
  cbn [app]. unfold is_hex_color.
  destruct (span is_hex (o' ++ t)) as [hs rest].
  assert ((x =? 35) = false) as ->; [|done].
  revert Hx. unfold eq_ci, canon, is_lower. char_cases.
Qed.

Lemma normColor_rgb val o r g b (ws1 ws2 : list N) :
  trim val = o ++ r ++ str "," ++ ws1 ++ g ++ str "," ++ ws2 ++ b ++ str ")" →
  agrees eq_ci (str "rgb(") o →
  r ≠ [] → g ≠ [] → b ≠ [] →
  Forall (λ c, is_digit c = true) r →
  Forall (λ c, is_digit c = true) g →
  Forall (λ c, is_digit c = true) b →
  Forall (λ c, is_space c = true) ws1 →
  Forall (λ c, is_space c = true) ws2 →
  normColor val
  = Some (str "#" ++ hex_component r ++ hex_component g ++ hex_component b).
Proof.
  intros E Ho N1 N2 N3 D1 D2 D3 W1 W2. unfold normColor. rewrite E.
  rewrite (agrees_rgb_not_hash o _ Ho).
  assert (match_rgb (o ++ r ++ str "," ++ ws1 ++ g ++ str "," ++ ws2 ++ b ++ str ")")
          = Some (r, g, b)) as ->; [|done].
  apply match_rgb_Some. exists o, ws1, ws2. done.
Qed.

(** Nothing else is a colour. *)
Lemma normColor_Some val c :
  normColor val = Some c →
  (∃ hs, trim val = 35 :: hs ∧ Forall (λ x, is_hex x = true) hs
     ∧ (3 ≤ length hs ≤ 6)%nat ∧ c = 35 :: toLowerCase hs)
  ∨ (∃ o r g b ws1 ws2,
       trim val = o ++ r ++ str "," ++ ws1 ++ g ++ str "," ++ ws2 ++ b ++ str ")"
       ∧ agrees eq_ci (str "rgb(") o
       ∧ r ≠ [] ∧ g ≠ [] ∧ b ≠ []
       ∧ Forall (λ x, is_digit x = true) r
       ∧ Forall (λ x, is_digit x = true) g
       ∧ Forall (λ x, is_digit x = true) b
       ∧ Forall (λ x, is_space x = true) ws1
       ∧ Forall (λ x, is_space x = true) ws2
       ∧ c = str "#" ++ hex_component r ++ hex_component g ++ hex_component b).
Proof.
  unfold normColor. destruct (is_hex_color (trim val)) eqn:E.
  - intros [= <-]. left. apply is_hex_color_true in E as (hs & E & Hhs & Hlen).
    exists hs. rewrite E. done.
  - destruct (match_rgb (trim val)) as [[[c1 c2] c3]|] eqn:M; [|done].
    intros [= <-]. right.
    apply match_rgb_Some in M
      as (o & ws1 & ws2 & M & Ho & N1 & N2 & N3 & D1 & D2 & D3 & W1 & W2).
    exists o, c1, c2, c3, ws1, ws2. done.
Qed.

(** The declarations [color] and [background-color]. *)
Lemma set_property_color val result :
  set_property (str "color") val result =
  match normColor val with
  | Some c => set_color c result
  | None => result
  end.
Proof. reflexivity. Qed.

Lemma set_property_background val result :
  set_property (str "background-color") val result =
  match normColor val with
  | Some c => set_bgColor c result
  | None => result
  end.
Proof. reflexivity. Qed.

End Colours.

(** ** Components of an [rgb] colour *)

Section Exact.

Lemma iter_double_pos p k :
  Pos.iter (Z.mul 2) (Z.pos p) k = Z.pos (Pos.iter xO p k).
Proof.
  induction k as [|k IH] using Pos.peano_ind; [done|].
  by rewrite !Pos.iter_succ, IH.
Qed.

Lemma digits2_pos_iter p k :
  digits2_pos (Pos.iter xO p k) = (digits2_pos p + k)%positive.
Proof.
  induction k as [|k IH] using Pos.peano_ind.
  - cbn. by rewrite Pos.add_1_r.
  - rewrite Pos.iter_succ. cbn [digits2_pos]. rewrite IH.
    by rewrite Pos.add_succ_r.
Qed.

Lemma iter_double_value p k :
  Z.pos (Pos.iter xO p k) = (Z.pos p * 2 ^ Z.pos k)%Z.
Proof.
  rewrite <- iter_double_pos.
  change (Pos.iter (Z.mul 2) (Z.pos p) k) with (Z.shiftl (Z.pos p) (Z.pos k)).
  by rewrite Z.shiftl_mul_pow2.
Qed.

(** A significand of 54 bits that is even is rounded to its half,
    exactly. *)
Lemma binary_round_aux_even q e :
  digits2_pos q = 53%positive → (-1075 ≤ e ≤ 970)%Z →
  binary_round_aux prec emax false (Z.pos q~0) e loc_Exact
  = S754_finite false q (e + 1).
Proof.
  intros Hq He. unfold binary_round_aux, shr_fexp.
  assert (fexp prec emax (Zdigits2 (Z.pos q~0) + e) - e = 1)%Z as ->.
  { cbn [Zdigits2 digits2_pos]. rewrite Hq. unfold fexp, emin, prec, emax. lia. }
  cbn [shr SpecFloat.iter_pos shr_record_of_loc shr_1 orb shr_m loc_of_shr_record
       round_nearest_even].
  assert (fexp prec emax (Zdigits2 (Z.pos q) + (e + 1)) - (e + 1) = 0)%Z as ->.
  { cbn [Zdigits2]. rewrite Hq. unfold fexp, emin, prec, emax. lia. }
  cbn [shr shr_record_of_loc shr_m].
  assert ((e + 1 <=? emax - prec)%Z = true) as ->; [|done].
  apply Z.leb_le. unfold emax, prec. lia.
Qed.

Lemma digits2_pos_size p : digits2_pos p = Pos.size p.
Proof. induction p as [p IH|p IH|]; cbn; rewrite ?IH; reflexivity. Qed.

Lemma digits2_pos_bound p :
  (Z.pos p < 2 ^ 53)%Z → (Z.pos (digits2_pos p) ≤ 53)%Z.
Proof.
  intros H.
  rewrite digits2_pos_size.
  pose proof (Pos.size_le p) as Hle.
  destruct (Z.le_gt_cases (Z.pos (Pos.size p)) 53) as [|Hgt]; [done|exfalso].
  assert (2 ^ 54 ≤ 2 ^ Z.pos (Pos.size p))%Z by (apply Z.pow_le_mono_r; lia).
  assert (Z.pos (2 ^ Pos.size p) ≤ Z.pos p~0)%Z by (by apply Pos2Z.pos_le_pos).
  rewrite Pos2Z.inj_pow in *. lia.
Qed.

(** The double nearest to an integer below [2^53] is that integer. *)
Lemma of_decimal_exact p :
  (Z.pos p < 2 ^ 53)%Z → integral (of_decimal (Z.pos p) 0) = Int (Z.pos p).
Proof.
  intros Hp. pose proof (digits2_pos_bound p Hp) as Hd.
  unfold of_decimal. change (Z.to_pos (10 ^ Z.of_nat 0)) with 1%positive.
  unfold SFdiv, SFdiv_core_binary. cbn [xorb Zdigits2 digits2_pos].
  set (d := digits2_pos p) in *.
  assert (Z.min (fexp prec emax (Z.pos d + 0 - (1 + 0))) (0 - 0) = Z.pos d - 54)%Z
    as He.
  { unfold fexp, emin, prec, emax. lia. }
  rewrite He.
  destruct (0 - 0 - (Z.pos d - 54))%Z as [|k|k] eqn:Hk; [lia| |lia].
  change (Z.pos p ≪ Z.pos k)%Z with (Pos.iter (Z.mul 2) (Z.pos p) k).
  rewrite iter_double_pos.
  assert (IntDef.Z.div_eucl (Z.pos (Pos.iter xO p k)) 1
          = (Z.pos (Pos.iter xO p k), 0%Z)) as ->.
  { pose proof (Z.div_1_r (Z.pos (Pos.iter xO p k))) as H1.
    pose proof (Z.mod_1_r (Z.pos (Pos.iter xO p k))) as H2.
    unfold Z.div, Z.modulo in H1, H2.
    destruct (Z.div_eucl (Z.pos (Pos.iter xO p k)) 1) as [q r].
    by subst. }
  change (new_location 1 0) with loc_Exact.
  (* the shifted significand is even, and its half has 53 bits *)
  assert (∃ q, Pos.iter xO p k = q~0%positive ∧ digits2_pos q = 53%positive
               ∧ Z.pos q = (Z.pos p * 2 ^ (53 - Z.pos d))%Z) as (q & -> & Hq & Hv).
  { destruct (Pos.succ_pred_or k) as [->|Hs].
    - exists p. cbn. split; [done|]. fold d.
      assert (Z.pos d = 53)%Z as Hd53 by lia. split; [lia|].
      rewrite Hd53. cbn. lia.
    - rewrite <- Hs, Pos.iter_succ. exists (Pos.iter xO p (Pos.pred k)).
      split; [done|]. rewrite digits2_pos_iter, iter_double_value. fold d.
      assert (Z.pos (Pos.pred k) = 53 - Z.pos d)%Z as Hpk by lia.
      split; [lia|]. by rewrite Hpk. }
  rewrite binary_round_aux_even by (done || lia).
  unfold integral. rewrite Hv.
  destruct (Z.pos d - 54 + 1)%Z as [|e|e] eqn:E; [| lia |].
  - assert (Z.pos d = 53)%Z as -> by lia. f_equal. cbn. lia.
  - assert (53 - Z.pos d = Z.pos e)%Z as -> by lia. f_equal.
    apply Z.div_mul. pose proof (Z.pow_pos_nonneg 2 (Z.pos e)). lia.
Qed.

Lemma parseInt_exact (ds : list N) :
  ds ≠ [] → Forall (λ c, is_digit c = true) ds →
  (decimal_value ds < 2 ^ 53)%Z →
  parseInt ds = Int (decimal_value ds).
Proof.
  intros Hne Hds Hlt. rewrite (parseInt_digits ds Hne Hds).
  pose proof (decimal_value_nonneg ds) as Hge.
  destruct (decimal_value ds) as [|p|p] eqn:E; [done| |lia].
  by apply of_decimal_exact.
Qed.

(** A component below [2^53] becomes its own hexadecimal digits,
    padded to two. *)
Lemma hex_component_exact (ds : list N) :
  ds ≠ [] → Forall (λ c, is_digit c = true) ds →
  (decimal_value ds < 2 ^ 53)%Z →
  hex_component ds = padStart0 2 (hex_of_N (Z.to_N (decimal_value ds))).
Proof.
  intros Hne Hds Hlt. unfold hex_component.
  rewrite (parseInt_exact ds Hne Hds Hlt). unfold toString16.
  pose proof (decimal_value_nonneg ds) as Hge.
  assert ((decimal_value ds <? 0)%Z = false) as -> by (apply Z.ltb_ge; lia).
  cbn [app]. f_equal. f_equal. lia.
Qed.

Lemma hex_of_uint_digits (u : Hexadecimal.uint) :
  Forall (λ x, is_lower_hex_digit x = true) (hex_of_uint u).
Proof. induction u; cbn [hex_of_uint]; constructor; done. Qed.

Lemma hex_value_acc (u : Hexadecimal.uint) (acc : positive) :
  fold_left (λ a c, 16 * a + hex_digit_value c) (hex_of_uint u) (N.pos acc)
  = N.pos (Pos.of_hex_uint_acc u acc).
Proof.
  revert acc. induction u; intros acc; cbn [hex_of_uint fold_left Pos.of_hex_uint_acc];
    [done|..];
    match goal with
    | |- context [hex_digit_value (hex_digit ?k)] =>
        let v := eval vm_compute in (hex_digit_value (hex_digit k)) in
        change (hex_digit_value (hex_digit k)) with v
    end;
    match goal with
    | IH : ∀ acc, _ = N.pos (Pos.of_hex_uint_acc ?u acc)
      |- fold_left _ _ ?a = N.pos (Pos.of_hex_uint_acc ?u ?b) =>
        replace a with (N.pos b) by lia; apply IH
    end.
Qed.

Lemma hex_value_of_uint (u : Hexadecimal.uint) :
  hex_value (hex_of_uint u) = Pos.of_hex_uint u.
Proof.
  unfold hex_value.
  induction u; cbn [hex_of_uint fold_left Pos.of_hex_uint]; [done|..];
    match goal with
    | |- context [hex_digit_value (hex_digit ?k)] =>
        let v := eval vm_compute in (hex_digit_value (hex_digit k)) in
        change (hex_digit_value (hex_digit k)) with v
    end;
    first [ exact IHu | apply hex_value_acc ].
Qed.

(** The text [toString(16)] gives for a natural number is made of
    lower-case hexadecimal digits, and it denotes the number. *)
Lemma hex_of_N_digits (n : N) :
  Forall (λ x, is_lower_hex_digit x = true) (hex_of_N n)
  ∧ hex_value (hex_of_N n) = n.
Proof.
  unfold hex_of_N. split; [apply hex_of_uint_digits|].
  rewrite hex_value_of_uint. apply HexadecimalN.Unsigned.of_to.
Qed.

End Exact.


(** ** Cell text *)

Section CellText.

Implicit Types (s a b lit rep : list N).

(** Text without the first character of the literal is left as it
    is. *)
Lemma replaceAll_skip l0 lit rep a s :
  Forall (λ c, c ≠ l0) a →
  replaceAll (l0 :: lit) rep (a ++ s) = a ++ replaceAll (l0 :: lit) rep s.
Proof.
  intros Ha. induction Ha as [|c a Hc Ha IH]; [done|].
  cbn [app]. rewrite replaceAll_unfold by done.
  cbn [strip_prefix]. unfold eq_cs at 1.
  destruct (N.eqb_spec l0 c) as [->|_]; [done|]. by rewrite IH.
Qed.

Lemma replaceAll_absent l0 lit rep a :
  Forall (λ c, c ≠ l0) a → replaceAll (l0 :: lit) rep a = a.
Proof.
  intros Ha. rewrite <- (app_nil_r a) at 1. rewrite replaceAll_skip by done.
  by rewrite app_nil_r.
Qed.

(** An occurrence of the literal is replaced. *)
Lemma replaceAll_here lit rep s :
  lit ≠ [] → replaceAll lit rep (lit ++ s) = rep ++ replaceAll lit rep s.
Proof.
  intros Hlit. rewrite replaceAll_unfold by done.
  assert (strip_prefix eq_cs lit (lit ++ s) = Some s) as ->; [|done].
  apply strip_prefix_app. clear. induction lit; constructor; [|done].
  apply N.eqb_refl.
Qed.

Lemma remove_tags_plain a : Forall (λ c, c ≠ 60) a → remove_tags a = a.
Proof.
  intros Ha. induction Ha as [|c a Hc Ha IH]; [done|].
  rewrite remove_tags_unfold.
  destruct (N.eqb_spec c 60) as [->|_]; [done|]. by rewrite IH.
Qed.

(** The literals of the goal as lists of code units. *)
Ltac literals :=
  repeat match goal with
    | |- context [str ?s] =>
        let v := eval vm_compute in (str s) in change (str s) with v
    end.

(** One turn of a replacement loop at a character that is known. *)
Ltac replace_step :=
  rewrite replaceAll_unfold by done;
  cbn [app strip_prefix eq_cs N.eqb Pos.eqb].

Lemma nbsp_keeps_amp_lt a b :
  Forall (λ c, c ≠ 38) a → Forall (λ c, c ≠ 38) b →
  replaceAll (str "&nbsp;") (str " ") (a ++ str "&amp;lt;" ++ b)
  = a ++ str "&amp;lt;" ++ b.
Proof.
  intros Ha Hb. literals. rewrite replaceAll_skip by done.
  do 8 replace_step. by rewrite replaceAll_absent.
Qed.

Lemma amp_in_amp_lt a b :
  Forall (λ c, c ≠ 38) a → Forall (λ c, c ≠ 38) b →
  replaceAll (str "&amp;") (str "&") (a ++ str "&amp;lt;" ++ b)
  = a ++ str "&lt;" ++ b.
Proof.
  intros Ha Hb. literals. rewrite replaceAll_skip by done.
  do 4 replace_step. by rewrite replaceAll_absent.
Qed.

Lemma lt_in_lt a b :
  Forall (λ c, c ≠ 38) a → Forall (λ c, c ≠ 38) b →
  replaceAll (str "&lt;") (str "<") (a ++ str "&lt;" ++ b)
  = a ++ str "<" ++ b.
Proof.
  intros Ha Hb. literals. rewrite replaceAll_skip by done.
  do 1 replace_step. by rewrite replaceAll_absent.
Qed.

(** Around text that holds neither [<] nor [&], a doubly escaped
    less-than sign is decoded all the way. *)
Lemma stripTags_amp_lt a b :
  Forall (λ c, c ≠ 60 ∧ c ≠ 38) a → Forall (λ c, c ≠ 60 ∧ c ≠ 38) b →
  stripTags (a ++ str "&amp;lt;" ++ b) = trim (a ++ str "<" ++ b).
Proof.
  intros Ha Hb.
  assert (Forall (λ c, c ≠ 38) a) as Ha1
    by (eapply Forall_impl; [exact Ha|]; by intros ? []).
  assert (Forall (λ c, c ≠ 38) b) as Hb1
    by (eapply Forall_impl; [exact Hb|]; by intros ? []).
  assert (Forall (λ c, c ≠ 60) a) as Ha2
    by (eapply Forall_impl; [exact Ha|]; by intros ? []).
  assert (Forall (λ c, c ≠ 60) b) as Hb2
    by (eapply Forall_impl; [exact Hb|]; by intros ? []).
  unfold stripTags. f_equal.
  rewrite remove_tags_plain.
  2:{ apply Forall_app. split; [done|]. apply Forall_app. split; [|done].
      vm_compute. repeat constructor; discriminate. }
  rewrite nbsp_keeps_amp_lt, amp_in_amp_lt, lt_in_lt by done.
  assert (Forall (λ c, c ≠ 38) (a ++ str "<" ++ b)) as Hall.
  { apply Forall_app. split; [done|]. apply Forall_app. split; [|done].
    vm_compute. repeat constructor; discriminate. }
  change (str "&gt;") with (38 :: str "gt;").
  rewrite (replaceAll_absent 38 _ _ _ Hall).
  change (str "&quot;") with (38 :: str "quot;").
  rewrite (replaceAll_absent 38 _ _ _ Hall).
  change (str "&#39;") with (38 :: str "#39;").
  by rewrite (replaceAll_absent 38 _ _ _ Hall).
Qed.

End CellText.

(** C9.  The text of a cell is its markup without the tags, then with
    the entities replaced one after the other, the ampersand before the
    less-than sign, the greater-than sign, the quote and the
    apostrophe, then trimmed; so the doubly escaped [&amp;lt;] comes
    out as the less-than sign. *)
Theorem entities_are_replaced_in_sequence :
  (∀ html,
     stripTags html =
     trim (replaceAll (str "&#39;") (str "'")
          (replaceAll (str "&quot;") [dq]
          (replaceAll (str "&gt;") (str ">")
          (replaceAll (str "&lt;") (str "<")
          (replaceAll (str "&amp;") (str "&")
          (replaceAll (str "&nbsp;") (str " ")
          (remove_tags html))))))))
  ∧ stripTags (str "&amp;lt;") = str "<"
  ∧ (∀ a b, Forall (λ c, c ≠ 60 ∧ c ≠ 38) a → Forall (λ c, c ≠ 60 ∧ c ≠ 38) b →
       stripTags (a ++ str "&amp;lt;" ++ b) = trim (a ++ str "<" ++ b))
  ∧ stripTags (str "&amp;gt;") = str ">"
  ∧ stripTags (str "&amp;quot;") = [dq]
  ∧ stripTags (str "&amp;#39;") = str "'"
  ∧ stripTags (str "<b>1 &amp;lt; 2</b>") = str "1 < 2"
  ∧ stripTags (str "&lt;b&gt;x") = str "<b>x".
Proof.
  split; [reflexivity|].
  split; [vm_compute; reflexivity|].
  split; [apply stripTags_amp_lt|].
  repeat split; vm_compute; reflexivity.
Qed.

(** ** Sizes and colours: the statements of the specification *)

(** C6, as stated, fails: a run of digits and dots that is no decimal
    number, followed by [pt], is a size. *)
Lemma dotted_run_is_a_size :
  is_decimal_numeral (str "1.2.3") = false
  ∧ parsePtPx (str "1.2.3pt") = Some (Int 2)
  ∧ fontSize (parseCssClass (str "font-size:1.2.3pt")) = Some (Int 2).
Proof. repeat split; vm_compute; reflexivity. Qed.

(** C6, amended.  A run of digits and dots that is not empty,
    followed by [pt] in either case, is the size
    [Math.round(parseFloat(run) * 1.333)], and followed by [px] it is
    [Math.round(parseFloat(run))]; nothing else is a size.
    [parseFloat] reads a decimal numeral as the double nearest to it,
    so [12pt] is 16.  The property [fontSize] is set to a size that is
    neither zero nor NaN, and is left out otherwise. *)
Theorem font_size_of_digit_dot_run :
  (∀ run u, run ≠ [] → Forall (λ c, is_digdot c = true) run →
     agrees eq_ci (str "pt") u →
     parsePtPx (run ++ u) = Some (Math_round (mul (parseFloat run) c1333)))
  ∧ (∀ run u, run ≠ [] → Forall (λ c, is_digdot c = true) run →
       agrees eq_ci (str "px") u →
       parsePtPx (run ++ u) = Some (Math_round (parseFloat run)))
  ∧ (∀ val n, parsePtPx val = Some n →
       ∃ run u, val = run ++ u ∧ run ≠ []
         ∧ Forall (λ c, is_digdot c = true) run
         ∧ (agrees eq_ci (str "pt") u ∨ agrees eq_ci (str "px") u))
  ∧ (∀ ip, ip ≠ [] → Forall (λ c, is_digit c = true) ip →
       parseFloat ip = of_decimal (decimal_value ip) 0)
  ∧ (∀ ip fp, Forall (λ c, is_digit c = true) ip →
       Forall (λ c, is_digit c = true) fp → ip ≠ [] ∨ fp ≠ [] →
       parseFloat (ip ++ str "." ++ fp)
       = of_decimal (decimal_value (ip ++ fp)) (length fp))
  ∧ (∀ val result,
       set_property (str "font-size") val result =
       match parsePtPx val with
       | Some n => if truthy n then set_fontSize n result else result
       | None => result
       end)
  ∧ parsePtPx (str "12pt") = Some (Int 16)
  ∧ parsePtPx (str "16px") = Some (Int 16)
  ∧ parsePtPx (str "12em") = None
  ∧ fontSize (parseCssClass (str "font-size:0pt")) = None
  ∧ fontSize (parseCssClass (str "font-size:12em")) = None.
Proof.
  split; [apply parsePtPx_pt|].
  split; [apply parsePtPx_px|].
  split; [apply parsePtPx_Some|].
  split; [apply parseFloat_integer|].
  split.
  { intros ip fp Hip Hfp Hne.
    rewrite <- (app_nil_r fp) at 1. by apply parseFloat_fraction. }
  split; [apply set_property_font_size|].
  repeat split; vm_compute; reflexivity.
Qed.

(** C3, as stated, fails: four hexadecimal digits are a colour, and a
    component above 255 gives more than two digits. *)
Lemma four_digit_hex_is_a_colour :
  normColor (str "#ABCD") = Some (str "#abcd")
  ∧ color (parseCssClass (str "color:#ABCD")) = Some (str "#abcd")
  ∧ normColor (str "rgb(300,0,0)") = Some (str "#12c0000").
Proof. repeat split; vm_compute; reflexivity. Qed.

(** C3, amended.  A value that, trimmed, is the hash sign and three to
    six hexadecimal digits is returned trimmed and in lower case; a
    value that, trimmed, is [rgb(r,g,b)] with [rgb] in either case,
    decimal components and optional white space after the commas
    becomes the hash sign and, for each component, the text in base
    16 of the Number [parseInt] reads from it, padded with zeros to
    two characters at least.  For a component below [2^53] that text
    is the component's own digits in lower-case hexadecimal, which
    are the two digits of a byte when the component is at most 255;
    a larger component is rounded to the nearest double first, and
    one beyond the doubles gives the text [Infinity].  Nothing else
    is a colour, and then the property is left out. *)
Theorem colour_of_hex_or_rgb :
  (∀ val hs, trim val = 35 :: hs → Forall (λ c, is_hex c = true) hs →
     (3 ≤ length hs ≤ 6)%nat →
     normColor val = Some (35 :: toLowerCase hs))
  ∧ (∀ val o r g b ws1 ws2,
       trim val = o ++ r ++ str "," ++ ws1 ++ g ++ str "," ++ ws2 ++ b ++ str ")" →
       agrees eq_ci (str "rgb(") o →
       r ≠ [] → g ≠ [] → b ≠ [] →
       Forall (λ c, is_digit c = true) r →
       Forall (λ c, is_digit c = true) g →
       Forall (λ c, is_digit c = true) b →
       Forall (λ c, is_space c = true) ws1 →
       Forall (λ c, is_space c = true) ws2 →
       normColor val
       = Some (str "#" ++ hex_component r ++ hex_component g ++ hex_component b))
  ∧ (∀ ds, ds ≠ [] → Forall (λ c, is_digit c = true) ds →
       (decimal_value ds ≤ 255)%Z →
       hex_component ds = hex_byte (Z.to_N (decimal_value ds)))
  ∧ (∀ ds, ds ≠ [] → Forall (λ c, is_digit c = true) ds →
       (decimal_value ds < 2 ^ 53)%Z →
       hex_component ds = padStart0 2 (hex_of_N (Z.to_N (decimal_value ds))))
  ∧ (∀ n, Forall (λ x, is_lower_hex_digit x = true) (hex_of_N n)
          ∧ hex_value (hex_of_N n) = n)
  ∧ (∀ ds, ds ≠ [] → Forall (λ c, is_digit c = true) ds →
       hex_component ds
       = padStart0 2 (toString16 (integral (of_decimal (decimal_value ds) 0))))
  ∧ (∀ ds, (2 ≤ length (hex_component ds))%nat)
  ∧ (∀ val c, normColor val = Some c →
       (∃ hs, trim val = 35 :: hs ∧ Forall (λ x, is_hex x = true) hs
          ∧ (3 ≤ length hs ≤ 6)%nat ∧ c = 35 :: toLowerCase hs)
       ∨ (∃ o r g b ws1 ws2,
            trim val = o ++ r ++ str "," ++ ws1 ++ g ++ str "," ++ ws2 ++ b ++ str ")"
            ∧ agrees eq_ci (str "rgb(") o
            ∧ r ≠ [] ∧ g ≠ [] ∧ b ≠ []
            ∧ Forall (λ x, is_digit x = true) r
            ∧ Forall (λ x, is_digit x = true) g
            ∧ Forall (λ x, is_digit x = true) b
            ∧ Forall (λ x, is_space x = true) ws1
            ∧ Forall (λ x, is_space x = true) ws2
            ∧ c = str "#" ++ hex_component r ++ hex_component g ++ hex_component b))
  ∧ (∀ val result,
       set_property (str "color") val result =
       match normColor val with
       | Some c => set_color c result
       | None => result
       end)
  ∧ (∀ val result,
       set_property (str "background-color") val result =
       match normColor val with
       | Some c => set_bgColor c result
       | None => result
       end)
  ∧ normColor (str "#FF0000") = Some (str "#ff0000")
  ∧ normColor (str "rgb(255, 0, 0)") = Some (str "#ff0000")
  ∧ normColor (str "blue") = None
  ∧ color (parseCssClass (str "color:blue")) = None
  ∧ normColor (str "rgb(300,0,0)") = Some (str "#12c0000")
  ∧ normColor (str "rgb(9007199254740993,0,0)")
    = Some (str "#200000000000000000")
  ∧ normColor (str "rgb(" ++ replicate 400 57 ++ str ",0,0)")
    = Some (str "#Infinity0000").
Proof.
  split; [apply normColor_hex|].
  split; [apply normColor_rgb|].
  split; [apply hex_component_byte|].
  split; [apply hex_component_exact|].
  split; [apply hex_of_N_digits|].
  split.
  { intros ds Hne Hds. unfold hex_component. by rewrite parseInt_digits. }
  split; [apply hex_component_length|].
  split; [apply normColor_Some|].
  split; [apply set_property_color|].
  split; [apply set_property_background|].
  repeat split; vm_compute; reflexivity.
Qed.


(** ** The order of the keys *)

Section Order.

Context {A : Type}.

#[local] Instance key_le_total : Total (@key_le A).
Proof. intros a b. unfold key_le. lia. Qed.

#[local] Instance key_le_trans : Transitive (@key_le A).
Proof. intros a b c. unfold key_le. lia. Qed.

(** The entries of an object with index keys are enumerated in
    ascending order of the key, each entry once, whatever the order
    in which they were created. *)
Lemma sorted_entries_ascending (m : gmap nat A) :
  StronglySorted (λ a b : nat * A, (a.1 < b.1)%nat) (sorted_entries m).
Proof.
  unfold sorted_entries.
  pose proof (StronglySorted_merge_sort key_le (map_to_list m)) as Hs.
  assert (NoDup (merge_sort key_le (map_to_list m)).*1) as Hn.
  { rewrite merge_sort_Permutation. apply NoDup_fst_map_to_list. }
  induction Hs as [|a l Hs IH Ha]; [constructor|].
  cbn in Hn. apply NoDup_cons in Hn as [Hnotin Hn].
  constructor; [by apply IH|].
  rewrite Forall_forall in Ha. apply Forall_forall. intros b Hb.
  specialize (Ha b Hb). unfold key_le in Ha.
  destruct (decide (a.1 = b.1)) as [E|]; [|lia].
  exfalso. apply Hnotin. rewrite E. apply list_elem_of_fmap.
  by exists b.
Qed.

Lemma sorted_entries_lookup (m : gmap nat A) k v :
  (k, v) ∈ sorted_entries m ↔ m !! k = Some v.
Proof.
  unfold sorted_entries. rewrite merge_sort_Permutation.
  apply elem_of_map_to_list.
Qed.

End Order.

(** The end-to-end example of the specification. *)
Example hi_there_serialised :
  convertHtml Samples.hi_there
  = inr (quoted "{`version`:1,`data`:[[`Hi`,`There`]],`formats`:{`0`:{`0`:{`bold`:true,`color`:`#ff0000`}}},`borders`:{}}").
Proof. vm_compute. reflexivity. Qed.

Example trailing_styled_serialised :
  convertHtml Samples.trailing_styled
  = inr (quoted "{`version`:1,`data`:[[`x`]],`formats`:{`0`:{`0`:{`bold`:true}},`1`:{`0`:{`bold`:true}}},`borders`:{`0`:{`0`:{`top`:true,`bottom`:false,`left`:false,`right`:false}},`1`:{`0`:{`top`:true,`bottom`:false,`left`:false,`right`:false}}}}").
Proof. vm_compute. reflexivity. Qed.


(** ** The statements at sample inputs *)

Lemma entities_are_replaced_in_sequence_witness :
  stripTags (str "1 " ++ str "&amp;lt;" ++ str " 2") = trim (str "1 " ++ str "<" ++ str " 2").
Proof.
  destruct entities_are_replaced_in_sequence as (_ & _ & H & _).
  apply (H (str "1 ") (str " 2")); vm_compute; repeat constructor; discriminate.
Defined.

Lemma font_size_of_digit_dot_run_witness :
  parsePtPx (str "12.5" ++ str "PT")
  = Some (Math_round (mul (parseFloat (str "12.5")) c1333))
  ∧ parsePtPx (str "1.2.3" ++ str "px")
    = Some (Math_round (parseFloat (str "1.2.3"))).
Proof.
  destruct font_size_of_digit_dot_run as (Hpt & Hpx & _).
  split.
  - apply (Hpt (str "12.5") (str "PT")).
    + vm_compute. discriminate.
    + vm_compute. repeat constructor.
    + vm_compute. repeat constructor.
  - apply (Hpx (str "1.2.3") (str "px")).
    + vm_compute. discriminate.
    + vm_compute. repeat constructor.
    + vm_compute. repeat constructor.
Defined.

Lemma colour_of_hex_or_rgb_witness :
  normColor (str " #A1b2 ") = Some (35 :: toLowerCase (str "A1b2"))
  ∧ normColor (str "RGB(1, 20,255)")
    = Some (str "#" ++ hex_component (str "1") ++ hex_component (str "20")
            ++ hex_component (str "255"))
  ∧ hex_component (str "20") = hex_byte 20
  ∧ hex_component (str "4096")
    = padStart0 2 (hex_of_N (Z.to_N (decimal_value (str "4096")))).
Proof.
  destruct colour_of_hex_or_rgb as (Hhex & Hrgb & Hbyte & Hexact & _).
  split; [|split; [|split]].
  - apply (Hhex (str " #A1b2 ") (str "A1b2")).
    + vm_compute. reflexivity.
    + vm_compute. repeat constructor.
    + vm_compute. lia.
  - apply (Hrgb (str "RGB(1, 20,255)") (str "RGB(") (str "1") (str "20")
             (str "255") (str " ") []).
    + vm_compute. reflexivity.
    + vm_compute. repeat constructor.
    + vm_compute. discriminate.
    + vm_compute. discriminate.
    + vm_compute. discriminate.
    + vm_compute. repeat constructor.
    + vm_compute. repeat constructor.
    + vm_compute. repeat constructor.
    + vm_compute. repeat constructor.
    + constructor.
  - apply (Hbyte (str "20")).
    + vm_compute. discriminate.
    + vm_compute. repeat constructor.
    + vm_compute. discriminate.
  - apply (Hexact (str "4096")).
    + vm_compute. discriminate.
    + vm_compute. repeat constructor.
    + vm_compute. reflexivity.
Defined.


(** ** The testable properties of the specification, evaluated *)

Example border_left_solid :
  borderLeft (parseCssClass (str "border-left: 1px solid #000")) = Some true.
Proof. vm_compute. reflexivity. Qed.

Example border_left_none :
  borderLeft (parseCssClass (str "border-left: none")) = Some false
  ∧ any_border (make_borders (StyleMap.VStyle (parseCssClass (str "border-left: none"))))
    = false.
Proof. split; vm_compute; reflexivity. Qed.

Example font_family_first_not_generated :
  fontFamily (parseCssClass (str "font-family:docs-Foo, Arial, sans-serif"))
  = Some (str "Arial").
Proof. vm_compute. reflexivity. Qed.

Example font_family_all_generated :
  fontFamily (parseCssClass (str "font-family:'docs-Foo',docs-Bar"))
  = Some (str "docs-Foo").
Proof. vm_compute. reflexivity. Qed.

Example last_declaration_wins :
  color (parseCssClass (str "color:#111111;COLOR : #222222 ;color:red"))
  = Some (str "#222222").
Proof. vm_compute. reflexivity. Qed.

Example header_cells_are_skipped :
  elements (str "td") (str "<th>1</th><td>a</td><TD class='s1'>b</td>")
  = [([], str "a"); (str " class='s1'", str "b")].
Proof. vm_compute. reflexivity. Qed.

Example upper_case_tbody :
  tbodyMatch (str "<TABLE><TBODY><tr></tr></TBODY></TABLE>") = Some (str "<tr></tr>").
Proof. vm_compute. reflexivity. Qed.

Example tbody_with_space :
  tbodyMatch (str "<table><tbody ><tr></tr></tbody></table>") = None.
Proof. vm_compute. reflexivity. Qed.

Example summary_line :
  log_line Samples.trailing_styled_doc = str "  rows: 1, bordered cells: 2".
Proof. vm_compute. reflexivity. Qed.

(** White space that is not ASCII is trimmed, and the Kelvin sign is a
    [k] in lower case. *)
Example no_break_space_is_trimmed : stripTags ([160] ++ str "x" ++ [8195; 65279]) = str "x".
Proof. vm_compute. reflexivity. Qed.

Example kelvin_sign_in_a_key :
  bgColor (parseCssClass (str "bac" ++ [8490] ++ str "ground-color:#ABC"))
  = Some (str "#abc").
Proof. vm_compute. reflexivity. Qed.

(** The class map is an ordinary object.  A class named after a method
    of [Object.prototype] resolves to that method, which has none of
    the properties read; the class [__proto__] resolves to the style
    record assigned under that name; a class named after a property of
    that record resolves to the value of the property, and a string
    has the method [bold]. *)
Example classes_along_the_prototype_chain :
  convertHtml Samples.prototype_names
  = inr (quoted "{`version`:1,`data`:[[`a`,`b`,`c`,`d`]],`formats`:{`0`:{`1`:{`italic`:true,`color`:`#ff0000`},`2`:{`bold`:true}}},`borders`:{}}").
Proof. vm_compute. reflexivity. Qed.


(** * More of the converter *)

(** ** Trimming *)

Section TrimFacts.

Implicit Types (s a b m ws : list N) (p : N → bool).

Lemma span_app_all p a s :
  Forall (λ c, p c = true) a →
  span p (a ++ s) = (a ++ (span p s).1, (span p s).2).
Proof.
  intros Ha. induction Ha as [|c a Hc Ha IH]; cbn [app span].
  - by destruct (span p s).
  - rewrite Hc, IH. done.
Qed.

Lemma trimStart_spaces ws s :
  Forall (λ c, is_space c = true) ws → trimStart (ws ++ s) = trimStart s.
Proof. intros H. unfold trimStart. by rewrite span_app_all. Qed.

Lemma trimStart_all_spaces ws :
  Forall (λ c, is_space c = true) ws → trimStart ws = [].
Proof. intros H. unfold trimStart. by rewrite span_whole. Qed.

Lemma trimStart_head s c r : trimStart s = c :: r → is_space c = false.
Proof. apply span_stop. Qed.

Lemma trimStart_id s :
  match s with [] => True | c :: _ => is_space c = false end → trimStart s = s.
Proof. intros H. by apply (trimStart_app [] s). Qed.

Lemma trimStart_idemp s : trimStart (trimStart s) = trimStart s.
Proof.
  apply trimStart_id. destruct (trimStart s) as [|c r] eqn:E; [done|].
  by apply trimStart_head in E.
Qed.

(** What is cut at the start is white space, and the text goes on
    unchanged. *)
Lemma trimStart_snoc s b :
  trimStart s ≠ [] → trimStart (s ++ b) = trimStart s ++ b.
Proof.
  intros Hne. destruct (trimStart_spec s) as (ws & Hs & Hws).
  rewrite Hs at 1. rewrite <- app_assoc, trimStart_spaces by done.
  apply trimStart_id. destruct (trimStart s) as [|c r] eqn:E; [done|].
  cbn. by apply trimStart_head in E.
Qed.

Lemma trimEnd_spec s :
  ∃ ws, s = trimEnd s ++ ws ∧ Forall (λ c, is_space c = true) ws.
Proof.
  unfold trimEnd. destruct (trimStart_spec (reverse s)) as (ws & Hs & Hws).
  exists (reverse ws). split; [|by apply Forall_reverse].
  rewrite <- reverse_app, <- Hs. by rewrite reverse_involutive.
Qed.

Lemma trimEnd_last s c : last (trimEnd s) = Some c → is_space c = false.
Proof.
  unfold trimEnd. rewrite last_reverse. intros H.
  destruct (trimStart (reverse s)) as [|d r] eqn:E; [done|].
  injection H as ->. by apply trimStart_head in E.
Qed.

Lemma trimEnd_spaces s ws :
  Forall (λ c, is_space c = true) ws → trimEnd (s ++ ws) = trimEnd s.
Proof.
  intros H. unfold trimEnd. rewrite reverse_app, trimStart_spaces; [done|].
  by apply Forall_reverse.
Qed.

Lemma trimEnd_id s :
  match last s with None => True | Some c => is_space c = false end →
  trimEnd s = s.
Proof.
  intros H. unfold trimEnd. rewrite trimStart_id; [apply reverse_involutive|].
  rewrite <- (reverse_involutive s) in H. rewrite last_reverse in H.
  by destruct (reverse s).
Qed.

Lemma trimEnd_head s c r :
  is_space c = false → ∃ r', trimEnd (c :: r) = c :: r'.
Proof.
  intros Hc. destruct (trimEnd_spec (c :: r)) as (ws & Hs & Hws).
  destruct (trimEnd (c :: r)) as [|d r'] eqn:E.
  - cbn in Hs. subst ws. apply Forall_cons in Hws as [Hws _]. congruence.
  - injection Hs as -> _. eauto.
Qed.

(** The trimmed text has white space neither at its start nor at its
    end, and what was cut on both sides is white space. *)
Lemma trim_spec s :
  ∃ a b, s = a ++ trim s ++ b
    ∧ Forall (λ c, is_space c = true) a ∧ Forall (λ c, is_space c = true) b
    ∧ (∀ c r, trim s = c :: r → is_space c = false)
    ∧ (∀ c, last (trim s) = Some c → is_space c = false).
Proof.
  unfold trim. destruct (trimStart_spec s) as (a & Hs & Ha).
  destruct (trimEnd_spec (trimStart s)) as (b & Ht & Hb).
  exists a, b. split; [by rewrite <- Ht|]. split; [done|]. split; [done|].
  split; [|apply trimEnd_last].
  intros c r E. destruct (trimStart s) as [|d t] eqn:T; [done|].
  pose proof (trimStart_head _ _ _ T) as Hd.
  destruct (trimEnd_head s d t Hd) as (r' & E'). rewrite E' in E.
  by injection E as <- _.
Qed.

Lemma trim_id s :
  match s with [] => True | c :: _ => is_space c = false end →
  match last s with None => True | Some c => is_space c = false end →
  trim s = s.
Proof. intros H1 H2. unfold trim. by rewrite trimStart_id, trimEnd_id. Qed.

Lemma trim_idemp s : trim (trim s) = trim s.
Proof.
  destruct (trim_spec s) as (_ & _ & _ & _ & _ & H1 & H2).
  apply trim_id.
  - destruct (trim s) as [|c r] eqn:E; [done|]. by apply (H1 c r).
  - destruct (last (trim s)) as [c|] eqn:E; [|done]. by apply H2.
Qed.

(** White space around a text does not change what it is trimmed
    to. *)
Lemma trim_spaces a s b :
  Forall (λ c, is_space c = true) a → Forall (λ c, is_space c = true) b →
  trim (a ++ s ++ b) = trim s.
Proof.
  intros Ha Hb. unfold trim. rewrite trimStart_spaces by done.
  destruct (trimStart s) as [|c r] eqn:E.
  - destruct (trimStart_spec s) as (ws & Hs & Hws). rewrite E, app_nil_r in Hs.
    subst ws. rewrite trimStart_all_spaces; [done|]. by apply Forall_app.
  - rewrite trimStart_snoc by (by rewrite E). rewrite E.
    by apply trimEnd_spaces.
Qed.

End TrimFacts.


(** ** The text of a cell and the elements of the page *)

(** The str_literals of the source, written out as code units. *)
Ltac str_literals :=
  repeat match goal with
    | |- context [str ?s] =>
        let v := eval vm_compute in (str s) in change (str s) with v
    end.

Section TextFacts.

Implicit Types (s a b t pre post name attrs content rest : list N).

Lemma strip_prefix_Some_app eqc lit s r x :
  strip_prefix eqc lit s = Some r → strip_prefix eqc lit (s ++ x) = Some (r ++ x).
Proof.
  revert s. induction lit as [|l lit IH]; intros s; cbn.
  - by intros [= ->].
  - destruct s as [|c s]; [done|]. cbn. destruct (eqc l c); [apply IH|done].
Qed.

(** The text before the first occurrence of a literal does not hold
    the literal. *)
Lemma find_lit_before eqc lit s a b :
  lit ≠ [] → find_lit eqc lit s = Some (a, b) → find_lit eqc lit a = None.
Proof.
  intros Hlit. revert a. induction s as [|c s IH]; intros a; cbn [find_lit].
  - destruct (strip_prefix eqc lit []) eqn:E; [|done].
    intros [= <- <-]. by destruct lit.
  - destruct (strip_prefix eqc lit (c :: s)) eqn:E.
    + intros [= <- <-]. by destruct lit.
    + destruct (find_lit eqc lit s) as [[a' b']|] eqn:F; [|done].
      intros [= <- <-]. apply find_lit_None_cons. split; [|by apply IH].
      destruct (strip_prefix eqc lit (c :: a')) eqn:E'; [|done].
      pose proof (find_lit_Some _ _ _ _ _ F) as (o & -> & _).
      apply (strip_prefix_Some_app _ _ _ _ (o ++ b')) in E'.
      cbn [app] in E'. congruence.
Qed.

Lemma remove_tags_sublist s : sublist (remove_tags s) s.
Proof.
  remember (length s) as n eqn:Hn. revert s Hn.
  induction n as [n IH] using lt_wf_ind. intros s ->.
  rewrite remove_tags_unfold. destruct s as [|c r]; [constructor|].
  assert (Hr : sublist (remove_tags r) r) by (eapply IH; [|done]; cbn; lia).
  destruct (c =? 60); [|by constructor].
  pose proof (span_split (λ x, negb (x =? 62)) r) as Hs.
  destruct (span (λ x, negb (x =? 62)) r).2 as [|x after] eqn:E;
    [by constructor|].
  constructor. rewrite Hs. apply sublist_inserts_l. constructor.
  eapply IH; [|done]. apply (f_equal length) in Hs.
  rewrite length_app in Hs. cbn in *. lia.
Qed.

Lemma remove_tags_keeps (P : N → Prop) s :
  Forall P s → Forall P (remove_tags s).
Proof.
  rewrite !Forall_forall. intros H x Hx. apply H.
  eapply elem_of_sublist; [exact Hx|apply remove_tags_sublist].
Qed.

(** After a [<] that is left in the text no [>] follows. *)
Lemma remove_tags_no_tag s pre post :
  remove_tags s = pre ++ 60 :: post → Forall (λ c, c ≠ 62) post.
Proof.
  remember (length s) as n eqn:Hn. revert s pre Hn.
  induction n as [n IH] using lt_wf_ind. intros s pre ->.
  rewrite remove_tags_unfold. destruct s as [|c r]; [by destruct pre|].
  destruct (N.eqb_spec c 60) as [->|Hc].
  - pose proof (span_split (λ x, negb (x =? 62)) r) as Hs.
    pose proof (span_all (λ x, negb (x =? 62)) r) as Ha.
    destruct (span (λ x, negb (x =? 62)) r).2 as [|x after] eqn:E.
    + rewrite app_nil_r in Hs. rewrite <- Hs in Ha.
      assert (Hk : Forall (λ c, c ≠ 62) (remove_tags r)).
      { apply remove_tags_keeps. eapply Forall_impl; [exact Ha|].
        intros y Hy. cbn in Hy. char_props Hy. done. }
      destruct pre as [|p pre]; cbn.
      * by intros [= <-].
      * intros [= _ Hp]. rewrite Hp in Hk. apply Forall_app in Hk as [_ Hk].
        by apply Forall_cons in Hk as [_ Hk].
    + intros H. eapply IH; [|done|exact H].
      apply (f_equal length) in Hs. rewrite length_app in Hs. cbn in *. lia.
  - destruct pre as [|p pre]; cbn.
    + by intros [= H1 H2].
    + intros [= H1 H2]. eapply IH; [|done|exact H2]. cbn. lia.
Qed.

(** A complete tag is dropped. *)
Lemma remove_tags_tag a t b :
  Forall (λ c, c ≠ 60) a → Forall (λ c, c ≠ 62) t →
  remove_tags (a ++ [60] ++ t ++ [62] ++ b) = a ++ remove_tags b.
Proof.
  intros Ha Ht. induction Ha as [|c a Hc Ha IH].
  - cbn [app]. rewrite remove_tags_unfold. cbn [N.eqb Pos.eqb].
    rewrite (span_app _ t (62 :: b)); [done| |done].
    eapply Forall_impl; [exact Ht|]. intros x Hx. cbn.
    by apply negb_true_iff, N.eqb_neq.
  - cbn [app]. rewrite remove_tags_unfold.
    apply N.eqb_neq in Hc. rewrite Hc. f_equal. exact IH.
Qed.

Lemma stripTags_plain s :
  Forall (λ c, c ≠ 60 ∧ c ≠ 38) s → stripTags s = trim s.
Proof.
  intros H. unfold stripTags.
  assert (H60 : Forall (λ c, c ≠ 60) s) by (eapply Forall_impl; [exact H|]; by intros x [? ?]).
  assert (H38 : Forall (λ c, c ≠ 38) s) by (eapply Forall_impl; [exact H|]; by intros x [? ?]).
  rewrite remove_tags_plain by done. str_literals.
  by rewrite !(replaceAll_absent 38 _ _ _ H38).
Qed.

Lemma match_element_Some name s attrs content rest :
  match_element name s = Some (attrs, content, rest) →
  ∃ o c, s = o ++ attrs ++ [62] ++ content ++ c ++ rest
    ∧ agrees eq_ci (str "<" ++ name) o
    ∧ agrees eq_ci (str "</" ++ name ++ str ">") c
    ∧ Forall (λ x, x ≠ 62) attrs
    ∧ absent eq_ci (str "</" ++ name ++ str ">") content.
Proof.
  unfold match_element. intros H.
  destruct (strip_prefix eq_ci (str "<" ++ name) s) as [r0|] eqn:E0; [|done].
  cbn in H. apply strip_prefix_Some in E0 as (o & -> & Ho).
  pose proof (span_split (λ x, negb (x =? 62)) r0) as Hs.
  pose proof (span_all (λ x, negb (x =? 62)) r0) as Ha.
  pose proof (span_stop (λ x, negb (x =? 62)) r0) as Hstop.
  destruct (span (λ x, negb (x =? 62)) r0) as [at1 [|x r1]]; [done|].
  cbn in Hs, Ha, Hstop. specialize (Hstop _ _ eq_refl).
  apply negb_false_iff, N.eqb_eq in Hstop. subst x.
  destruct (find_lit eq_ci (str "</" ++ name ++ str ">") r1)
    as [[ct rs]|] eqn:F; [|done].
  cbn in H. injection H as -> -> ->.
  pose proof (find_lit_Some _ _ _ _ _ F) as (c & -> & Hc).
  exists o, c. split; [by rewrite Hs|]. split; [done|]. split; [done|].
  split.
  - eapply Forall_impl; [exact Ha|]. intros y Hy. cbn in Hy.
    by apply negb_true_iff, N.eqb_neq in Hy.
  - apply find_lit_absent. eapply find_lit_before; [|exact F].
    by str_literals.
Qed.

Lemma exec_element_Some name s attrs content rest :
  exec_element name s = Some (attrs, content, rest) →
  ∃ pre o c, s = pre ++ o ++ attrs ++ [62] ++ content ++ c ++ rest
    ∧ agrees eq_ci (str "<" ++ name) o
    ∧ agrees eq_ci (str "</" ++ name ++ str ">") c
    ∧ Forall (λ x, x ≠ 62) attrs
    ∧ absent eq_ci (str "</" ++ name ++ str ">") content.
Proof.
  induction s as [|x s IH]; cbn [exec_element].
  - destruct (match_element name []) as [[[a b] r]|] eqn:E; [|done].
    intros [= -> -> ->]. apply match_element_Some in E as (o & c & H).
    by exists [], o, c.
  - destruct (match_element name (x :: s)) as [[[a b] r]|] eqn:E.
    + intros [= -> -> ->]. apply match_element_Some in E as (o & c & H).
      by exists [], o, c.
    + intros H. destruct (IH H) as (pre & o & c & -> & H').
      by exists (x :: pre), o, c.
Qed.

End TextFacts.

(** X1.  Removing the tags only removes characters; a complete
    tag, from a [<] to the first [>] after it, is dropped; and in what
    is left no [<] is followed by a [>] any more. *)
Theorem remove_tags_removes_tags :
  (∀ s, sublist (remove_tags s) s)
  ∧ (∀ a t b, Forall (λ c, c ≠ 60) a → Forall (λ c, c ≠ 62) t →
       remove_tags (a ++ [60] ++ t ++ [62] ++ b) = a ++ remove_tags b)
  ∧ (∀ s pre post, remove_tags s = pre ++ 60 :: post →
       Forall (λ c, c ≠ 62) post).
Proof.
  split; [exact remove_tags_sublist|].
  split; [exact remove_tags_tag|exact remove_tags_no_tag].
Qed.

(** X2.  The text of a cell neither starts nor ends with a
    white-space character, whatever the markup of the cell. *)
Theorem cell_text_is_trimmed html :
  (∀ c r, stripTags html = c :: r → is_space c = false)
  ∧ (∀ c, last (stripTags html) = Some c → is_space c = false).
Proof.
  unfold stripTags.
  match goal with |- context [trim ?x] =>
    destruct (trim_spec x) as (_ & _ & _ & _ & _ & H1 & H2) end.
  split; [exact H1|exact H2].
Qed.

(** X3.  A cell content with neither [<] nor [&] is its own
    text, up to the white space around it; white space inside it is
    kept as it is. *)
Theorem plain_cell_text_is_trimmed_content a s b :
  Forall (λ c, c ≠ 60 ∧ c ≠ 38) s →
  Forall (λ c, is_space c = true) a → Forall (λ c, is_space c = true) b →
  stripTags (a ++ s ++ b) = trim s.
Proof.
  intros Hs Ha Hb. rewrite stripTags_plain; [by apply trim_spaces|].
  assert (Hsp : ∀ x, Forall (λ c, is_space c = true) x →
                     Forall (λ c, c ≠ 60 ∧ c ≠ 38) x).
  { intros x Hx. eapply Forall_impl; [exact Hx|]. intros c Hc.
    split; intros ->; done. }
  rewrite !Forall_app. auto.
Qed.

Lemma plain_cell_text_is_trimmed_content_witness :
  stripTags (str " " ++ str "a  b" ++ str " ") = trim (str "a  b").
Proof.
  apply (plain_cell_text_is_trimmed_content (str " ") (str "a  b") (str " "));
    vm_compute; repeat constructor; intros [=].
Defined.

(** X4.  The first element the scan returns is in the text: an
    opening tag with attributes that hold no [>], the content, and
    the first closing tag after it, so that the content holds no
    closing tag of its name; the scan goes on after that closing
    tag. *)
Theorem first_element_of_the_scan name s attrs content more :
  elements name s = (attrs, content) :: more →
  ∃ pre o c rest,
    s = pre ++ o ++ attrs ++ [62] ++ content ++ c ++ rest
    ∧ agrees eq_ci (str "<" ++ name) o
    ∧ agrees eq_ci (str "</" ++ name ++ str ">") c
    ∧ Forall (λ x, x ≠ 62) attrs
    ∧ absent eq_ci (str "</" ++ name ++ str ">") content
    ∧ more = elements name rest.
Proof.
  rewrite elements_unfold.
  destruct (exec_element name s) as [[[a b] r]|] eqn:E; [|done].
  intros [= -> -> <-].
  apply exec_element_Some in E as (pre & o & c & H1 & H2 & H3 & H4 & H5).
  by exists pre, o, c, r.
Qed.

Lemma first_element_of_the_scan_witness :
  ∃ pre o c rest,
    str "<tr><td id=1>x</td></tr>"
    = pre ++ o ++ str " id=1" ++ [62] ++ str "x" ++ c ++ rest
    ∧ agrees eq_ci (str "<" ++ str "td") o
    ∧ agrees eq_ci (str "</" ++ str "td" ++ str ">") c
    ∧ Forall (λ x, x ≠ 62) (str " id=1")
    ∧ absent eq_ci (str "</" ++ str "td" ++ str ">") (str "x")
    ∧ [] = elements (str "td") rest.
Proof.
  apply (first_element_of_the_scan (str "td") (str "<tr><td id=1>x</td></tr>")
           (str " id=1") (str "x") []).
  vm_compute. reflexivity.
Defined.


(** ** The table walk *)

Section Walk.

Context (styleMap : StyleMap.t).

Lemma entry_put {A} row col (v : A) (m : gmap nat (gmap nat A)) r c :
  entry (put row col v m) r c
  = if decide (r = row ∧ c = col) then Some v else entry m r c.
Proof.
  unfold entry, put. destruct (decide (r = row)) as [->|Hr].
  - rewrite lookup_insert_eq. cbn. destruct (decide (c = col)) as [->|Hc].
    + rewrite lookup_insert_eq. by rewrite decide_True.
    + rewrite lookup_insert_ne by done. rewrite decide_False by tauto.
      destruct (m !! row); [done|]. cbn. apply lookup_empty.
  - rewrite lookup_insert_ne by done. rewrite decide_False by tauto. done.
Qed.

Lemma entry_rows_below {A} (m : gmap nat (gmap nat A)) n r c :
  rows_below m n → (n ≤ r)%nat → entry m r c = None.
Proof.
  intros Hm Hr. unfold entry. destruct (m !! r) eqn:E; [|done].
  specialize (Hm r). rewrite E in Hm. specialize (Hm (mk_is_Some _ _ eq_refl)). lia.
Qed.

Lemma cell_step_colIdx rowIdx st cell :
  colIdx (cell_step styleMap rowIdx st cell) = S (colIdx st).
Proof. by destruct cell. Qed.

Lemma cell_step_rowData rowIdx st cell :
  rowData (cell_step styleMap rowIdx st cell) = rowData st ++ [stripTags cell.2].
Proof. by destruct cell. Qed.

Lemma cell_step_rfmts rowIdx st cell :
  rfmts (cell_step styleMap rowIdx st cell)
  = match cell_format styleMap cell with
    | Some v => put rowIdx (colIdx st) v (rfmts st)
    | None => rfmts st
    end.
Proof. destruct cell. unfold cell_step, cell_format. cbn. by destruct (_ && _). Qed.

Lemma cell_step_rbrds rowIdx st cell :
  rbrds (cell_step styleMap rowIdx st cell)
  = match cell_borders styleMap cell with
    | Some v => put rowIdx (colIdx st) v (rbrds st)
    | None => rbrds st
    end.
Proof. destruct cell. unfold cell_step, cell_borders. cbn. by destruct (_ && _). Qed.

Lemma cells_rowData rowIdx cells st :
  rowData (fold_left (cell_step styleMap rowIdx) cells st)
  = rowData st ++ map (λ cell, stripTags cell.2) cells.
Proof.
  revert st. induction cells as [|cell cells IH]; intros st; cbn [fold_left map].
  - by rewrite app_nil_r.
  - rewrite IH, cell_step_rowData, <- app_assoc. done.
Qed.

(** The entries of a sparse map after the loop over the cells of a
    row that starts at column [colIdx st]. *)
Lemma cells_entries {A} (proj : RowAcc → gmap nat (gmap nat A))
    (f : list N * list N → option A) rowIdx :
  (∀ st cell, proj (cell_step styleMap rowIdx st cell)
              = match f cell with
                | Some v => put rowIdx (colIdx st) v (proj st)
                | None => proj st
                end) →
  ∀ cells st r c,
    entry (proj (fold_left (cell_step styleMap rowIdx) cells st)) r c
    = if decide (r = rowIdx ∧ colIdx st ≤ c)%nat
      then match cells !! (c - colIdx st)%nat ≫= f with
           | Some v => Some v
           | None => entry (proj st) r c
           end
      else entry (proj st) r c.
Proof.
  intros Hstep cells. induction cells as [|cell cells IH]; intros st r c.
  - cbn [fold_left]. by destruct (decide _).
  - cbn [fold_left]. rewrite IH, cell_step_colIdx, Hstep.
    destruct (decide (r = rowIdx ∧ S (colIdx st) ≤ c)%nat) as [[-> Hc]|Hn].
    + rewrite decide_True by (split; [done|lia]).
      replace (c - colIdx st)%nat with (S (c - S (colIdx st))) by lia.
      cbn [lookup list_lookup]. 
      destruct (cells !! (c - S (colIdx st))%nat ≫= f); [done|].
      destruct (f cell); [|done]. rewrite entry_put.
      rewrite decide_False; [done|lia].
    + destruct (decide (r = rowIdx ∧ colIdx st ≤ c)%nat) as [[-> Hc]|Hn'].
      * assert (c = colIdx st) as ->
          by (destruct (decide (S (colIdx st) ≤ c)%nat); [tauto|lia]).
        rewrite Nat.sub_diag. cbn.
        destruct (f cell); [|done]. rewrite entry_put. by rewrite decide_True.
      * destruct (f cell); [|done]. rewrite entry_put.
        rewrite decide_False; [done|]. intros [-> ->]. apply Hn'. split; [done|lia].
Qed.

Lemma row_step_aoa acc row :
  aoa (row_step styleMap acc row)
  = aoa acc ++ [map (λ cell, stripTags cell.2) (elements (str "td") row.2)].
Proof. unfold row_step. cbn. by rewrite cells_rowData. Qed.

Lemma rows_aoa rows acc :
  aoa (fold_left (row_step styleMap) rows acc)
  = aoa acc
    ++ map (λ r, map (λ cell, stripTags cell.2) (elements (str "td") r.2)) rows.
Proof.
  revert acc. induction rows as [|row rows IH]; intros acc; cbn [fold_left map].
  - by rewrite app_nil_r.
  - rewrite IH, row_step_aoa, <- app_assoc. done.
Qed.

Lemma parseRows_aoa tbodyHtml :
  aoa (parseRows styleMap tbodyHtml) = cell_texts tbodyHtml.
Proof. unfold parseRows. by rewrite rows_aoa. Qed.

Lemma row_step_fmts acc row r c :
  rows_below (fmts acc) (length (aoa acc)) →
  entry (fmts (row_step styleMap acc row)) r c
  = if decide (r = length (aoa acc))
    then elements (str "td") row.2 !! c ≫= cell_format styleMap
    else entry (fmts acc) r c.
Proof.
  intros Hb. unfold row_step. cbn [fmts].
  rewrite (cells_entries rfmts (cell_format styleMap)) by apply cell_step_rfmts.
  cbn [colIdx rfmts]. rewrite Nat.sub_0_r.
  destruct (decide (r = length (aoa acc))) as [->|Hr].
  - rewrite decide_True by (split; [done|lia]).
    destruct (_ ≫= _); [done|]. exact (entry_rows_below _ _ _ _ Hb (le_n _)).
  - rewrite decide_False by tauto. done.
Qed.

Lemma row_step_brds acc row r c :
  rows_below (brds acc) (length (aoa acc)) →
  entry (brds (row_step styleMap acc row)) r c
  = if decide (r = length (aoa acc))
    then elements (str "td") row.2 !! c ≫= cell_borders styleMap
    else entry (brds acc) r c.
Proof.
  intros Hb. unfold row_step. cbn [brds].
  rewrite (cells_entries rbrds (cell_borders styleMap)) by apply cell_step_rbrds.
  cbn [colIdx rbrds]. rewrite Nat.sub_0_r.
  destruct (decide (r = length (aoa acc))) as [->|Hr].
  - rewrite decide_True by (split; [done|lia]).
    destruct (_ ≫= _); [done|]. exact (entry_rows_below _ _ _ _ Hb (le_n _)).
  - rewrite decide_False by tauto. done.
Qed.

Lemma rows_entries rows acc r c :
  rows_below (fmts acc) (length (aoa acc))
  ∧ rows_below (brds acc) (length (aoa acc)) →
  let acc' := fold_left (row_step styleMap) rows acc in
  entry (fmts acc') r c
  = (if decide (length (aoa acc) ≤ r)%nat
     then (rows !! (r - length (aoa acc))%nat
             ≫= λ row, elements (str "td") row.2 !! c ≫= cell_format styleMap)
     else entry (fmts acc) r c)
  ∧ entry (brds acc') r c
    = (if decide (length (aoa acc) ≤ r)%nat
       then (rows !! (r - length (aoa acc))%nat
               ≫= λ row, elements (str "td") row.2 !! c ≫= cell_borders styleMap)
       else entry (brds acc) r c).
Proof.
  revert acc. induction rows as [|row rows IH]; intros acc Hb; cbn [fold_left].
  - cbn. destruct Hb as [Hf Hr].
    destruct (decide _) as [Hle|]; [|done]. rewrite lookup_nil. cbn.
    split.
    + exact (entry_rows_below _ _ _ _ Hf Hle).
    + exact (entry_rows_below _ _ _ _ Hr Hle).
  - pose proof (row_step_rows styleMap acc row Hb) as Hb'.
    specialize (IH _ Hb'). cbn zeta in IH. destruct IH as [IHf IHb].
    rewrite IHf, IHb, row_step_length. destruct Hb as [Hf Hr].
    rewrite row_step_fmts, row_step_brds by done.
    split; repeat case_decide; try lia; subst; rewrite ?Nat.sub_diag; try done;
      (replace (r - length (aoa acc))%nat
         with (S (r - S (length (aoa acc)))) by lia); done.
Qed.

Lemma parseRows_entries tbodyHtml r c :
  let acc := parseRows styleMap tbodyHtml in
  entry (fmts acc) r c = cell_at tbodyHtml r c ≫= cell_format styleMap
  ∧ entry (brds acc) r c = cell_at tbodyHtml r c ≫= cell_borders styleMap.
Proof.
  unfold parseRows.
  pose proof (rows_entries (elements (str "tr") tbodyHtml)
                {| aoa := []; fmts := ∅; brds := ∅ |} r c) as H.
  cbn zeta in *. destruct H as [Hf Hb].
  { cbn. split; intros x; rewrite lookup_empty; by intros [? ?]. }
  rewrite Hf, Hb. cbn [aoa length]. rewrite decide_True by lia.
  rewrite Nat.sub_0_r. unfold cell_at.
  split; by destruct (elements (str "tr") tbodyHtml !! r).
Qed.

Lemma rows_inhabited_put {A} row col (v : A) m :
  rows_inhabited m → rows_inhabited (put row col v m).
Proof.
  intros Hm r cols. unfold put. destruct (decide (r = row)) as [->|Hr].
  - rewrite lookup_insert_eq. intros [= <-]. apply insert_non_empty.
  - rewrite lookup_insert_ne by done. apply Hm.
Qed.

Lemma cells_inhabited rowIdx cells st :
  rows_inhabited (rfmts st) ∧ rows_inhabited (rbrds st) →
  rows_inhabited (rfmts (fold_left (cell_step styleMap rowIdx) cells st))
  ∧ rows_inhabited (rbrds (fold_left (cell_step styleMap rowIdx) cells st)).
Proof.
  revert st. induction cells as [|cell cells IH]; intros st H; [done|].
  cbn [fold_left]. apply IH. rewrite cell_step_rfmts, cell_step_rbrds.
  destruct H as [Hf Hb]. split.
  - destruct (cell_format _ _); [by apply rows_inhabited_put|done].
  - destruct (cell_borders _ _); [by apply rows_inhabited_put|done].
Qed.

Lemma rows_fold_inhabited rows acc :
  rows_inhabited (fmts acc) ∧ rows_inhabited (brds acc) →
  rows_inhabited (fmts (fold_left (row_step styleMap) rows acc))
  ∧ rows_inhabited (brds (fold_left (row_step styleMap) rows acc)).
Proof.
  revert acc. induction rows as [|row rows IH]; intros acc H; [done|].
  cbn [fold_left]. apply IH. unfold row_step. cbn [fmts brds].
  by apply cells_inhabited.
Qed.

Lemma parseRows_inhabited tbodyHtml :
  rows_inhabited (fmts (parseRows styleMap tbodyHtml))
  ∧ rows_inhabited (brds (parseRows styleMap tbodyHtml)).
Proof.
  unfold parseRows. apply rows_fold_inhabited. cbn.
  split; intros r cols; by rewrite lookup_empty.
Qed.

Lemma cell_format_Some cell f :
  cell_format styleMap cell = Some f → (format_size f ≠ 0)%nat.
Proof.
  unfold cell_format. destruct (StyleMap.truthy _); [|done]. cbn [andb].
  destruct (Nat.eqb_spec (format_size (make_format
    (StyleMap.get styleMap (cell_class cell.1)))) 0) as [E|E];
    cbn [negb]; [done|].
  by intros [= <-].
Qed.

Lemma cell_borders_Some cell b :
  cell_borders styleMap cell = Some b → any_border b = true.
Proof.
  unfold cell_borders. destruct (StyleMap.truthy _); [|done]. cbn [andb].
  destruct (any_border _) eqn:E; [|done]. by intros [= <-].
Qed.

End Walk.


(** ** The class map *)

Section ClassRules.

Implicit Types (src name decls : list N) (rs : list (list N * list N)).

Lemma fold_left_bind {A B C} (f : A → C → A) (g : B → list C) (l : list B) a :
  fold_left f (l ≫= g) a = fold_left (λ a x, fold_left f (g x) a) l a.
Proof.
  revert a. induction l as [|x l IH]; intros a; [done|].
  cbn. rewrite fold_left_app. apply IH.
Qed.

Lemma buildStyleMap_all_rules src :
  buildStyleMap src
  = fold_left (λ m rule, StyleMap.set rule.1 (parseCssClass rule.2) m)
      (all_rules src) StyleMap.empty.
Proof. unfold buildStyleMap, all_rules. by rewrite fold_left_bind. Qed.

Lemma class_decls_snoc name rs rule :
  class_decls name (rs ++ [rule])
  = if decide (rule.1 = name) then Some rule.2 else class_decls name rs.
Proof.
  unfold class_decls. rewrite filter_app, filter_cons, filter_nil.
  destruct (decide (rule.1 = name)); [|by rewrite app_nil_r].
  by rewrite last_snoc.
Qed.

(** The own properties and the prototype of the class map after the
    assignments of a list of rules. *)
Lemma rules_fold_map rs :
  let m := fold_left (λ m rule, StyleMap.set rule.1 (parseCssClass rule.2) m)
             rs StyleMap.empty in
  (∀ name, StyleMap.own m !! name
           = if decide (name = str "__proto__") then None
             else parseCssClass <$> class_decls name rs)
  ∧ StyleMap.proto m = parseCssClass <$> class_decls (str "__proto__") rs.
Proof.
  induction rs as [|rule rs IH] using rev_ind; cbn zeta.
  - cbn. split; [|done]. intros name. rewrite lookup_empty. by destruct (decide _).
  - rewrite fold_left_app. cbn [fold_left]. cbn zeta in IH. destruct IH as [IHo IHp].
    unfold StyleMap.set. destruct (eqs rule.1 (str "__proto__")) eqn:E.
    + apply eqs_true in E. cbn [StyleMap.own StyleMap.proto]. split.
      * intros name. rewrite IHo. destruct (decide (name = _)) as [->|Hn]; [done|].
        rewrite class_decls_snoc. rewrite decide_False by congruence. done.
      * rewrite class_decls_snoc. by rewrite decide_True.
    + assert (rule.1 ≠ str "__proto__") as Hne.
      { unfold eqs in E. by apply bool_decide_eq_false in E. }
      cbn [StyleMap.own StyleMap.proto]. split.
      * intros name. rewrite class_decls_snoc.
        destruct (decide (rule.1 = name)) as [<-|Hn].
        -- rewrite lookup_insert_eq. by rewrite decide_False.
        -- rewrite lookup_insert_ne by done. apply IHo.
      * rewrite class_decls_snoc. rewrite decide_False by done. exact IHp.
Qed.

Lemma buildStyleMap_get_no_rule src name :
  class_decls name (all_rules src) = None →
  class_decls (str "__proto__") (all_rules src) = None →
  StyleMap.get (buildStyleMap src) name
  = if decide (name = str "__proto__") then StyleMap.VObject
    else StyleMap.object_prototype_get name.
Proof.
  intros H Hp'. rewrite buildStyleMap_all_rules.
  destruct (rules_fold_map (all_rules src)) as [Ho Hp]. cbn zeta in *.
  unfold StyleMap.get. rewrite Ho, Hp, Hp', H.
  destruct (decide (name = str "__proto__")) as [->|Hn]; [done|].
  cbn. destruct (eqs name (str "__proto__")) eqn:E; [|done].
  by apply eqs_true in E.
Qed.

(** A value of the prototype chain of the empty object gives a cell
    neither a format nor borders. *)
Lemma no_rule_no_entry name :
  let s := if decide (name = str "__proto__") then StyleMap.VObject
           else StyleMap.object_prototype_get name in
  format_size (make_format s) = 0%nat ∧ any_border (make_borders s) = false.
Proof.
  cbn zeta. destruct (decide _); [done|].
  unfold StyleMap.object_prototype_get. by destruct (bool_decide _).
Qed.

End ClassRules.


(** ** The document, cell by cell *)

(** X5.  The style of a class is the parse of the declarations of
    the last rule that names the class, in the order of the page, and
    of that rule alone: what earlier rules of the same class declared
    is dropped. *)
Theorem last_rule_of_a_class_is_its_style src name decls :
  class_decls name (all_rules src) = Some decls →
  StyleMap.get (buildStyleMap src) name = StyleMap.VStyle (parseCssClass decls).
Proof.
  intros H. rewrite buildStyleMap_all_rules.
  destruct (rules_fold_map (all_rules src)) as [Ho Hp]. cbn zeta in *.
  unfold StyleMap.get. rewrite Ho.
  destruct (decide (name = str "__proto__")) as [->|Hn].
  - rewrite Hp, H. done.
  - rewrite H. done.
Qed.

Lemma last_rule_of_a_class_is_its_style_witness :
  StyleMap.get
    (buildStyleMap
       (str "<style>.waffle .s0{font-weight:bold}.waffle .s0{color:#ff0000}</style>"))
    (str "s0")
  = StyleMap.VStyle (parseCssClass (str "color:#ff0000")).
Proof.
  apply (last_rule_of_a_class_is_its_style
           (str "<style>.waffle .s0{font-weight:bold}.waffle .s0{color:#ff0000}</style>")
           (str "s0") (str "color:#ff0000")).
  vm_compute. reflexivity.
Defined.



(** X7.  The entry of [formats] at a row and a column is what
    the cell the scans reach there gives: the format object of the
    value its class has in the class map, if that value is truthy and
    the object has a property; there is no entry where there is no
    cell.  The same holds of [borders]. *)
Theorem entries_are_those_of_the_cells src d :
  convertDocument src = inr d →
  ∃ tbodyHtml, tbodyMatch src = Some tbodyHtml
    ∧ ∀ r c,
        entry (formats d) r c
        = cell_at tbodyHtml r c ≫= cell_format (buildStyleMap src)
        ∧ entry (borders d) r c
          = cell_at tbodyHtml r c ≫= cell_borders (buildStyleMap src).
Proof.
  intros H. apply convertDocument_inr in H as (t & Ht & ->).
  exists t. split; [done|]. intros r c. cbn [formats borders].
  apply parseRows_entries.
Qed.

Lemma entries_are_those_of_the_cells_witness :
  ∃ tbodyHtml, tbodyMatch Samples.hi_there = Some tbodyHtml
    ∧ ∀ r c,
        entry (formats Samples.hi_there_doc) r c
        = cell_at tbodyHtml r c ≫= cell_format (buildStyleMap Samples.hi_there)
        ∧ entry (borders Samples.hi_there_doc) r c
          = cell_at tbodyHtml r c ≫= cell_borders (buildStyleMap Samples.hi_there).
Proof.
  apply (entries_are_those_of_the_cells Samples.hi_there Samples.hi_there_doc).
  vm_compute. reflexivity.
Defined.

(** X8.  The two maps are sparse in earnest: no row object is
    empty, every format object has a property and every border object
    has a side that is set. *)
Theorem sparse_maps_hold_no_empty_object src d :
  convertDocument src = inr d →
  rows_inhabited (formats d) ∧ rows_inhabited (borders d)
  ∧ (∀ r c f, entry (formats d) r c = Some f → (0 < format_size f)%nat)
  ∧ (∀ r c b, entry (borders d) r c = Some b → any_border b = true).
Proof.
  intros H. apply convertDocument_inr in H as (t & Ht & ->). cbn [formats borders].
  destruct (parseRows_inhabited (buildStyleMap src) t) as [Hf Hb].
  split; [done|]. split; [done|]. split.
  - intros r c f. destruct (parseRows_entries (buildStyleMap src) t r c) as [-> _].
    destruct (cell_at t r c) as [cell|]; [|done]. cbn. intros E.
    apply cell_format_Some in E. lia.
  - intros r c b. destruct (parseRows_entries (buildStyleMap src) t r c) as [_ ->].
    destruct (cell_at t r c) as [cell|]; [|done]. cbn.
    apply cell_borders_Some.
Qed.

Lemma sparse_maps_hold_no_empty_object_witness :
  rows_inhabited (formats Samples.hi_there_doc)
  ∧ rows_inhabited (borders Samples.hi_there_doc)
  ∧ (∀ r c f, entry (formats Samples.hi_there_doc) r c = Some f →
       (0 < format_size f)%nat)
  ∧ (∀ r c b, entry (borders Samples.hi_there_doc) r c = Some b →
       any_border b = true).
Proof.
  apply (sparse_maps_hold_no_empty_object Samples.hi_there).
  vm_compute. reflexivity.
Defined.

(** X9.  An entry at a row that the data keep is the entry of a
    cell of that row: its column is below the number of cells of the
    row. *)
Theorem entries_are_inside_their_rows src d r c :
  convertDocument src = inr d →
  is_Some (entry (formats d) r c) ∨ is_Some (entry (borders d) r c) →
  (r < length (data d))%nat →
  ∃ row, data d !! r = Some row ∧ (c < length row)%nat.
Proof.
  intros H He Hr. apply convertDocument_inr in H as (t & Ht & ->).
  cbn [formats borders data] in *.
  destruct (parseRows_entries (buildStyleMap src) t r c) as [Ef Eb].
  rewrite Ef, Eb in He. rewrite parseRows_aoa in *.
  assert (is_Some (cell_at t r c)) as [cell Hcell].
  { destruct (cell_at t r c); [done|]. cbn in He. destruct He as [[? ?]|[? ?]]; done. }
  unfold trimRows in *. rewrite length_take in Hr.
  rewrite lookup_take_lt by lia.
  unfold cell_at in Hcell. unfold cell_texts. rewrite list_lookup_fmap.
  destruct (elements (str "tr") t !! r) as [row|]; [|done]. cbn in *.
  eexists. split; [done|]. rewrite length_map.
  by apply lookup_lt_Some in Hcell.
Qed.

Lemma entries_are_inside_their_rows_witness :
  ∃ row, data Samples.hi_there_doc !! 0%nat = Some row ∧ (0 < length row)%nat.
Proof.
  apply (entries_are_inside_their_rows Samples.hi_there Samples.hi_there_doc 0 0).
  - vm_compute. reflexivity.
  - left. vm_compute. eauto.
  - vm_compute. lia.
Defined.

(** X10.  A cell whose class no rule of the page names gets
    neither a format nor borders, as long as no rule names
    [__proto__]; so a page without style rules has empty maps. *)
Theorem cells_without_a_rule_have_no_entry src d :
  convertDocument src = inr d →
  class_decls (str "__proto__") (all_rules src) = None →
  (∃ tbodyHtml, tbodyMatch src = Some tbodyHtml
     ∧ ∀ r c cell, cell_at tbodyHtml r c = Some cell →
         class_decls (cell_class cell.1) (all_rules src) = None →
         entry (formats d) r c = None ∧ entry (borders d) r c = None)
  ∧ (all_rules src = [] → formats d = ∅ ∧ borders d = ∅).
Proof.
  intros H Hp.
  assert (Hcell : ∀ cell, class_decls (cell_class cell.1) (all_rules src) = None →
            cell_format (buildStyleMap src) cell = None
            ∧ cell_borders (buildStyleMap src) cell = None).
  { intros cell Hc. unfold cell_format, cell_borders.
    rewrite (buildStyleMap_get_no_rule _ _ Hc Hp).
    destruct (no_rule_no_entry (cell_class cell.1)) as [-> ->].
    by rewrite !andb_false_r. }
  apply convertDocument_inr in H as (t & Ht & ->). cbn [formats borders].
  split.
  - exists t. split; [done|]. intros r c cell Hat Hc.
    destruct (parseRows_entries (buildStyleMap src) t r c) as [-> ->].
    rewrite Hat. cbn. by apply Hcell.
  - intros Hnil.
    assert (∀ r c, entry (fmts (parseRows (buildStyleMap src) t)) r c = None
                   ∧ entry (brds (parseRows (buildStyleMap src) t)) r c = None) as He.
    { intros r c.
      destruct (parseRows_entries (buildStyleMap src) t r c) as [-> ->].
      destruct (cell_at t r c) as [cell|]; [|done]. cbn.
      apply Hcell. by rewrite Hnil. }
    destruct (parseRows_inhabited (buildStyleMap src) t) as [Hf Hb].
    split; apply map_empty; intros r.
    + destruct (fmts _ !! r) as [cols|] eqn:E; [|done]. exfalso.
      apply (Hf r cols E). apply map_empty. intros c.
      destruct (He r c) as [He' _]. unfold entry in He'. by rewrite E in He'.
    + destruct (brds _ !! r) as [cols|] eqn:E; [|done]. exfalso.
      apply (Hb r cols E). apply map_empty. intros c.
      destruct (He r c) as [_ He']. unfold entry in He'. by rewrite E in He'.
Qed.

Lemma cells_without_a_rule_have_no_entry_witness :
  (∃ tbodyHtml, tbodyMatch Samples.two_classes = Some tbodyHtml
     ∧ ∀ r c cell, cell_at tbodyHtml r c = Some cell →
         class_decls (cell_class cell.1) (all_rules Samples.two_classes) = None →
         entry (formats Samples.two_classes_doc) r c = None
         ∧ entry (borders Samples.two_classes_doc) r c = None)
  ∧ (all_rules Samples.two_classes = [] →
     formats Samples.two_classes_doc = ∅ ∧ borders Samples.two_classes_doc = ∅).
Proof.
  apply (cells_without_a_rule_have_no_entry Samples.two_classes Samples.two_classes_doc);
    vm_compute; reflexivity.
Defined.


(** ** Declarations *)

Section Declarations.

Implicit Types (a b c d k v s pre post : list N) (r : StyleRecord).

Lemma split_nonempty sep s : split sep s ≠ [].
Proof.
  destruct s as [|x s]; cbn; [done|].
  destruct (x =? sep); [done|]. by destruct (split sep s).
Qed.

Lemma split_app sep a b :
  split sep (a ++ sep :: b) = split sep a ++ split sep b.
Proof.
  induction a as [|x a IH]; cbn [app split].
  - by rewrite N.eqb_refl.
  - destruct (x =? sep); [by rewrite IH|]. rewrite IH.
    pose proof (split_nonempty sep a) as Hne.
    by destruct (split sep a).
Qed.

Lemma parseCssClass_app a b :
  parseCssClass (a ++ [59] ++ b)
  = fold_left apply_decl (split 59 b) (parseCssClass a).
Proof. unfold parseCssClass. cbn [app]. by rewrite split_app, fold_left_app. Qed.

Lemma keeps_refl r : keeps r r.
Proof. unfold keeps. tauto. Qed.

Lemma keeps_trans r1 r2 r3 : keeps r1 r2 → keeps r2 r3 → keeps r1 r3.
Proof. unfold keeps. tauto. Qed.

Lemma families_nonempty val : families val ≠ [].
Proof.
  unfold families. pose proof (split_nonempty 44 val).
  by destruct (split 44 val).
Qed.

Lemma pick_family_families val :
  pick_family val
  = match List.find (λ f, negb (generated f)) (families val) with
    | Some (x :: f) => Some (x :: f)
    | _ => head (families val)
    end.
Proof. done. Qed.

Lemma pick_family_is_Some val : is_Some (pick_family val).
Proof.
  rewrite pick_family_families. pose proof (families_nonempty val) as Hne.
  destruct (List.find _ (families val)) as [[|x g]|]; [|done|];
    by destruct (families val).
Qed.

Lemma set_property_keeps key val r : keeps r (set_property key val r).
Proof.
  unfold set_property.
  repeat case_match; try apply keeps_refl;
    unfold keeps; cbn; repeat split; intros; try done;
    try apply pick_family_is_Some; by eexists.
Qed.

Lemma apply_decl_keeps r raw : keeps r (apply_decl r raw).
Proof.
  unfold apply_decl. destruct (cut_colon raw) as [[k v]|]; [|apply keeps_refl].
  apply set_property_keeps.
Qed.

Lemma decls_keep l r : keeps r (fold_left apply_decl l r).
Proof.
  revert r. induction l as [|raw l IH]; intros r; [apply keeps_refl|].
  cbn [fold_left]. eapply keeps_trans; [apply apply_decl_keeps|apply IH].
Qed.

Lemma find_lit_char x pre post :
  Forall (λ y, y ≠ x) pre →
  find_lit eq_cs [x] (pre ++ x :: post) = Some (pre, post).
Proof.
  intros H. induction H as [|y pre Hy H IH]; cbn [app find_lit strip_prefix].
  - unfold eq_cs. by rewrite N.eqb_refl.
  - unfold eq_cs at 1. apply not_eq_sym, N.eqb_neq in Hy. rewrite Hy.
    by rewrite IH.
Qed.

Lemma space_not_colon ws :
  Forall (λ y, is_space y = true) ws → Forall (λ y, y ≠ 58) ws.
Proof. intros H. eapply Forall_impl; [exact H|]. by intros y Hy ->. Qed.

Lemma apply_decl_cut r k v :
  Forall (λ y, y ≠ 58) k →
  apply_decl r (k ++ [58] ++ v)
  = set_property (toLowerCase (trim k)) (trim v) r.
Proof.
  intros Hk. unfold apply_decl, cut_colon.
  change (str ":") with [58]. cbn [app]. by rewrite find_lit_char.
Qed.

Lemma find_first_not_generated (pre : list (list N)) (g : list N)
    (post : list (list N)) :
  Forall (λ f, generated f = true) pre → generated g = false →
  List.find (λ f, negb (generated f)) (pre ++ g :: post) = Some g.
Proof.
  intros Hpre Hg. induction Hpre as [|f pre Hf Hpre IH]; cbn [app List.find].
  - by rewrite Hg.
  - by rewrite Hf.
Qed.

Lemma find_all_generated (l : list (list N)) :
  Forall (λ f, generated f = true) l →
  List.find (λ f, negb (generated f)) l = None.
Proof.
  intros H. induction H as [|f l Hf H IH]; [done|].
  cbn [List.find]. by rewrite Hf.
Qed.

End Declarations.

(** X11.  The declarations of a rule are applied one after the
    other, and none of them removes a property: what the declarations
    up to a semicolon have set is still set after the ones that
    follow, so that [font-weight: normal], say, does not undo an
    earlier [font-weight: bold]. *)
Theorem later_declarations_remove_nothing a b :
  parseCssClass (a ++ [59] ++ b)
  = fold_left apply_decl (split 59 b) (parseCssClass a)
  ∧ keeps (parseCssClass a) (parseCssClass (a ++ [59] ++ b)).
Proof.
  split; [apply parseCssClass_app|].
  rewrite parseCssClass_app. apply decls_keep.
Qed.

(** X12.  A declaration is cut at its first colon: the key is what
    stands before it, the value all that follows, further colons
    included; both are trimmed and the key is put in lower case, so
    white space around the key and around the value does not
    count. *)
Theorem white_space_around_key_and_value a k b c v d result :
  Forall (λ y, is_space y = true) a → Forall (λ y, is_space y = true) b →
  Forall (λ y, is_space y = true) c → Forall (λ y, is_space y = true) d →
  Forall (λ y, y ≠ 58) k →
  apply_decl result ((a ++ k ++ b) ++ [58] ++ (c ++ v ++ d))
  = set_property (toLowerCase (trim k)) (trim v) result
  ∧ apply_decl result ((a ++ k ++ b) ++ [58] ++ (c ++ v ++ d))
    = apply_decl result (k ++ [58] ++ v).
Proof.
  intros Ha Hb Hc Hd Hk.
  assert (apply_decl result ((a ++ k ++ b) ++ [58] ++ (c ++ v ++ d))
          = set_property (toLowerCase (trim k)) (trim v) result) as E.
  { rewrite apply_decl_cut.
    - by rewrite !trim_spaces.
    - rewrite !Forall_app. auto using space_not_colon. }
  split; [exact E|]. rewrite E. symmetry. by apply apply_decl_cut.
Qed.

Lemma white_space_around_key_and_value_witness :
  apply_decl no_style
    ((str " " ++ str "font-family" ++ str " ") ++ [58]
     ++ (str " " ++ str "a:b" ++ str " "))
  = set_property (toLowerCase (trim (str "font-family"))) (trim (str "a:b"))
      no_style
  ∧ apply_decl no_style
      ((str " " ++ str "font-family" ++ str " ") ++ [58]
       ++ (str " " ++ str "a:b" ++ str " "))
    = apply_decl no_style (str "font-family" ++ [58] ++ str "a:b").
Proof.
  apply (white_space_around_key_and_value (str " ") (str "font-family") (str " ")
           (str " ") (str "a:b") (str " ") no_style);
    vm_compute; repeat constructor; intros [=].
Defined.

(** The value of a declaration keeps its colons. *)
Example font_family_with_a_colon :
  fontFamily (apply_decl no_style (str "font-family:a:b")) = Some (str "a:b").
Proof. vm_compute. reflexivity. Qed.

(** X13.  A [font-family] declaration always sets a family, one of
    the listed ones (quotes removed, trimmed).  It is the first
    listed family that is not a generated one ([docs-...]) when that
    one is not the empty string; when that one is the empty string,
    or when every listed family is a generated one, it is the first
    of the list, whatever that one is. *)
Theorem font_family_is_a_listed_family val :
  is_Some (head (families val))
  ∧ (∀ pre g post,
       families val = pre ++ g :: post →
       Forall (λ f, generated f = true) pre → generated g = false →
       g ≠ [] → pick_family val = Some g)
  ∧ (∀ pre post,
       families val = pre ++ [] :: post →
       Forall (λ f, generated f = true) pre →
       pick_family val = head (families val))
  ∧ (Forall (λ f, generated f = true) (families val) →
     pick_family val = head (families val)).
Proof.
  rewrite pick_family_families.
  split.
  { pose proof (families_nonempty val). by destruct (families val). }
  split.
  { intros pre g post -> Hpre Hg Hne.
    rewrite (find_first_not_generated pre g post Hpre Hg). by destruct g. }
  split.
  { intros pre post -> Hpre.
    by rewrite (find_first_not_generated pre [] post Hpre eq_refl). }
  intros Hall. by rewrite (find_all_generated _ Hall).
Qed.

(** The fallback is the first of the list even when a later family
    would do. *)
Example font_family_after_an_empty_one :
  pick_family (str "docs-x, ,b") = Some (str "docs-x").
Proof. vm_compute. reflexivity. Qed.


(** ** Numbers and colours *)

Section Signs.

Lemma binary_round_aux_unsigned m e l :
  unsigned (binary_round_aux prec emax false m e l).
Proof.
  unfold binary_round_aux.
  destruct (shr_fexp prec emax m e l) as [mrs1 e1].
  destruct (shr_fexp prec emax _ e1 loc_Exact) as [mrs2 e2].
  destruct (shr_m mrs2); [done| |done].
  by destruct (_ <=? _)%Z.
Qed.

Lemma of_decimal_unsigned n k : unsigned (of_decimal n k).
Proof.
  unfold of_decimal. destruct n as [|p|p]; [done| |done].
  unfold SFdiv. destruct (SFdiv_core_binary _ _ _ _ _ _) as [[mz ez] lz].
  apply binary_round_aux_unsigned.
Qed.

Lemma parseFloat_unsigned s : unsigned (parseFloat s).
Proof.
  unfold parseFloat. destruct (span is_digit s) as [ip r].
  repeat case_match; try done; apply of_decimal_unsigned.
Qed.

Lemma c1333_finite : ∃ m e, c1333 = S754_finite false m e.
Proof. vm_compute. eauto. Qed.

Lemma mul_c1333_unsigned x : unsigned x → unsigned (mul x c1333).
Proof.
  destruct c1333_finite as (m & e & ->). unfold mul, SFmul.
  destruct x as [s|s| |s mx ex]; cbn [unsigned]; try done.
  - intros ->. done.
  - intros ->. done.
  - intros ->. apply binary_round_aux_unsigned.
Qed.

Lemma Math_round_unsigned x : unsigned x → unsigned_num (Math_round x).
Proof.
  unfold unsigned_num.
  destruct x as [s|s| |s m e]; cbn [unsigned Math_round].
  - intros _. right. right. exists 0%Z. done.
  - intros ->. auto.
  - auto.
  - intros ->. right. right. destruct e as [|q|d].
    + eexists. split; [done|]. lia.
    + eexists. split; [done|]. pose proof (Z.pow_pos_nonneg 2 (Z.pos q)). lia.
    + eexists. split; [done|].
      assert (0 < 2 ^ (Z.pos d - 1))%Z by (apply Z.pow_pos_nonneg; lia).
      apply Z.div_pos; lia.
Qed.

Lemma integral_unsigned x : unsigned x → unsigned_num (integral x).
Proof.
  unfold unsigned_num.
  destruct x as [s|s| |s m e]; cbn [unsigned integral].
  - intros _. right. right. exists 0%Z. done.
  - intros ->. auto.
  - auto.
  - intros ->. right. right. destruct e as [|q|d].
    + eexists. split; [done|]. lia.
    + eexists. split; [done|]. pose proof (Z.pow_pos_nonneg 2 (Z.pos q)). lia.
    + eexists. split; [done|].
      assert (0 < 2 ^ Z.pos d)%Z by (apply Z.pow_pos_nonneg; lia).
      apply Z.div_pos; lia.
Qed.

Lemma parsePtPx_unsigned val n : parsePtPx val = Some n → unsigned_num n.
Proof.
  unfold parsePtPx.
  destruct (match_number_unit (str "pt") val) as [run|].
  - intros [= <-]. apply Math_round_unsigned, mul_c1333_unsigned,
      parseFloat_unsigned.
  - destruct (match_number_unit (str "px") val) as [run|]; [|done].
    intros [= <-]. apply Math_round_unsigned, parseFloat_unsigned.
Qed.

Lemma truthy_unsigned_positive n :
  unsigned_num n → truthy n = true → positive_num n.
Proof.
  unfold positive_num. intros [->|[->|(z & -> & Hz)]] Ht; [done|auto|].
  right. exists z. split; [done|]. destruct z; [done|lia|lia].
Qed.

Lemma set_property_font_size_positive key val r :
  (∀ n, fontSize r = Some n → positive_num n) →
  ∀ n, fontSize (set_property key val r) = Some n → positive_num n.
Proof.
  intros Hr n. unfold set_property.
  repeat case_match; cbn; try apply Hr.
  intros [= <-]. apply truthy_unsigned_positive; [|done].
  by eapply parsePtPx_unsigned.
Qed.

Lemma decls_font_size_positive l r :
  (∀ n, fontSize r = Some n → positive_num n) →
  ∀ n, fontSize (fold_left apply_decl l r) = Some n → positive_num n.
Proof.
  revert r. induction l as [|raw l IH]; intros r Hr; [done|].
  cbn [fold_left]. apply IH. unfold apply_decl.
  destruct (cut_colon raw) as [[k v]|]; [|done].
  by apply set_property_font_size_positive.
Qed.

End Signs.

Section FixedColours.

Implicit Types (h hs val c : list N).

Lemma lower_hex_is_hex x : is_lower_hex x = true → is_hex x = true.
Proof.
  unfold is_lower_hex, is_hex. intros H. apply orb_true_iff in H as [H|H];
    rewrite H; [done|]. by destruct (is_digit x).
Qed.

Lemma lower_hex_not_space x : is_lower_hex x = true → is_space x = false.
Proof.
  intros H. destruct (is_space x) eqn:Hs; [|done]. exfalso.
  unfold is_lower_hex, is_digit in H. unfold is_space in Hs.
  char_props H. char_props Hs. lia.
Qed.

Lemma lower_char_lower_hex x : is_lower_hex x = true → lower_char x = [x].
Proof.
  intros H. unfold lower_char.
  assert (is_upper x = false) as ->.
  { unfold is_lower_hex, is_digit in H. unfold is_upper. char_props H.
    apply andb_false_iff. rewrite !N.leb_gt. lia. }
  assert ((x =? 8490) = false) as ->.
  { unfold is_lower_hex, is_digit in H. char_props H. apply N.eqb_neq. lia. }
  assert ((x =? 304) = false) as ->; [|done].
  unfold is_lower_hex, is_digit in H. char_props H. apply N.eqb_neq. lia.
Qed.

Lemma toLowerCase_lower_hex h :
  Forall (λ x, is_lower_hex x = true) h → toLowerCase h = h.
Proof.
  intros H. induction H as [|x h Hx H IH]; [done|].
  rewrite toLowerCase_cons, IH, lower_char_lower_hex by done. done.
Qed.

Lemma lower_char_hex x :
  is_hex x = true → ∃ y, lower_char x = [y] ∧ is_lower_hex y = true.
Proof.
  intros H. unfold lower_char. destruct (is_upper x) eqn:U.
  - eexists. split; [done|]. unfold is_hex, is_digit in H. unfold is_upper in U.
    unfold is_lower_hex, is_digit. char_props H. char_props U.
    apply orb_true_iff. right. apply andb_true_iff. rewrite !N.leb_le. lia.
  - assert ((x =? 8490) = false) as ->.
    { unfold is_hex, is_digit in H. char_props H. apply N.eqb_neq. lia. }
    assert ((x =? 304) = false) as ->.
    { unfold is_hex, is_digit in H. char_props H. apply N.eqb_neq. lia. }
    eexists. split; [done|]. unfold is_hex, is_digit in H. unfold is_upper in U.
    unfold is_lower_hex, is_digit. char_props H. char_props U.
    apply orb_true_iff. rewrite !andb_true_iff, !N.leb_le. lia.
Qed.

Lemma toLowerCase_hex hs :
  Forall (λ x, is_hex x = true) hs →
  Forall (λ x, is_lower_hex x = true) (toLowerCase hs)
  ∧ length (toLowerCase hs) = length hs.
Proof.
  intros H. induction H as [|x hs Hx H [IH1 IH2]]; [done|].
  rewrite toLowerCase_cons. destruct (lower_char_hex x Hx) as (y & -> & Hy).
  cbn. split; [by constructor|by rewrite IH2].
Qed.

Lemma hex_of_uint_lower u :
  Forall (λ x, is_lower_hex x = true) (hex_of_uint u).
Proof. induction u; cbn [hex_of_uint]; constructor; done. Qed.

(** A component of two characters is two lower-case hexadecimal
    digits. *)
Lemma hex_component_two ds :
  ds ≠ [] → Forall (λ x, is_digit x = true) ds →
  length (hex_component ds) = 2%nat →
  Forall (λ x, is_lower_hex x = true) (hex_component ds).
Proof.
  intros Hne Hds. unfold hex_component. rewrite (parseInt_digits ds Hne Hds).
  destruct (integral_unsigned _ (of_decimal_unsigned (decimal_value ds) 0))
    as [->|[->|(z & -> & Hz)]].
  - vm_compute. lia.
  - vm_compute. lia.
  - intros _. unfold padStart0, toString16.
    assert ((z <? 0)%Z = false) as -> by (apply Z.ltb_ge; lia).
    cbn [app]. apply Forall_app. split.
    + by apply Forall_replicate.
    + apply hex_of_uint_lower.
Qed.

Lemma normColor_lower_hex h :
  Forall (λ x, is_lower_hex x = true) h → (3 ≤ length h ≤ 6)%nat →
  normColor (35 :: h) = Some (35 :: h).
Proof.
  intros Hh Hlen.
  rewrite (normColor_hex (35 :: h) h); [by rewrite toLowerCase_lower_hex| |
    eapply Forall_impl; [exact Hh|apply lower_hex_is_hex] | done].
  apply trim_id; [done|].
  destruct (last (35 :: h)) as [x|] eqn:E; [|done].
  destruct h as [|y h]; [cbn in Hlen; lia|].
  change (last (35 :: y :: h)) with (last (y :: h)) in E.
  apply lower_hex_not_space. rewrite Forall_forall in Hh. apply Hh.
  by apply last_Some_elem_of.
Qed.

End FixedColours.

(** X14.  The size [parsePtPx] returns is never negative, and the
    font size a style record holds is a positive integer, or the
    positive infinity (which a run of some hundred digits gives). *)
Theorem font_size_is_positive :
  (∀ val n, parsePtPx val = Some n → unsigned_num n)
  ∧ (∀ decls n, fontSize (parseCssClass decls) = Some n → positive_num n).
Proof.
  split; [exact parsePtPx_unsigned|].
  intros decls. unfold parseCssClass. by apply decls_font_size_positive.
Qed.

(** X15.  A colour [normColor] returns with seven characters at
    most is a hash sign and three to six lower-case hexadecimal
    digits, and [normColor] returns it unchanged when given it. *)
Theorem short_colours_are_normal val c :
  normColor val = Some c → (length c ≤ 7)%nat →
  (∃ h, c = 35 :: h ∧ Forall (λ x, is_lower_hex x = true) h
     ∧ (3 ≤ length h ≤ 6)%nat)
  ∧ normColor c = Some c.
Proof.
  intros H Hlen.
  assert (∃ h, c = 35 :: h ∧ Forall (λ x, is_lower_hex x = true) h
            ∧ (3 ≤ length h ≤ 6)%nat) as (h & -> & Hh & Hl).
  { apply normColor_Some in H as [(hs & _ & Hhs & Hl & ->)|
      (o & r & g & b & ws1 & ws2 & _ & _ & Nr & Ng & Nb & Dr & Dg & Db & _ & _ & ->)].
    - destruct (toLowerCase_hex hs Hhs) as [H1 H2].
      exists (toLowerCase hs). rewrite H2. done.
    - pose proof (hex_component_length r). pose proof (hex_component_length g).
      pose proof (hex_component_length b).
      change (str "#") with [35] in *. cbn [app length] in Hlen.
      rewrite !length_app in Hlen.
      exists (hex_component r ++ hex_component g ++ hex_component b).
      split; [done|]. split.
      + rewrite !Forall_app. split; [|split]; apply hex_component_two; try done; lia.
      + rewrite !length_app. lia. }
  split; [eauto|]. by apply normColor_lower_hex.
Qed.

Lemma short_colours_are_normal_witness :
  (∃ h, str "#ff0000" = 35 :: h ∧ Forall (λ x, is_lower_hex x = true) h
     ∧ (3 ≤ length h ≤ 6)%nat)
  ∧ normColor (str "#ff0000") = Some (str "#ff0000").
Proof.
  apply (short_colours_are_normal (str "rgb(255, 0, 0)") (str "#ff0000")).
  - vm_compute. reflexivity.
  - vm_compute. lia.
Defined.


(** ** The batch *)

Section BatchFacts.

Implicit Types (f g name stem ext s : list N) (st : State)
  (files : list (list N)).

Lemma strip_prefix_whole eqc lit s :
  strip_prefix eqc lit s = Some [] → agrees eqc lit s.
Proof.
  intros E. apply strip_prefix_Some in E as (o & -> & Ho). by rewrite app_nil_r.
Qed.

Lemma strip_prefix_agrees eqc lit s :
  agrees eqc lit s → strip_prefix eqc lit s = Some [].
Proof.
  intros H. rewrite <- (app_nil_r s). by apply strip_prefix_app.
Qed.

Lemma match_html_true s :
  match_html s = true ↔
  agrees eq_ci (str ".html") s ∨ agrees eq_ci (str ".htm") s.
Proof.
  unfold match_html. split.
  - destruct (strip_prefix eq_ci (str ".html") s) as [[|x r]|] eqn:E;
      [left; by apply strip_prefix_whole| |];
      (destruct (strip_prefix eq_ci (str ".htm") s) as [[|y r']|] eqn:E2;
        [right; by apply strip_prefix_whole|done|done]).
  - intros [H|H].
    + by rewrite (strip_prefix_agrees _ _ _ H).
    + rewrite (strip_prefix_agrees _ _ _ H). by repeat case_match.
Qed.

Lemma html_stem_Some f stem :
  html_stem f = Some stem →
  ∃ ext, f = stem ++ ext
    ∧ (agrees eq_ci (str ".html") ext ∨ agrees eq_ci (str ".htm") ext).
Proof.
  revert stem. induction f as [|c f IH]; intros stem; cbn [html_stem].
  - destruct (match_html []) eqn:M; [|done]. intros [= <-].
    exists []. split; [done|]. by apply match_html_true.
  - destruct (match_html (c :: f)) eqn:M.
    + intros [= <-]. exists (c :: f). split; [done|]. by apply match_html_true.
    + destruct (html_stem f) as [stem'|]; [|done]. cbn. intros [= <-].
      destruct (IH _ eq_refl) as (ext & -> & H). by exists ext.
Qed.

Lemma html_stem_suffix stem ext :
  agrees eq_ci (str ".html") ext ∨ agrees eq_ci (str ".htm") ext →
  is_Some (html_stem (stem ++ ext)).
Proof.
  intros H. induction stem as [|c stem IH].
  - apply match_html_true in H. destruct ext; cbn [app html_stem]; by rewrite H.
  - cbn [app html_stem]. destruct (match_html _); [done|].
    destruct IH as [x ->]. done.
Qed.

Lemma is_html_true f : is_html f = true ↔ is_Some (html_stem f).
Proof.
  unfold is_html. destruct (html_stem f) as [x|].
  - split; [by exists x|done].
  - split; [done|]. by intros [? ?].
Qed.

Lemma outName_html f :
  is_html f = true →
  ∃ stem ext, f = stem ++ ext
    ∧ (agrees eq_ci (str ".html") ext ∨ agrees eq_ci (str ".htm") ext)
    ∧ outName f = stem ++ str ".wsheet".
Proof.
  intros H. apply is_html_true in H as [stem H]. unfold outName. rewrite H.
  apply html_stem_Some in H as (ext & -> & H). by exists stem, ext.
Qed.

Lemma is_wsheet_suffix stem ext :
  agrees eq_ci (str ".wsheet") ext → is_wsheet (stem ++ ext) = true.
Proof.
  intros H. induction stem as [|c stem IH].
  - destruct ext; cbn [app is_wsheet];
      by rewrite (strip_prefix_agrees _ _ _ H).
  - cbn [app is_wsheet]. rewrite IH. by repeat case_match.
Qed.

Lemma is_wsheet_outName f : is_html f = true → is_wsheet (outName f) = true.
Proof.
  intros H. apply outName_html in H as (stem & ext & _ & _ & ->).
  apply is_wsheet_suffix. unfold agrees. vm_compute. repeat constructor.
Qed.


(** The two ways through the body of the loop. *)
Lemma convert_file_cases st file :
  convert_file st file = {| fs := fs st; ok := ok st; fail := S (fail st) |}
  ∨ ∃ text json,
      dir (fs st) !! file = Some (File text) ∧ convertHtml text = inr json
      ∧ data_dir (fs st) !! outName file ≠ Some Folder
      ∧ convert_file st file
        = {| fs := {| dir := delete file (dir (fs st));
                      data_dir := <[outName file := File json]> (data_dir (fs st)) |};
             ok := S (ok st); fail := fail st |}.
Proof.
  unfold convert_file.
  destruct (dir (fs st) !! file) as [[text|]|] eqn:Hd; [|by left|by left].
  destruct (convertHtml text) as [e|json] eqn:Hc; [by left|].
  destruct (data_dir (fs st) !! outName file) as [[t|]|] eqn:Hf; [|by left|];
    right; exists text, json; repeat split; done.
Qed.


(** What holds after the loop over a list of files. *)
Lemma loop_invariant fs0 files :
  let st := fold_left convert_file files {| fs := fs0; ok := 0; fail := 0 |} in
  (ok st + fail st = length files)%nat
  ∧ (∀ f, dir (fs st) !! f = dir fs0 !! f
          ∨ (dir (fs st) !! f = None ∧ f ∈ files
             ∧ ∃ text json, dir fs0 !! f = Some (File text)
                 ∧ convertHtml text = inr json))
  ∧ (∀ name, data_dir (fs st) !! name = data_dir fs0 !! name
             ∨ ∃ f text json, f ∈ files ∧ name = outName f
                 ∧ dir fs0 !! f = Some (File text)
                 ∧ convertHtml text = inr json
                 ∧ data_dir (fs st) !! name = Some (File json)).
Proof.
  induction files as [|g files IH] using rev_ind; cbn zeta.
  - cbn. split; [done|]. split; intros; by left.
  - rewrite fold_left_app. cbn [fold_left]. cbn zeta in IH.
    set (st := fold_left convert_file files _) in *.
    destruct IH as (I1 & I2 & I3). rewrite length_app. cbn [length].
    destruct (convert_file_cases st g) as [->|(text & json & Hd & Hc & Hf & ->)];
      cbn [fs ok fail dir data_dir].
    + split; [lia|]. split.
      * intros f. destruct (I2 f) as [H|(H1 & H2 & H3)]; [by left|right].
        split; [done|]. split; [|done]. apply elem_of_app. by left.
      * intros name. destruct (I3 name) as [H|(f & t & j & H1 & H)]; [by left|right].
        exists f, t, j. split; [|done]. apply elem_of_app. by left.
    + assert (dir fs0 !! g = Some (File text)) as Hg.
      { destruct (I2 g) as [H|(H & _)]; congruence. }
      split; [lia|]. split.
      * intros f. destruct (decide (f = g)) as [->|Hne].
        -- right. rewrite lookup_delete_eq. split; [done|].
           split; [apply elem_of_app; right; by apply list_elem_of_singleton|].
           by exists text, json.
        -- rewrite lookup_delete_ne by done.
           destruct (I2 f) as [H|(H1 & H2 & H3)]; [by left|right].
           split; [done|]. split; [|done]. apply elem_of_app. by left.
      * intros name. destruct (decide (name = outName g)) as [->|Hne].
        -- right. exists g, text, json. rewrite lookup_insert_eq.
           split; [apply elem_of_app; right; by apply list_elem_of_singleton|done].
        -- rewrite lookup_insert_ne by done.
           destruct (I3 name) as [H|(f & t & j & H1 & H)]; [by left|right].
           exists f, t, j. split; [|done]. apply elem_of_app. by left.
Qed.


Lemma elem_of_filter_bool (P : list N → bool) (l : list (list N)) x :
  x ∈ List.filter P l ↔ P x = true ∧ x ∈ l.
Proof. rewrite !list_elem_of_In, filter_In. tauto. Qed.


End BatchFacts.


Section OutputNames.

Implicit Types (f stem ext x : list N).

(** The pattern of the HTML files matches at one position only: where
    the extension starts. *)
Lemma match_html_longer c x ext :
  agrees eq_ci (str ".html") ext ∨ agrees eq_ci (str ".htm") ext →
  match_html (c :: x ++ ext) = false.
Proof.
  intros H. destruct (match_html (c :: x ++ ext)) eqn:M; [|done]. exfalso.
  apply match_html_true in M.
  change (str ".html") with [46; 104; 116; 109; 108] in *.
  change (str ".htm") with [46; 104; 116; 109] in *.
  assert (length ext = 5 ∨ length ext = 4)%nat as HL
    by (destruct H as [H|H]; apply agrees_length in H; cbn in H; lia).
  assert (length (c :: x ++ ext) = 5 ∨ length (c :: x ++ ext) = 4)%nat as ML
    by (destruct M as [M|M]; apply agrees_length in M; cbn in M; cbn; lia).
  cbn [length] in ML. rewrite length_app in ML.
  destruct x as [|y x]; [|cbn in ML; lia]. cbn [app length] in *.
  destruct H as [H|H]; [apply agrees_length in H; cbn in H; lia|].
  destruct M as [M|M]; [|apply agrees_length in M; cbn in M; lia].
  unfold agrees in *. apply Forall2_cons_inv_l in M as (c' & ext' & _ & M & E).
  injection E as <- <-.
  apply Forall2_cons_inv_l in M as (e0 & ext' & M0 & _ & ->).
  apply Forall2_cons_inv_l in H as (e0' & ext'' & H0 & _ & E).
  injection E as <- <-.
  unfold eq_ci in *. apply N.eqb_eq in M0, H0.
  vm_compute in M0, H0. congruence.
Qed.

Lemma html_stem_of_suffix stem ext :
  agrees eq_ci (str ".html") ext ∨ agrees eq_ci (str ".htm") ext →
  html_stem (stem ++ ext) = Some stem.
Proof.
  intros H. induction stem as [|c stem IH].
  - pose proof H as M. apply match_html_true in M.
    destruct ext; cbn [app html_stem]; by rewrite M.
  - cbn [app html_stem]. rewrite match_html_longer by done. by rewrite IH.
Qed.

End OutputNames.

(** X16.  An HTML file is a name that ends with [.html] or [.htm],
    letters in either case, and its output is the name with that
    ending replaced by [.wsheet], which the index pattern accepts;
    any other name is no HTML file. *)
Theorem output_name_replaces_the_extension :
  (∀ stem ext,
     agrees eq_ci (str ".html") ext ∨ agrees eq_ci (str ".htm") ext →
     is_html (stem ++ ext) = true
     ∧ outName (stem ++ ext) = stem ++ str ".wsheet")
  ∧ (∀ f, is_html f = true →
       (∃ stem ext, f = stem ++ ext
          ∧ (agrees eq_ci (str ".html") ext ∨ agrees eq_ci (str ".htm") ext))
       ∧ is_wsheet (outName f) = true).
Proof.
  split.
  - intros stem ext H. unfold is_html, outName.
    by rewrite (html_stem_of_suffix stem ext H).
  - intros f H. split; [|by apply is_wsheet_outName].
    destruct (outName_html f H) as (stem & ext & ? & ? & _). eauto.
Qed.

Section Batch.

Context (readdir : gmap (list N) node → list (list N)).
Context (sort : list (list N) → list (list N)).
Context (fs0 : FileSystem).

Local Abbreviation files := (html_files readdir fs0).
Local Abbreviation looped := (loop readdir fs0).

Lemma main_no_file : files = [] → main readdir sort fs0 = (Exited, start fs0).
Proof. unfold main. by intros ->. Qed.

Lemma main_files :
  files ≠ [] →
  main readdir sort fs0
  = match data_dir (fs looped) !! index_name with
    | Some Folder => (Thrown, looped)
    | _ =>
        (Finished,
         {| fs := {| dir := dir (fs looped);
                     data_dir :=
                       <[index_name :=
                           File (index_text
                                   (sort (List.filter is_wsheet
                                            (readdir (data_dir (fs looped))))))]>
                         (data_dir (fs looped)) |};
            ok := ok looped; fail := fail looped |})
    end.
Proof. unfold main. by destruct files. Qed.

Lemma main_dir : dir (fs (main readdir sort fs0).2) = dir (fs looped).
Proof.
  destruct (decide (files = [])) as [E|E].
  - rewrite (main_no_file E). unfold loop. by rewrite E.
  - rewrite (main_files E). by repeat case_match.
Qed.

Lemma main_counters :
  ok (main readdir sort fs0).2 = ok looped
  ∧ fail (main readdir sort fs0).2 = fail looped.
Proof.
  destruct (decide (files = [])) as [E|E].
  - rewrite (main_no_file E). unfold loop. by rewrite E.
  - rewrite (main_files E). by repeat case_match.
Qed.


(** X17.  Without an HTML file in the folder the script exits at
    once and changes nothing, the index included; otherwise every
    HTML file of the listing is counted once, as converted or as
    failed. *)
Theorem tally_counts_every_html_file :
  let r := main readdir sort fs0 in
  (files = [] → r = (Exited, start fs0))
  ∧ (files ≠ [] →
     r.1 ≠ Exited ∧ (ok r.2 + fail r.2 = length files)%nat).
Proof.
  cbn zeta. split; [apply main_no_file|]. intros E.
  destruct main_counters as [-> ->].
  destruct (loop_invariant fs0 files) as (I1 & _). split; [|exact I1].
  rewrite (main_files E). by repeat case_match.
Qed.

Lemma main_sources f :
  let st := (main readdir sort fs0).2 in
  dir (fs st) !! f = dir fs0 !! f
  ∨ (dir (fs st) !! f = None ∧ is_html f = true ∧ f ∈ readdir (dir fs0)
     ∧ ∃ text json, dir fs0 !! f = Some (File text)
         ∧ convertHtml text = inr json).
Proof.
  cbn zeta. rewrite main_dir.
  destruct (loop_invariant fs0 files) as (_ & I2 & _).
  destruct (I2 f) as [H|(H1 & H2 & H3)]; [by left|right].
  apply elem_of_filter_bool in H2 as [? ?]. done.
Qed.



(** X20.  When the script runs to its end, the index it writes
    lists the names of the data folder that end with [.wsheet],
    letters in either case, and no other name: the outputs of this
    run and whatever was there before.  This holds whenever the
    listing of a folder gives its names and sorting permutes. *)
Theorem index_lists_the_wsheet_names :
  (∀ m name, name ∈ readdir m ↔ is_Some (m !! name)) →
  (∀ l, sort l ≡ₚ l) →
  (main readdir sort fs0).1 = Finished →
  let st := (main readdir sort fs0).2 in
  ∃ names,
    data_dir (fs st) !! index_name = Some (File (index_text names))
    ∧ ∀ n, n ∈ names ↔ is_wsheet n = true ∧ is_Some (data_dir (fs st) !! n).
Proof.
  intros Hls Hsort.
  assert (∀ n l, n ∈ sort l ↔ n ∈ l) as Hin.
  { intros n l. pose proof (Hsort l) as Hp.
    split; intros H.
    - by rewrite <- Hp.
    - by rewrite Hp. }
  destruct (decide (files = [])) as [E|E].
  { by rewrite (main_no_file E). }
  rewrite (main_files E).
  assert (∀ (v : node) n,
    n ∈ sort (List.filter is_wsheet (readdir (data_dir (fs looped))))
    ↔ is_wsheet n = true
      ∧ is_Some (<[index_name := v]> (data_dir (fs looped)) !! n)) as Hnames.
  { intros v n. rewrite Hin, elem_of_filter_bool, Hls.
    split; intros [Hw Hn]; (split; [done|]);
      (destruct (decide (n = index_name)) as [->|Hne];
         [by vm_compute in Hw|]);
      by rewrite lookup_insert_ne in *. }
  destruct (data_dir (fs looped) !! index_name) as [[t|]|] eqn:F;
    cbn [fst snd fs data_dir]; [|done|]; intros _;
    (eexists; split; [by rewrite lookup_insert_eq|apply Hnames]).
Qed.

End Batch.


Section Listing.

Import BatchSamples.

Lemma listing_spec (m : gmap (list N) node) name :
  name ∈ listing m ↔ is_Some (m !! name).
Proof.
  unfold listing. rewrite list_elem_of_fmap. split.
  - intros ([k v] & -> & H). apply elem_of_map_to_list in H. by exists v.
  - intros [v H]. exists (name, v). split; [done|]. by apply elem_of_map_to_list.
Qed.


End Listing.


(** X21.  The script deletes nothing but the HTML files of the
    listing it converted: every other name of the folder is left as
    it was, and so is a file whose conversion throws. *)
Theorem only_converted_sources_are_deleted readdir sort fs0 f :
  let st := (main readdir sort fs0).2 in
  (dir (fs st) !! f = dir fs0 !! f
   ∨ (dir (fs st) !! f = None ∧ is_html f = true ∧ f ∈ readdir (dir fs0)
      ∧ ∃ text json, dir fs0 !! f = Some (File text)
          ∧ convertHtml text = inr json))
  ∧ (∀ text e, dir fs0 !! f = Some (File text) → convertHtml text = inl e →
       dir (fs st) !! f = Some (File text)).
Proof.
  cbn zeta. pose proof (main_sources readdir sort fs0 f) as H. cbn zeta in H.
  split; [exact H|]. intros text e Hd Hc.
  destruct H as [->|(_ & _ & _ & t & j & Ht & Hj)]; [done|]. congruence.
Qed.





Lemma index_lists_the_wsheet_names_witness :
  let st := (main BatchSamples.listing id BatchSamples.folder).2 in
  ∃ names,
    data_dir (fs st) !! index_name = Some (File (index_text names))
    ∧ ∀ n, n ∈ names ↔ is_wsheet n = true ∧ is_Some (data_dir (fs st) !! n).
Proof.
  apply (index_lists_the_wsheet_names BatchSamples.listing id BatchSamples.folder).
  - apply listing_spec.
  - reflexivity.
  - vm_compute. reflexivity.
Defined.

(** The run on the sample folder, its names listed and left in the
    order of the map: one file converted, one failed and kept, and an
    index of two names. *)
Example batch_on_the_sample_folder :
  let r := main BatchSamples.listing id BatchSamples.folder in
  r.1 = Finished ∧ ok r.2 = 1%nat ∧ fail r.2 = 1%nat
  ∧ BatchSamples.listing (dir (fs r.2)) = [str "convert.js"; str "b.HTM"]
  ∧ data_dir (fs r.2) !! index_name
    = Some (File (str "[" ++ [10] ++ quoted "  `old.wsheet`," ++ [10]
                  ++ quoted "  `a.wsheet`" ++ [10] ++ str "]" ++ [10])).
Proof. vm_compute. repeat split; reflexivity. Qed.


(** ** Elements the scan finds, and cells without a class *)

Section Scan.

Implicit Types (s name pre o attrs content c rest : list N).

Lemma match_element_here name o attrs content c rest :
  agrees eq_ci (str "<" ++ name) o →
  Forall (λ x, x ≠ 62) attrs →
  agrees eq_ci (str "</" ++ name ++ str ">") c →
  is_Some (match_element name (o ++ attrs ++ [62] ++ content ++ c ++ rest)).
Proof.
  intros Ho Ha Hc. unfold match_element.
  rewrite (strip_prefix_app _ _ _ _ Ho). cbn [mbind option_bind].
  rewrite (span_app _ attrs ([62] ++ content ++ c ++ rest)); [| |done].
  2:{ eapply Forall_impl; [exact Ha|]. intros x Hx. cbn.
      by apply negb_true_iff, N.eqb_neq. }
  cbn [app].
  destruct (find_lit eq_ci (str "</" ++ name ++ str ">") (content ++ c ++ rest))
    as [[ct rs]|] eqn:F; [done|].
  exfalso. rewrite find_lit_None in F. by apply (F content c rest).
Qed.

Lemma exec_element_here name s :
  is_Some (match_element name s) → is_Some (exec_element name s).
Proof. intros [m H]. destruct s; cbn [exec_element]; by rewrite H. Qed.

Lemma exec_element_app name pre s :
  is_Some (exec_element name s) → is_Some (exec_element name (pre ++ s)).
Proof.
  intros H. induction pre as [|x pre IH]; [done|].
  cbn [app exec_element]. by destruct (match_element name (x :: pre ++ s)).
Qed.

Lemma exec_element_None name s :
  exec_element name s = None ↔
  ¬ ∃ pre o attrs content c rest,
      s = pre ++ o ++ attrs ++ [62] ++ content ++ c ++ rest
      ∧ agrees eq_ci (str "<" ++ name) o
      ∧ Forall (λ x, x ≠ 62) attrs
      ∧ agrees eq_ci (str "</" ++ name ++ str ">") c.
Proof.
  split.
  - intros E (pre & o & attrs & content & c & rest & -> & Ho & Ha & Hc).
    pose proof (match_element_here name o attrs content c rest Ho Ha Hc) as H.
    apply exec_element_here, (exec_element_app name pre) in H.
    rewrite E in H. by destruct H.
  - intros H. destruct (exec_element name s) as [[[a b] r]|] eqn:E; [|done].
    exfalso. apply H.
    apply exec_element_Some in E as (pre & o & c & -> & Ho & Hc & Ha & _).
    by exists pre, o, a, b, c, r.
Qed.

Lemma classMatch_absent attrs :
  find_lit eq_ci (str "class=") attrs = None → classMatch attrs = None.
Proof.
  induction attrs as [|x attrs IH]; [done|].
  intros [H1 H2]%find_lit_None_cons. cbn [classMatch].
  unfold match_class at 1. rewrite H1. cbn. by apply IH.
Qed.

Lemma unclassed_cell_entries src cell :
  cell_class cell.1 = [] →
  cell_format (buildStyleMap src) cell = None
  ∧ cell_borders (buildStyleMap src) cell = None.
Proof.
  intros H. unfold cell_format, cell_borders. rewrite H.
  by rewrite (built_get_nil _ (buildStyleMap_built src)).
Qed.

End Scan.

(** X22.  A scan finds no element exactly when the text holds no
    opening tag of the name, in either case, that is closed by a [>]
    and followed, anywhere after it, by the closing tag: a row of
    header cells alone, say, has no cell. *)
Theorem scan_finds_nothing_where_no_element_is name s :
  elements name s = [] ↔
  ¬ ∃ pre o attrs content c rest,
      s = pre ++ o ++ attrs ++ [62] ++ content ++ c ++ rest
      ∧ agrees eq_ci (str "<" ++ name) o
      ∧ Forall (λ x, x ≠ 62) attrs
      ∧ agrees eq_ci (str "</" ++ name ++ str ">") c.
Proof.
  rewrite <- exec_element_None, elements_unfold.
  by destruct (exec_element name s) as [[[a b] r]|].
Qed.

(** X23.  A cell without a class attribute, or with one that
    is empty or white space, has the empty class name, and such a
    cell gets neither a format nor borders, whatever the style rules
    of the page are. *)
Theorem cells_without_a_class_have_no_entry :
  (∀ attrs, absent eq_ci (str "class=") attrs → cell_class attrs = [])
  ∧ (∀ src d tbodyHtml r c cell,
       convertDocument src = inr d → tbodyMatch src = Some tbodyHtml →
       cell_at tbodyHtml r c = Some cell → cell_class cell.1 = [] →
       entry (formats d) r c = None ∧ entry (borders d) r c = None).
Proof.
  split.
  - intros attrs H. apply find_lit_absent in H. unfold cell_class.
    by rewrite classMatch_absent.
  - intros src d t r c cell Hd Ht Hat Hcls.
    apply convertDocument_inr in Hd as (t' & Ht' & ->).
    assert (t' = t) as -> by congruence. cbn [formats borders].
    destruct (parseRows_entries (buildStyleMap src) t r c) as [-> ->].
    rewrite Hat. cbn. by apply unclassed_cell_entries.
Qed.

Lemma cells_without_a_class_have_no_entry_witness :
  entry (formats Samples.hi_there_doc) 0 1 = None
  ∧ entry (borders Samples.hi_there_doc) 0 1 = None.
Proof.
  destruct cells_without_a_class_have_no_entry as [_ H].
  apply (H Samples.hi_there Samples.hi_there_doc
           (str "<tr><th>1</th><td class='s1'>Hi</td><td>There</td></tr>")
           0%nat 1%nat ([], str "There")); vm_compute; reflexivity.
Defined.


(** ** Errors *)

Section Fatal.

Implicit Types (src : list N).





End Fatal.



